(** * memo_ai: the chunk store, chunk scoring and merge policy

    A shallow embedding of [ChunkManager] (chunk store, scoring, merge of
    incremental extraction decisions) and of the parts of [LLMService] that
    decide whether an extraction or tutoring call succeeds and what it
    returns.

    Conventions.
    - A JavaScript [number] is a real number ([R]): the arithmetic of the
      source is read over the reals, without rounding error, overflow or NaN.
      The one place where the source itself tests for NaN
      ([generatePushResponse]) uses [JsNum], which has NaN and the infinities.
      Statements about the score claim no more than the floating-point
      arithmetic keeps: bounds are not strict where rounding can reach
      them.
    - A JavaScript [string] is a [string]; [trim] removes the ASCII white
      space characters.
    - The [Map<string, Chunk>] of the store is an association list in
      insertion order, which is the iteration order of a JavaScript [Map].
    - [Date.now()] and [Math.random()] are read from oracles indexed by the
      number of readings made so far.
    - The value that [JSON.parse] gives for the reply of an extraction is
      an untyped value ([JsValue]).  The two extraction methods and the
      loops over the arrays of the reply read it as the source does, and
      throw where the source throws; an element that can be read is read as
      a decision or a chunk of the declared type ([processDecision],
      [processNewChunk]).  The reply of a tutoring prompt is read at the
      type [JsonPromptResult] that the source casts it to.
    - A chunk of the store has the properties that the interface [Chunk]
      declares.  [ChunkObject] is the chunk as an object whose properties
      may be [undefined], which is what [updateChunk] can leave behind. *)

From Stdlib Require Import Reals Lra Lia ZArith List String Ascii Bool.
From Stdlib Require Import DecimalString.
Import ListNotations.

Local Open Scope string_scope.
Local Open Scope R_scope.

(** * Part I: the embedding *)

(** ** JavaScript numbers *)

Module JsMath.

Definition Math_max (a b : R) : R := Rmax a b.
Definition Math_min (a b : R) : R := Rmin a b.

(** [Math.round] rounds to the nearest integer, halves towards plus infinity:
    the floor of [x + 1/2]. *)
Definition Math_round (x : R) : R := IZR (Int_part (x + / 2)).

(** [x === y] on numbers. *)
Definition num_eqb (x y : R) : bool :=
  if Req_dec_T x y then true else false.

(** Truthiness of a number: every number but zero. *)
Definition num_truthy (x : R) : bool := negb (num_eqb x 0).

End JsMath.
Import JsMath.

(** Numbers that may be NaN or infinite, for values converted from an
    untyped reply. *)
Module JsNum.

Inductive t : Type :=
| NaN
| NegInf
| PosInf
| Fin (r : R).

Definition isNaN (n : t) : bool :=
  match n with NaN => true | _ => false end.

Definition round (n : t) : t :=
  match n with
  | Fin r => Fin (Math_round r)
  | other => other
  end.

(** [Math.min(a, b)] and [Math.max(a, b)]: NaN if either argument is. *)
Definition min (a b : t) : t :=
  match a, b with
  | NaN, _ | _, NaN => NaN
  | NegInf, _ | _, NegInf => NegInf
  | PosInf, x | x, PosInf => x
  | Fin x, Fin y => Fin (Math_min x y)
  end.

Definition max (a b : t) : t :=
  match a, b with
  | NaN, _ | _, NaN => NaN
  | PosInf, _ | _, PosInf => PosInf
  | NegInf, x | x, NegInf => x
  | Fin x, Fin y => Fin (Math_max x y)
  end.

End JsNum.

(** ** JavaScript strings *)

Module Str.

(** Tab, line feed, vertical tab, form feed, carriage return and space. *)
Definition isWhiteSpace (a : ascii) : bool :=
  let n := N_of_ascii a in
  (N.leb 9 n && N.leb n 13) || N.eqb n 32.

Fixpoint trimStartL (l : list ascii) : list ascii :=
  match l with
  | [] => []
  | a :: r => if isWhiteSpace a then trimStartL r else l
  end.

Definition trimEndL (l : list ascii) : list ascii :=
  rev (trimStartL (rev l)).

(** [s.trim()]. *)
Definition trim (s : string) : string :=
  string_of_list_ascii (trimEndL (trimStartL (list_ascii_of_string s))).

(** A list of characters that is empty or starts with a character that is
    not white space. *)
Definition trimmedStart (l : list ascii) : Prop :=
  match l with
  | [] => True
  | a :: _ => isWhiteSpace a = false
  end.

(** Truthiness of a string: every string but the empty one. *)
Definition truthy (s : string) : bool :=
  match s with EmptyString => false | _ => true end.

(** Truthiness of an optional string ([undefined] is falsy). *)
Definition truthy_opt (o : option string) : bool :=
  match o with Some s => truthy s | None => false end.

(** [a || b] on strings. *)
Definition or_else (a b : string) : string := if truthy a then a else b.

(** [o || b] where [o] may be [undefined]. *)
Definition opt_or_else (o : option string) (b : string) : string :=
  match o with Some a => or_else a b | None => b end.

(** [hay.includes(needle)]. *)
Fixpoint includes (needle hay : string) : bool :=
  prefix needle hay ||
  match hay with
  | EmptyString => false
  | String _ rest => includes needle rest
  end.

(** The decimal digits of an integer, as a template literal prints it. *)
Definition of_Z (z : Z) : string := NilZero.string_of_int (Z.to_int z).

Fixpoint dropWhileL (p : ascii -> bool) (l : list ascii) : list ascii :=
  match l with
  | [] => []
  | a :: r => if p a then dropWhileL p r else l
  end.

(** [s.replace(/\/+$/, '')]: without its trailing slashes. *)
Definition dropTrailingSlashes (s : string) : string :=
  string_of_list_ascii
    (rev (dropWhileL (Ascii.eqb "/"%char) (rev (list_ascii_of_string s)))).

(** [s] without the suffix [suf], when it ends with it. *)
Definition stripSuffix (suf s : string) : string :=
  let rs := string_of_list_ascii (rev (list_ascii_of_string s)) in
  let rsuf := string_of_list_ascii (rev (list_ascii_of_string suf)) in
  if prefix rsuf rs
  then string_of_list_ascii
         (rev (skipn (String.length suf) (rev (list_ascii_of_string s))))
  else s.

End Str.

(** ** Values thrown and values returned *)

Record JsError : Type := mkError {
  name : string;
  message : string
}.

(** What a [throw] or a rejected promise carries: an [Error], or some other
    value, of which only [String(value)] is ever used. *)
Inductive Thrown : Type :=
| ThrownError (e : JsError)
| ThrownOther (shown : string).

Inductive Result (A : Type) : Type :=
| Ok (a : A)
| Throw (t : Thrown).
Arguments Ok {A} a.
Arguments Throw {A} t.

(** [new Error(msg)]. *)
Definition newError (msg : string) : Thrown :=
  ThrownError {| name := "Error"; message := msg |}.

(** [error.message] of a caught value ([undefined] on a value that is not an
    [Error], which a template literal prints as such). *)
Definition message_of (t : Thrown) : string :=
  match t with
  | ThrownError e => message e
  | ThrownOther _ => "undefined"
  end.

Definition bind {A B : Type} (r : Result A) (k : A -> Result B) : Result B :=
  match r with
  | Ok a => k a
  | Throw t => Throw t
  end.

Notation "x <- r ;; k" := (bind r (fun x => k))
  (at level 61, r at next level, right associativity).

(** ** Untyped values of a parsed reply *)

#[local] Set Warnings "-register-all".
Inductive JsValue : Type :=
| JsUndefined
| JsNull
| JsBool (b : bool)
| JsNumber (n : JsNum.t)
| JsString (s : string)
| JsArray (items : list JsValue)
| JsObject (fields : list (string * JsValue)).
#[local] Set Warnings "register-all".

(** The conversions of the language that the embedding does not spell out:
    the number a string denotes, and the string an array or object prints as. *)
Class JsRuntime : Type := {
  StringToNumber : string -> JsNum.t;
  ToString : JsValue -> string
}.

Module Js.

(** Truthiness. *)
Definition truthy (v : JsValue) : bool :=
  match v with
  | JsUndefined | JsNull => false
  | JsBool b => b
  | JsNumber (JsNum.Fin r) => num_truthy r
  | JsNumber JsNum.NaN => false
  | JsNumber _ => true
  | JsString s => Str.truthy s
  | JsArray _ | JsObject _ => true
  end.

(** [typeof v === 'object'] (which [null] satisfies too). *)
Definition typeof_object (v : JsValue) : bool :=
  match v with
  | JsNull | JsArray _ | JsObject _ => true
  | _ => false
  end.

Definition is_null (v : JsValue) : bool :=
  match v with JsNull => true | _ => false end.

Definition is_undefined (v : JsValue) : bool :=
  match v with JsUndefined => true | _ => false end.

Fixpoint lookup (k : string) (fields : list (string * JsValue)) : JsValue :=
  match fields with
  | [] => JsUndefined
  | (k', v) :: rest => if String.eqb k k' then v else lookup k rest
  end.

(** [v.k] on an object or an array (no array has one of the keys read here). *)
Definition get (v : JsValue) (k : string) : JsValue :=
  match v with
  | JsObject fields => lookup k fields
  | _ => JsUndefined
  end.

(** [new TypeError(msg)], with the messages of V8. *)
Definition newTypeError (msg : string) : Thrown :=
  ThrownError {| name := "TypeError"; message := msg |}.

(** [v.k] where [v] may be [null] or [undefined], of which no property can
    be read; a boolean, a number or a string has none of the keys read
    here. *)
Definition prop (v : JsValue) (k : string) : Result JsValue :=
  match v with
  | JsUndefined =>
      Throw (newTypeError ("Cannot read properties of undefined (reading '" ++ k ++ "')"))
  | JsNull =>
      Throw (newTypeError ("Cannot read properties of null (reading '" ++ k ++ "')"))
  | _ => Ok (get v k)
  end.

(** A value that is no object: [Number(v)] calls no method of such a
    value. *)
Definition is_primitive (v : JsValue) : bool :=
  match v with
  | JsArray _ | JsObject _ => false
  | _ => true
  end.

(** [typeof v === 'string']. *)
Definition is_string (v : JsValue) : bool :=
  match v with JsString _ => true | _ => false end.

(** [v === s] for a string [s]. *)
Definition equals (v : JsValue) (s : string) : bool :=
  match v with JsString s' => String.eqb s' s | _ => false end.

(** [Number(v)].  On an array or an object the conversion goes through the
    methods of the value, and [ToString] stands for their result: the
    conversion is read as one that returns.  (It throws a [TypeError] for an
    object whose own [toString] and [valueOf] cannot be called, which a
    statement about values that are no objects, [is_primitive], does not
    meet.) *)
Definition Number `{JsRuntime} (v : JsValue) : JsNum.t :=
  match v with
  | JsUndefined => JsNum.NaN
  | JsNull => JsNum.Fin 0
  | JsBool true => JsNum.Fin 1
  | JsBool false => JsNum.Fin 0
  | JsNumber n => n
  | JsString s => StringToNumber s
  | JsArray _ | JsObject _ => StringToNumber (ToString v)
  end.

(** [a || b]. *)
Definition or_else (a b : JsValue) : JsValue := if truthy a then a else b.

End Js.

(** ** [LLMService] *)

Module LLMService.

(** [interface LLMConfig], without [requestUrl]: what the request resolves to
    is an input of each method below. *)
Record LLMConfig : Type := mkConfig {
  apiKey : string;
  apiBase : option string;
  model : option string;
  timeout : option R
}.

Record LLMChunk : Type := mkLLMChunk {
  content : string
}.

Record IncrementalChunkDecision : Type := mkDecision {
  id : string;
  action : string;
  modified_content : option string;
  update_level : option string
}.

(** [interface IncrementalLLMResponse].  The elements of the two arrays are
    the values that [JSON.parse] gave: the interface types them as decisions
    and chunks, a cast that checks nothing. *)
Record IncrementalLLMResponse : Type := mkIncremental {
  existing_chunks : list JsValue;
  new_chunks : list JsValue
}.

(** The value that [JSON.parse] gives for a chunk and for a decision of the
    declared types; an optional key that has no value is left out. *)
Definition chunkObject (c : LLMChunk) : JsValue :=
  JsObject [("content", JsString (content c))].

Definition optionalKey (k : string) (v : option string) : list (string * JsValue) :=
  match v with
  | Some s => [(k, JsString s)]
  | None => []
  end.

Definition decisionObject (d : IncrementalChunkDecision) : JsValue :=
  JsObject
    ([("id", JsString (id d)); ("action", JsString (action d))]
     ++ optionalKey "modified_content" (modified_content d)
     ++ optionalKey "update_level" (update_level d))%list.

(** [interface JsonPromptResult]; the keys read beyond the declared ones come
    through its index signature, as [unknown]. *)
Record JsonPromptResult : Type := mkJsonPromptResult {
  question : option string;
  response : option string;
  should_end : JsValue;
  evaluation : JsValue
}.

Record PushEvaluationResult : Type := mkEvaluation {
  grade : JsNum.t;
  recommendation : JsValue;
  confidence : option JsNum.t
}.

Record PushResponseResult : Type := mkPushResponse {
  result_response : string;
  shouldEnd : bool;
  result_evaluation : option PushEvaluationResult
}.

(** [JSON.parse]; [inl msg] is a [SyntaxError] with that message.  The two
    extraction methods read the value that it gives, whatever it is;
    [parse_JsonPromptResult] is [JSON.parse] of a reply to a tutoring prompt,
    read at the type [JsonPromptResult] that [callJsonPrompt] declares for
    it. *)
Class JsonParser : Type := {
  JSON_parse : string -> string + JsValue;
  parse_JsonPromptResult : string -> string + JsonPromptResult
}.

(** The body of a chat-completions reply, as far as the service reads it:
    [json.error.message], [json.message] and [json.choices[i].message.content]. *)
Record ChoiceMessage : Type := mkChoiceMessage {
  message_content : option string
}.

Record Choice : Type := mkChoice {
  choice_message : option ChoiceMessage
}.

Record ResponseJson : Type := mkResponseJson {
  error_message : option string;
  top_message : option string;
  choices : option (list Choice)
}.

(** [RequestUrlResponse]; [json] is [None] when [response.json] is not an
    object. *)
Record RequestUrlResponse : Type := mkResponse {
  status : Z;
  json : option ResponseJson;
  text : string
}.

(** What [await this.config.requestUrl(...)] does. *)
Inductive RequestOutcome : Type :=
| Rejects (t : Thrown)
| Resolves (r : RequestUrlResponse).

(** [apiBase.trim().replace(/\/+$/, '').replace(/\/chat\/completions\/?$/, '')]
    on [this.config.apiBase || 'https://api.openai.com/v1']. *)
Definition normalizedApiBase (config : LLMConfig) : string :=
  let apiBase := Str.opt_or_else (apiBase config) "https://api.openai.com/v1" in
  Str.stripSuffix "/chat/completions"
    (Str.dropTrailingSlashes (Str.trim apiBase)).

(** The message of a reply whose status is not 2xx. *)
Definition httpErrorMessage (r : RequestUrlResponse) : string :=
  let errorMessage := "HTTP " ++ Str.of_Z (status r) in
  match json r with
  | Some error =>
      Str.opt_or_else (error_message error)
        (Str.opt_or_else (top_message error)
           (Str.or_else (text r) errorMessage))
  | None => Str.or_else (text r) errorMessage
  end.

Definition is2xx (r : RequestUrlResponse) : bool :=
  negb ((status r <? 200)%Z || (status r >=? 300)%Z).

(** The [TypeError] of reading [choices] of [null]. *)
Definition nullChoicesError : Thrown :=
  ThrownError {| name := "TypeError";
                 message := "Cannot read properties of null (reading 'choices')" |}.

(** From the awaited request to [data.choices[0].message.content]: the part
    of the [try] block that [extractChunks] and [extractChunksIncremental]
    have in common, line for line. *)
Definition completionContent (net : RequestOutcome) : Result string :=
  match net with
  | Rejects t => Throw t
  | Resolves response =>
      if negb (is2xx response)
      then Throw (newError ("LLM API error: " ++ httpErrorMessage response))
      else
        match json response with
        | None => Throw nullChoicesError
        | Some data =>
            match choices data with
            | Some ({| choice_message := Some m |} :: _) =>
                match message_content m with
                | Some content =>
                    if Str.truthy content then Ok content
                    else Throw (newError "Empty response from LLM API")
                | None => Throw (newError "Empty response from LLM API")
                end
            | _ => Throw (newError "Invalid response format from LLM API")
            end
        end
  end.

(** The [catch] clause of the two extraction methods, which differ in the
    prefix of the last message only. *)
Definition rethrown (pre : string) (config : LLMConfig) (t : Thrown) : Thrown :=
  match t with
  | ThrownError error =>
      if String.eqb (name error) "AbortError" || String.eqb (name error) "TimeoutError"
      then newError "Request timeout. Please check your network connection or try again."
      else if Str.includes "Failed to fetch" (message error)
              || Str.includes "ERR_CONNECTION" (message error)
      then newError ("Network error: Cannot connect to " ++ normalizedApiBase config
                     ++ ". Please check your network connection and API endpoint.")
      else newError (pre ++ message error)
  | ThrownOther shown => newError (pre ++ shown)
  end.

Definition catching (pre : string) (config : LLMConfig) {A : Type}
  (body : Result A) : Result A :=
  match body with
  | Ok a => Ok a
  | Throw t => Throw (rethrown pre config t)
  end.

(** [JSON.parse] inside its own [try]: a failure is thrown again with the
    parser's message. *)
Definition parsing {A : Type} (p : string + A) : Result A :=
  match p with
  | inr a => Ok a
  | inl errorMessage =>
      Throw (newError ("Failed to parse LLM response as JSON: " ++ errorMessage))
  end.

Section Methods.

Context `{JsonParser}.

(** [extractChunks].  [parsed.chunks] throws a [TypeError] when the content
    is the text [null]; the [catch] clause wraps it like every other error.
    What the method returns is the array as parsed. *)
Definition extractChunks (config : LLMConfig) (net : RequestOutcome)
  : Result (list JsValue) :=
  if negb (Str.truthy (apiKey config))
  then Throw (newError "LLM API key not configured")
  else
    catching "Failed to extract chunks: " config
      (content <- completionContent net ;;
       parsed <- parsing (JSON_parse content) ;;
       parsed_chunks <- Js.prop parsed "chunks" ;;
       match Js.or_else parsed_chunks (JsArray []) with
       | JsArray chunks => Ok chunks
       | _ => Throw (newError "LLM response chunks is not an array")
       end).

Definition extractChunksIncremental (config : LLMConfig) (net : RequestOutcome)
  : Result IncrementalLLMResponse :=
  if negb (Str.truthy (apiKey config))
  then Throw (newError "LLM API key not configured")
  else
    catching "Failed to extract chunks incrementally: " config
      (content <- completionContent net ;;
       parsed <- parsing (JSON_parse content) ;;
       parsed_existing_chunks <- Js.prop parsed "existing_chunks" ;;
       parsed_new_chunks <- Js.prop parsed "new_chunks" ;;
       match Js.or_else parsed_existing_chunks (JsArray []),
             Js.or_else parsed_new_chunks (JsArray []) with
       | JsArray existingChunks, JsArray newChunks =>
           Ok {| existing_chunks := existingChunks; new_chunks := newChunks |}
       | _, _ =>
           Throw (newError
             "LLM response format invalid: existing_chunks and new_chunks must be arrays")
       end).

(** [callJsonPrompt]: no [catch] here, so a rejected request and a
    [SyntaxError] of [JSON.parse] reach the caller as they are.  What it
    returns is a reply read at the type [JsonPromptResult], an object: the
    text [null], which parses to [null] and of which the callers can read no
    property, has no such reading. *)
Definition callJsonPrompt (config : LLMConfig) (net : RequestOutcome)
  : Result JsonPromptResult :=
  if negb (Str.truthy (apiKey config))
  then Throw (newError "LLM API key not configured")
  else
    match net with
    | Rejects t => Throw t
    | Resolves response =>
        if negb (is2xx response)
        then Throw (newError
               (Str.or_else (text response)
                  ("HTTP " ++ Str.of_Z (status response))))
        else
          let content :=
            match json response with
            | Some {| choices := Some ({| choice_message := Some m |} :: _) |} =>
                message_content m
            | _ => None
            end in
          match content with
          | Some content =>
              if Str.truthy content
              then
                match parse_JsonPromptResult content with
                | inr result => Ok result
                | inl msg => Throw (ThrownError {| name := "SyntaxError"; message := msg |})
                end
              else Throw (newError "Empty response from LLM API")
          | None => Throw (newError "Empty response from LLM API")
          end
    end.

Context `{JsRuntime}.

(** The evaluation object of a reply: [result.evaluation] when it is a
    truthy value of type object, otherwise [null]. *)
Definition evaluationObject (result : JsonPromptResult) : option JsValue :=
  if Js.truthy (evaluation result)
     && Js.typeof_object (evaluation result)
     && negb (Js.is_null (evaluation result))
  then Some (evaluation result)
  else None.

(** "Parse and validate grade". *)
Definition parseGrade (evaluation : option JsValue) : JsNum.t :=
  let grade := JsNum.Fin 3 in
  match evaluation with
  | Some evaluation =>
      if negb (Js.is_undefined (Js.get evaluation "grade"))
         && negb (Js.is_null (Js.get evaluation "grade"))
      then
        let parsedGrade := Js.Number (Js.get evaluation "grade") in
        if negb (JsNum.isNaN parsedGrade)
        then JsNum.max (JsNum.Fin 0) (JsNum.min (JsNum.Fin 5) (JsNum.round parsedGrade))
        else grade
      else grade
  | None => grade
  end.

Definition generatePushResponse (config : LLMConfig) (net : RequestOutcome)
  : Result PushResponseResult :=
  result <- callJsonPrompt config net ;;
  if negb (Str.truthy_opt (response result))
  then Throw (newError "LLM response missing answer text")
  else
    let evaluation := evaluationObject result in
    let grade := parseGrade evaluation in
    Ok {| result_response :=
            Str.trim (match response result with Some s => s | None => "" end);
          shouldEnd := Js.truthy (should_end result);
          result_evaluation :=
            match evaluation with
            | Some evaluation =>
                Some {| grade := grade;
                        recommendation :=
                          Js.or_else (Js.get evaluation "recommendation") (JsString "");
                        confidence :=
                          if negb (Js.is_undefined (Js.get evaluation "confidence"))
                          then Some (Js.Number (Js.get evaluation "confidence"))
                          else None |}
            | None => None
            end |}.

End Methods.

End LLMService.

(** ** Chunks *)

Inductive ChunkType : Type := knowledge.

Inductive ImportanceLevel : Type := low | medium | high.

Definition ImportanceLevel_eqb (a b : ImportanceLevel) : bool :=
  match a, b with
  | low, low | medium, medium | high, high => true
  | _, _ => false
  end.

(** [interface Chunk]. [lastReviewedAt] is [number | null]; [chunkScore] is
    optional. *)
Record Chunk : Type := mkChunk {
  id : string;
  notePath : string;
  content : string;
  chunkType : ChunkType;
  importanceLevel : ImportanceLevel;
  needsReview : bool;
  sm2Ef : R;
  sm2Repetitions : R;
  sm2IntervalDays : R;
  familiarScore : R;
  dueAt : R;
  createdAt : R;
  lastReviewedAt : option R;
  chunkScore : option R
}.

(** Assignments to one field of a chunk object. *)
Definition set_content (v : string) (c : Chunk) : Chunk :=
  mkChunk (id c) (notePath c) v (chunkType c) (importanceLevel c)
    (needsReview c) (sm2Ef c) (sm2Repetitions c) (sm2IntervalDays c)
    (familiarScore c) (dueAt c) (createdAt c) (lastReviewedAt c) (chunkScore c).

Definition set_sm2Ef (v : R) (c : Chunk) : Chunk :=
  mkChunk (id c) (notePath c) (content c) (chunkType c) (importanceLevel c)
    (needsReview c) v (sm2Repetitions c) (sm2IntervalDays c)
    (familiarScore c) (dueAt c) (createdAt c) (lastReviewedAt c) (chunkScore c).

Definition set_sm2Repetitions (v : R) (c : Chunk) : Chunk :=
  mkChunk (id c) (notePath c) (content c) (chunkType c) (importanceLevel c)
    (needsReview c) (sm2Ef c) v (sm2IntervalDays c)
    (familiarScore c) (dueAt c) (createdAt c) (lastReviewedAt c) (chunkScore c).

Definition set_sm2IntervalDays (v : R) (c : Chunk) : Chunk :=
  mkChunk (id c) (notePath c) (content c) (chunkType c) (importanceLevel c)
    (needsReview c) (sm2Ef c) (sm2Repetitions c) v
    (familiarScore c) (dueAt c) (createdAt c) (lastReviewedAt c) (chunkScore c).

Definition set_familiarScore (v : R) (c : Chunk) : Chunk :=
  mkChunk (id c) (notePath c) (content c) (chunkType c) (importanceLevel c)
    (needsReview c) (sm2Ef c) (sm2Repetitions c) (sm2IntervalDays c)
    v (dueAt c) (createdAt c) (lastReviewedAt c) (chunkScore c).

Definition set_dueAt (v : R) (c : Chunk) : Chunk :=
  mkChunk (id c) (notePath c) (content c) (chunkType c) (importanceLevel c)
    (needsReview c) (sm2Ef c) (sm2Repetitions c) (sm2IntervalDays c)
    (familiarScore c) v (createdAt c) (lastReviewedAt c) (chunkScore c).

Definition set_chunkScore (v : option R) (c : Chunk) : Chunk :=
  mkChunk (id c) (notePath c) (content c) (chunkType c) (importanceLevel c)
    (needsReview c) (sm2Ef c) (sm2Repetitions c) (sm2IntervalDays c)
    (familiarScore c) (dueAt c) (createdAt c) (lastReviewedAt c) v.

(** [Partial<Chunk>]: [None] is a key that is not set. *)
Record PartialChunk : Type := mkPartial {
  p_id : option string;
  p_notePath : option string;
  p_content : option string;
  p_chunkType : option ChunkType;
  p_importanceLevel : option ImportanceLevel;
  p_needsReview : option bool;
  p_sm2Ef : option R;
  p_sm2Repetitions : option R;
  p_sm2IntervalDays : option R;
  p_familiarScore : option R;
  p_dueAt : option R;
  p_createdAt : option R;
  p_lastReviewedAt : option (option R);
  p_chunkScore : option R
}.

Definition noUpdates : PartialChunk :=
  mkPartial None None None None None None None None None None None None None None.

(** One key of [Object.assign(chunk, updates)]. *)
Definition assigned {A : Type} (update : option A) (current : A) : A :=
  match update with
  | Some v => v
  | None => current
  end.

(** [Object.assign(chunk, updates)]. *)
Definition Object_assign (chunk : Chunk) (updates : PartialChunk) : Chunk :=
  {| id := assigned (p_id updates) (id chunk);
     notePath := assigned (p_notePath updates) (notePath chunk);
     content := assigned (p_content updates) (content chunk);
     chunkType := assigned (p_chunkType updates) (chunkType chunk);
     importanceLevel := assigned (p_importanceLevel updates) (importanceLevel chunk);
     needsReview := assigned (p_needsReview updates) (needsReview chunk);
     sm2Ef := assigned (p_sm2Ef updates) (sm2Ef chunk);
     sm2Repetitions := assigned (p_sm2Repetitions updates) (sm2Repetitions chunk);
     sm2IntervalDays := assigned (p_sm2IntervalDays updates) (sm2IntervalDays chunk);
     familiarScore := assigned (p_familiarScore updates) (familiarScore chunk);
     dueAt := assigned (p_dueAt updates) (dueAt chunk);
     createdAt := assigned (p_createdAt updates) (createdAt chunk);
     lastReviewedAt := assigned (p_lastReviewedAt updates) (lastReviewedAt chunk);
     chunkScore :=
       match p_chunkScore updates with
       | Some v => Some v
       | None => chunkScore chunk
       end |}.

(** ** The chunk map: a [Map<string, Chunk>] in insertion order *)

Module ChunkMap.

Definition t : Type := list (string * Chunk).

Fixpoint get (k : string) (m : t) : option Chunk :=
  match m with
  | [] => None
  | (k', c) :: rest => if String.eqb k k' then Some c else get k rest
  end.

Definition has (k : string) (m : t) : bool :=
  match get k m with Some _ => true | None => false end.

(** [m.set(k, c)]: a key that is present keeps its place. *)
Fixpoint set (k : string) (c : Chunk) (m : t) : t :=
  match m with
  | [] => [(k, c)]
  | (k', c') :: rest =>
      if String.eqb k k' then (k', c) :: rest else (k', c') :: set k c rest
  end.

(** [m.delete(k)]. *)
Definition delete (k : string) (m : t) : t :=
  filter (fun e => negb (String.eqb k (fst e))) m.

(** The object stored under [k], if any, takes the state [c]: an assignment
    to fields of an object that the map may hold. *)
Fixpoint mutate (k : string) (c : Chunk) (m : t) : t :=
  match m with
  | [] => []
  | (k', c') :: rest =>
      if String.eqb k k' then (k', c) :: rest else (k', c') :: mutate k c rest
  end.

Definition keys (m : t) : list string := map fst m.
Definition values (m : t) : list Chunk := map snd m.

End ChunkMap.

(** The invariant of the data model on the content of chunks: no chunk of
    the map has a content that is empty after trimming. *)
Definition contentNonEmpty (m : ChunkMap.t) : Prop :=
  Forall (fun e => Str.trim (content (snd e)) <> "") m.

(** ** The collaborators of [ChunkManager] *)

(** [SM2Algorithm], whose module [./SM2Algorithm] is not among the source
    files: the one static method that the chunk manager calls is a
    parameter. *)
Class SM2Algorithm : Type := {
  getImportanceMultiplier : ImportanceLevel -> R
}.

(** The host: the [n]-th reading of [Date.now()], the [n]-th value of
    [Math.random().toString(36).substr(2, 9)], and how a template literal
    prints a number. *)
Class Host : Type := {
  Date_now : nat -> R;
  Math_random_suffix : nat -> string;
  NumberToString : R -> string
}.

(** Modelled from the spec: the push store that [PushManager] owns (the
    modules [./PushManager] and [./pushTypes] are not among the source
    files).  A push is bound to one chunk by [chunkId]; a message belongs to
    one push. *)
Module Push.

Inductive PushState : Type := pending | active | completed | expired.

Record StoredPush : Type := mkPush {
  id : string;
  chunkId : string;
  state : PushState;
  createdAt : R;
  expiresAt : R
}.

Inductive Sender : Type := system | user.

Record StoredPushMessage : Type := mkMessage {
  message_id : string;
  pushId : string;
  sender : Sender;
  content : string;
  timestamp : R
}.

Record Store : Type := mkStore {
  pushes : list StoredPush;
  messages : list StoredPushMessage
}.

(** The pushes of a store that are bound to the chunk [cid]. *)
Definition referencing (cid : string) (st : Store) : list StoredPush :=
  filter (fun p => String.eqb (chunkId p) cid) (pushes st).

(** The messages of a store that belong to one of the pushes [ps]. *)
Definition messagesOf (ps : list StoredPush) (st : Store) : list StoredPushMessage :=
  filter (fun m => existsb (fun p => String.eqb (id p) (pushId m)) ps) (messages st).

(** Modelled from the spec: [deletePushesForChunk(chunkId)] removes the
    pushes bound to the chunk, and their messages. *)
Definition deletePushesForChunk (cid : string) (st : Store) : Store :=
  let gone := referencing cid st in
  {| pushes := filter (fun p => negb (String.eqb (chunkId p) cid)) (pushes st);
     messages :=
       filter (fun m => negb (existsb (fun p => String.eqb (id p) (pushId m)) gone))
         (messages st) |}.

End Push.

(** [PushManager], as far as the chunk manager calls it: the method is a
    parameter, and [Push.deletePushesForChunk] is one instance of it. *)
Class PushManager : Type := {
  deletePushesForChunk : string -> Push.Store -> Push.Store
}.

(** ** [ChunkManager] *)

Module ChunkManager.

(** The state that the methods read and write: [this.chunks], the push
    manager of the plugin (absent until the plugin has created it), the
    number of times the chunks were handed to [persistChunks], the notices
    shown, and how often the clock and the random source were read. *)
Record State : Type := mkState {
  chunks : ChunkMap.t;
  pushManager : option Push.Store;
  saves : nat;
  notices : list string;
  clockReads : nat;
  randomDraws : nat
}.

Definition M (A : Type) : Type := State -> A * State.

Definition ret {A : Type} (a : A) : M A := fun s => (a, s).

Definition mbind {A B : Type} (m : M A) (k : A -> M B) : M B :=
  fun s => let (a, s') := m s in k a s'.

Declare Scope chunk_scope.
Delimit Scope chunk_scope with chunk.
Notation "x <-- m ; k" := (mbind m (fun x => k))
  (at level 61, m at next level, right associativity) : chunk_scope.
Notation "m ;; k" := (mbind m (fun _ => k))
  (at level 61, right associativity) : chunk_scope.
Local Open Scope chunk_scope.

Definition run {A : Type} (m : M A) (s : State) : State := snd (m s).

Definition getState : M State := fun s => (s, s).

Definition setChunks (f : ChunkMap.t -> ChunkMap.t) : M unit :=
  fun s => (tt, mkState (f (chunks s)) (pushManager s) (saves s) (notices s)
                  (clockReads s) (randomDraws s)).

Definition setPushManager (f : Push.Store -> Push.Store) : M unit :=
  fun s => (tt, mkState (chunks s) (option_map f (pushManager s)) (saves s)
                  (notices s) (clockReads s) (randomDraws s)).

(** [new Notice(msg)]. *)
Definition Notice (msg : string) : M unit :=
  fun s => (tt, mkState (chunks s) (pushManager s) (saves s) (notices s ++ [msg])
                  (clockReads s) (randomDraws s)).

(** The state [s] after the notices [msgs], and nothing else, were shown. *)
Definition withNotices (s : State) (msgs : list string) : State :=
  mkState (chunks s) (pushManager s) (saves s) (notices s ++ msgs)
    (clockReads s) (randomDraws s).

(** [saveChunks]: hands the map to the plugin's [persistChunks]. *)
Definition saveChunks : M unit :=
  fun s => (tt, mkState (chunks s) (pushManager s) (S (saves s)) (notices s)
                  (clockReads s) (randomDraws s)).

Fixpoint forEach {A : Type} (l : list A) (body : A -> M unit) : M unit :=
  match l with
  | [] => ret tt
  | a :: rest => body a ;; forEach rest body
  end.

Fixpoint foldM {A B : Type} (body : B -> A -> M B) (l : list A) (b : B) : M B :=
  match l with
  | [] => ret b
  | a :: rest => b' <-- body b a ; foldM body rest b'
  end.

(** A loop whose body may throw: the turns after one that throws do not
    run, and what the earlier turns did to the state stays done. *)
Fixpoint foldE {A B : Type} (body : B -> A -> M (Result B)) (l : list A) (b : B)
  : M (Result B) :=
  match l with
  | [] => ret (Ok b)
  | a :: rest =>
      r <-- body b a ;
      match r with
      | Ok b' => foldE body rest b'
      | Throw error => ret (Throw error)
      end
  end.

(** The [TypeError] of [value.trim()] on a value that has no method [trim]
    (V8 names the expression called). *)
Definition trimIsNotAFunction (expression : string) : Thrown :=
  Js.newTypeError (expression ++ ".trim is not a function").

(** Milliseconds in a day, [1000 * 60 * 60 * 24]. *)
Definition msPerDay : R := 1000 * 60 * 60 * 24.

(** *** [computeChunkScore]

    The three summands are named as the local constants of the source.
    [chunk.familiarScore ?? 0] is [chunk.familiarScore] on a number.  The
    conditional on [chunk.dueAt] is truthiness: a due time of [0] counts as
    no due time.  The method reads the clock itself; [computeChunkScore] is
    its value at a given reading. *)

Definition importance (chunk : Chunk) : R :=
  match importanceLevel chunk with
  | high => 2
  | medium => 1
  | low => 0
  end.

Definition familiarity (chunk : Chunk) : R := 1 - familiarScore chunk.

Definition dueBoost (chunk : Chunk) (now : R) : R :=
  if num_truthy (dueAt chunk)
  then 4 / (1 + exp (- (now - dueAt chunk) / msPerDay))
  else 0.

Definition computeChunkScore (chunk : Chunk) (now : R) : R :=
  importance chunk + familiarity chunk + dueBoost chunk now.

(** A chunk without a due time, as the source tests it ("If dueAt doesn't
    exist ..."): the field is falsy. *)
Definition dueAtAbsent (chunk : Chunk) : Prop := num_truthy (dueAt chunk) = false.

Section Methods.

Context `{SM2Algorithm} `{Host} `{PushManager} `{LLMService.JsonParser}.

(** [Date.now()]. *)
Definition now : M R :=
  fun s => (Date_now (clockReads s),
            mkState (chunks s) (pushManager s) (saves s) (notices s)
              (S (clockReads s)) (randomDraws s)).

Definition random : M string :=
  fun s => (Math_random_suffix (randomDraws s),
            mkState (chunks s) (pushManager s) (saves s) (notices s)
              (clockReads s) (S (randomDraws s))).

(** [this.computeChunkScore(chunk)]. *)
Definition this_computeChunkScore (chunk : Chunk) : M R :=
  t <-- now ; ret (computeChunkScore chunk t).

Definition createNewChunk (content notePath : string) : M Chunk :=
  t <-- now ;
  let importanceLevel := medium in
  let familiarScore := 0 in
  let initialIntervalDays := 1 in
  let importanceMultiplier := getImportanceMultiplier importanceLevel in
  let adjustedIntervalDays :=
    Math_max 1 (Math_round (initialIntervalDays * importanceMultiplier)) in
  let dueAt := t + adjustedIntervalDays * 24 * 60 * 60 * 1000 in
  r <-- random ;
  let chunk :=
    {| id := notePath ++ "-" ++ NumberToString t ++ "-" ++ r;
       notePath := notePath;
       content := Str.trim content;
       chunkType := knowledge;
       importanceLevel := importanceLevel;
       needsReview := true;
       sm2Ef := 2.5;
       sm2Repetitions := 0;
       sm2IntervalDays := adjustedIntervalDays;
       familiarScore := familiarScore;
       dueAt := dueAt;
       createdAt := t;
       lastReviewedAt := None;
       chunkScore := None |} in
  score <-- this_computeChunkScore chunk ;
  ret (set_chunkScore (Some score) chunk).

Definition addChunk (chunk : Chunk) : M unit :=
  setChunks (ChunkMap.set (id chunk) chunk).

Definition getChunk (k : string) : M (option Chunk) :=
  fun s => (ChunkMap.get k (chunks s), s).

Definition getAllChunks : M (list Chunk) :=
  fun s => (ChunkMap.values (chunks s), s).

(** The entries of the map whose chunk belongs to the note: the objects of
    [getChunksByNotePath], each with the key it is stored under. *)
Definition entriesByNotePath (path : string) (m : ChunkMap.t) : ChunkMap.t :=
  filter (fun e => String.eqb (notePath (snd e)) path) m.

Definition getChunksByNotePath (path : string) : M (list Chunk) :=
  fun s => (ChunkMap.values (entriesByNotePath path (chunks s)), s).

(** *** The merge of one [modify] decision

    The body of the [modify] branch of [extractChunksFromActiveNote]: the
    assignments to [existingChunk], in the order of the source.  [c] is the
    state of the object after each assignment. *)
Definition modifyChunk (existingChunk : Chunk) (modified_content : string)
  (update_level : option string) : M Chunk :=
  let c := set_content (Str.trim modified_content) existingChunk in
  let updateLevel := Str.opt_or_else update_level "moderate" in
  let familiarityRetention :=
    if String.eqb updateLevel "minor" then 0.9
    else if String.eqb updateLevel "moderate" then 0.7 else 0.4 in
  let c := set_familiarScore (Math_max 0 (familiarScore c * familiarityRetention)) c in
  let c :=
    if String.eqb updateLevel "minor"
    then set_sm2Ef (Math_max 1.3 (sm2Ef c - 0.1)) c
    else if String.eqb updateLevel "moderate"
    then
      let c := set_sm2Ef (Math_max 1.3 (sm2Ef c - 0.3)) c in
      set_sm2Repetitions (Math_max 0 (sm2Repetitions c - 1)) c
    else
      let c := set_sm2Ef (Math_max 1.3 (sm2Ef c * 0.7)) c in
      set_sm2Repetitions 0 c in
  let c :=
    if num_eqb (sm2Repetitions c) 0
    then
      let importanceMultiplier := getImportanceMultiplier (importanceLevel c) in
      let initialIntervalDays := 1 in
      set_sm2IntervalDays
        (Math_max 1 (Math_round (initialIntervalDays * importanceMultiplier))) c
    else
      set_sm2IntervalDays (Math_max 1 (Math_round (sm2IntervalDays c * 0.5))) c in
  t <-- now ;
  let c := set_dueAt (t + sm2IntervalDays c * 24 * 60 * 60 * 1000) c in
  score <-- this_computeChunkScore c ;
  ret (set_chunkScore (Some score) c).

(** The counters of one extraction. *)
Record Tally : Type := mkTally {
  created : nat;
  updated : nat;
  deleted : nat
}.

(** The state of the loop over the decisions: the array [existingChunks]
    (each object with the key it was stored under when the array was made,
    and in its current state) and the counters. *)
Record Merge : Type := mkMerge {
  existingChunks : ChunkMap.t;
  tally : Tally
}.

(** The array and the map share their objects: the keys of the array are
    distinct, and a chunk of the array whose key the map still holds is the
    chunk that the map holds under that key. *)
Definition coherent (existingChunks : ChunkMap.t) (m : ChunkMap.t) : Prop :=
  NoDup (ChunkMap.keys existingChunks)
  /\ forall k c, In (k, c) existingChunks -> ChunkMap.has k m = true ->
                 ChunkMap.get k m = Some c.

(** [existingChunks.find(c => c.id === decision.id)]. *)
Definition findExisting (decisionId : string) (existingChunks : ChunkMap.t)
  : option (string * Chunk) :=
  find (fun e => String.eqb (id (snd e)) decisionId) existingChunks.

(** One turn of the loop over [result.existing_chunks].  A modified object
    changes where it is: in the array and, as long as the map still holds
    it, in the map. *)
Definition processDecision (st : Merge) (decision : LLMService.IncrementalChunkDecision)
  : M Merge :=
  match findExisting (LLMService.id decision) (existingChunks st) with
  | None => ret st
  | Some (key, existingChunk) =>
      if String.eqb (LLMService.action decision) "delete"
      then
        setChunks (ChunkMap.delete (LLMService.id decision)) ;;
        ret (mkMerge (existingChunks st)
               (mkTally (created (tally st)) (updated (tally st))
                  (S (deleted (tally st)))))
      else if String.eqb (LLMService.action decision) "modify"
              && Str.truthy_opt (LLMService.modified_content decision)
      then
        c <-- modifyChunk existingChunk
                (match LLMService.modified_content decision with
                 | Some s => s
                 | None => ""
                 end)
                (LLMService.update_level decision) ;
        setChunks (ChunkMap.mutate key c) ;;
        ret (mkMerge (ChunkMap.mutate key c (existingChunks st))
               (mkTally (created (tally st)) (S (updated (tally st)))
                  (deleted (tally st))))
      else ret st
  end.

(** An element of [result.existing_chunks] whose [id] is the string
    [decisionId], read at the type [IncrementalChunkDecision] that the
    source casts it to.  A key that holds no string is read as a key without
    a value, with two exceptions.  An [action] that is no string equals
    neither ['delete'] nor ['modify'], as the empty string does.  An
    [update_level] that is truthy and no string equals neither ['minor'] nor
    ['moderate'], as ['major'] does. *)
Definition decisionOf (element : JsValue) (decisionId : string)
  : LLMService.IncrementalChunkDecision :=
  {| LLMService.id := decisionId;
     LLMService.action :=
       match Js.get element "action" with
       | JsString action => action
       | _ => ""
       end;
     LLMService.modified_content :=
       match Js.get element "modified_content" with
       | JsString modified_content => Some modified_content
       | _ => None
       end;
     LLMService.update_level :=
       match Js.get element "update_level" with
       | JsString update_level => Some update_level
       | other => if Js.truthy other then Some "major" else None
       end |}.

(** One turn of the loop over [result.existing_chunks], on the element as
    parsed.  [decision.id] is read when [find] calls its predicate, which it
    does when the array [existingChunks] is not empty, and reading it throws
    on [null].  No chunk has an id that is not a string.  In the [modify]
    branch, [decision.modified_content.trim()] throws on a truthy value that
    is not a string, before anything is assigned.  In every other case the
    turn is [processDecision] on the element read at its declared type. *)
Definition decisionTurn (st : Merge) (element : JsValue) : M (Result Merge) :=
  match existingChunks st with
  | [] => ret (Ok st)
  | _ :: _ =>
      match Js.prop element "id" with
      | Throw error => ret (Throw error)
      | Ok (JsString decisionId) =>
          let found :=
            match findExisting decisionId (existingChunks st) with
            | Some _ => true
            | None => false
            end in
          let modified_content := Js.get element "modified_content" in
          if found
             && Js.equals (Js.get element "action") "modify"
             && Js.truthy modified_content
             && negb (Js.is_string modified_content)
          then ret (Throw (trimIsNotAFunction "decision.modified_content"))
          else
            st' <-- processDecision st (decisionOf element decisionId) ;
            ret (Ok st')
      | Ok _ => ret (Ok st)
      end
  end.

(** One turn of the loop over the extracted contents ("Process new
    chunks"); the state of the loop is the counter [created]. *)
Definition processNewChunk (path : string) (created : nat)
  (llmChunk : LLMService.LLMChunk) : M nat :=
  if negb (Str.truthy (LLMService.content llmChunk))
     || negb (Str.truthy (Str.trim (LLMService.content llmChunk)))
  then ret created
  else
    newChunk <-- createNewChunk (LLMService.content llmChunk) path ;
    addChunk newChunk ;;
    ret (S created).

(** The same turn on the element as parsed.  [llmChunk.content] throws on
    [null]; a content that is falsy is skipped; [llmChunk.content.trim()]
    throws on a truthy value that is not a string. *)
Definition newChunkTurn (path : string) (created : nat) (element : JsValue)
  : M (Result nat) :=
  match Js.prop element "content" with
  | Throw error => ret (Throw error)
  | Ok (JsString content) =>
      created' <-- processNewChunk path created {| LLMService.content := content |} ;
      ret (Ok created')
  | Ok content =>
      if Js.truthy content
      then ret (Throw (trimIsNotAFunction "llmChunk.content"))
      else ret (Ok created)
  end.

(** [TFile], as far as it is read. *)
Record TFile : Type := mkFile {
  path : string;
  basename : string;
  name : string
}.

(** The settings that the extraction reads. *)
Record Settings : Type := mkSettings {
  llmApiKey : string;
  llmApiBase : string;
  llmModel : string;
  llmTimeout : R
}.

Definition llmConfig (settings : Settings) : LLMService.LLMConfig :=
  {| LLMService.apiKey := Str.or_else (llmApiKey settings) "";
     LLMService.apiBase :=
       Some (Str.or_else (llmApiBase settings) "https://api.openai.com/v1");
     LLMService.model := Some (Str.or_else (llmModel settings) "gpt-3.5-turbo");
     LLMService.timeout :=
       Some ((if num_truthy (llmTimeout settings) then llmTimeout settings else 60)
             * 1000) |}.

Definition count (n : nat) : string := Str.of_Z (Z.of_nat n).

(** The [catch] clause of [extractChunksFromActiveNote]. *)
Definition extractionFailed (error : Thrown) : M unit :=
  Notice ("LLM extraction failed: " ++ message_of error).

(** [extractChunksFromActiveNote(incremental)].  [activeFile] is what
    [getActiveFile()] returns, [settings] the settings of the plugin, and
    [net] what the request of the language-model service resolves to.  The
    loops over the reply run inside the [try] block: a [TypeError] of one of
    their turns ends the method in the [catch] clause, without a save, after
    the earlier turns have changed the map. *)
Definition extractChunksFromActiveNote (incremental : bool)
  (activeFile : option TFile) (settings : option Settings)
  (net : LLMService.RequestOutcome) : M unit :=
  match activeFile with
  | None => Notice "No active note"
  | Some activeFile =>
      match settings with
      | Some settings =>
          if negb (Str.truthy (llmApiKey settings))
          then Notice "LLM API key not configured. Please set it in settings."
          else
            Notice "Extracting chunks using LLM..." ;;
            s <-- getState ;
            let existingChunks :=
              if incremental then entriesByNotePath (path activeFile) (chunks s)
              else [] in
            match existingChunks with
            | [] =>
                match LLMService.extractChunks (llmConfig settings) net with
                | Throw error => extractionFailed error
                | Ok llmChunks =>
                    created <-- foldE (newChunkTurn (path activeFile)) llmChunks 0%nat ;
                    match created with
                    | Throw error => extractionFailed error
                    | Ok created =>
                        saveChunks ;;
                        if (0 <? created)%nat
                        then Notice ("Extracted " ++ count created ++ " chunks from "
                                     ++ name activeFile)
                        else Notice
                               "No chunks extracted. The note may be empty or too short."
                    end
                end
            | _ :: _ =>
                match LLMService.extractChunksIncremental (llmConfig settings) net with
                | Throw error => extractionFailed error
                | Ok result =>
                    st <-- foldE decisionTurn (LLMService.existing_chunks result)
                             (mkMerge existingChunks (mkTally 0 0 0)) ;
                    match st with
                    | Throw error => extractionFailed error
                    | Ok st =>
                        created <-- foldE (newChunkTurn (path activeFile))
                                      (LLMService.new_chunks result) 0%nat ;
                        match created with
                        | Throw error => extractionFailed error
                        | Ok created =>
                            saveChunks ;;
                            Notice ("Extracted: " ++ count created ++ " new, "
                                    ++ count (updated (tally st)) ++ " updated, "
                                    ++ count (deleted (tally st)) ++ " deleted")
                        end
                    end
                end
            end
      | None => Notice "LLM API key not configured. Please set it in settings."
      end
  end.

(** The call of the language-model service that an extraction for
    [activeFile] makes in the state [s] throws [error]: [extractChunks] when
    the note has no chunks yet (or the extraction is not incremental),
    [extractChunksIncremental] otherwise. *)
Definition llmCallThrows (incremental : bool) (activeFile : TFile)
  (settings : Settings) (net : LLMService.RequestOutcome) (s : State)
  (error : Thrown) : Prop :=
  match (if incremental then entriesByNotePath (path activeFile) (chunks s) else [])
  with
  | [] => LLMService.extractChunks (llmConfig settings) net = Throw error
  | _ :: _ => LLMService.extractChunksIncremental (llmConfig settings) net = Throw error
  end.

(** *** [updateChunk] *)

Definition changed {A : Type} (eqb : A -> A -> bool) (update : option A) (current : A)
  : bool :=
  match update with
  | Some v => negb (eqb v current)
  | None => false
  end.

Definition isSet {A : Type} (update : option A) : bool :=
  match update with Some _ => true | None => false end.

Definition updateChunk (chunkId : string) (updates : PartialChunk) : M unit :=
  chunk <-- getChunk chunkId ;
  match chunk with
  | None => ret tt
  | Some chunk =>
      let importanceChanged :=
        changed ImportanceLevel_eqb (p_importanceLevel updates) (importanceLevel chunk) in
      let familiarityChanged :=
        changed num_eqb (p_familiarScore updates) (familiarScore chunk) in
      let dueAtChanged := changed num_eqb (p_dueAt updates) (dueAt chunk) in
      let affectsScore := importanceChanged || familiarityChanged || dueAtChanged in
      let chunkScoreExplicitlySet := isSet (p_chunkScore updates) in
      let chunk := Object_assign chunk updates in
      setChunks (ChunkMap.mutate chunkId chunk) ;;
      (if affectsScore && negb chunkScoreExplicitlySet
       then
         score <-- this_computeChunkScore chunk ;
         setChunks (ChunkMap.mutate chunkId (set_chunkScore (Some score) chunk))
       else ret tt) ;;
      saveChunks
  end.

(** An update names a new value for one of the fields that the score is
    computed from. *)
Definition scoreInputChanged (updates : PartialChunk) (chunk : Chunk) : Prop :=
  (exists level, p_importanceLevel updates = Some level /\ level <> importanceLevel chunk)
  \/ (exists v, p_familiarScore updates = Some v /\ v <> familiarScore chunk)
  \/ (exists v, p_dueAt updates = Some v /\ v <> dueAt chunk).

(** *** [deleteChunk]

    The three statements of the method, in the order of the source; the
    method runs them one after the other. *)
Definition deleteChunk_steps (chunkId : string) : list (M unit) :=
  [ setChunks (ChunkMap.delete chunkId);
    saveChunks;
    setPushManager (deletePushesForChunk chunkId) ].

Definition deleteChunk (chunkId : string) : M unit :=
  forEach (deleteChunk_steps chunkId) (fun step => step).

(** The states that a sequence of statements goes through, from the state
    it starts in to the state it ends in. *)
Fixpoint trace (steps : list (M unit)) (s : State) : list State :=
  match steps with
  | [] => [s]
  | step :: rest => s :: trace rest (run step s)
  end.

(** No push of the push store is bound to the chunk. *)
Definition noPushReferences (chunkId : string) (s : State) : Prop :=
  match pushManager s with
  | Some store => Push.referencing chunkId store = []
  | None => True
  end.

(** The pushes of a chunk are deleted before the chunk is: in no state that
    [deleteChunk] goes through is the chunk gone from the map while a push
    is still bound to it. *)
Definition cascadesBeforeRemoval (chunkId : string) (s : State) : Prop :=
  Forall
    (fun st => ChunkMap.get chunkId (chunks st) = None -> noPushReferences chunkId st)
    (trace (deleteChunk_steps chunkId) s).

End Methods.

End ChunkManager.

(** ** Sample data

    Concrete collaborators and stores, at which the statements of Part II
    are instantiated. *)

Module Sample.

(** An importance multiplier that shortens the interval of important chunks. *)
Definition sm2 : SM2Algorithm :=
  {| getImportanceMultiplier :=
       fun level => match level with high => 0.8 | medium => 1 | low => 1.5 end |}.

(** A clock that advances by one millisecond at each reading. *)
Definition host : Host :=
  {| Date_now := fun n => 1700000000000 + INR n;
     Math_random_suffix := fun _ => "k3j9x0q2a";
     NumberToString := fun _ => "1700000000000" |}.

Definition pushManager : PushManager :=
  {| deletePushesForChunk := Push.deletePushesForChunk |}.

Definition chunkA : Chunk :=
  {| id := "a"; notePath := "note.md"; content := "Binary search halves the range.";
     chunkType := knowledge; importanceLevel := high; needsReview := true;
     sm2Ef := 2.5; sm2Repetitions := 3; sm2IntervalDays := 15;
     familiarScore := 0.5; dueAt := 1700000000000; createdAt := 1690000000000;
     lastReviewedAt := Some 1699000000000; chunkScore := Some 4.5 |}.

Definition pushA : Push.StoredPush :=
  {| Push.id := "p1"; Push.chunkId := "a"; Push.state := Push.pending;
     Push.createdAt := 1700000000000; Push.expiresAt := 1700086400000 |}.

Definition messageA : Push.StoredPushMessage :=
  {| Push.message_id := "m1"; Push.pushId := "p1"; Push.sender := Push.system;
     Push.content := "What does binary search do at each step?";
     Push.timestamp := 1700000001000 |}.

Definition state0 : ChunkManager.State :=
  {| ChunkManager.chunks := [("a", chunkA)];
     ChunkManager.pushManager :=
       Some {| Push.pushes := [pushA]; Push.messages := [messageA] |};
     ChunkManager.saves := 0;
     ChunkManager.notices := [];
     ChunkManager.clockReads := 0;
     ChunkManager.randomDraws := 0 |}.

(** The array [existingChunks] of an extraction for [note.md] in [state0]. *)
Definition merge0 : ChunkManager.Merge :=
  ChunkManager.mkMerge [("a", chunkA)] (ChunkManager.mkTally 0 0 0).

Definition decisionMajor : LLMService.IncrementalChunkDecision :=
  {| LLMService.id := "a"; LLMService.action := "modify";
     LLMService.modified_content := Some "Binary search needs a sorted array.";
     LLMService.update_level := Some "major" |}.

Definition decisionMinor : LLMService.IncrementalChunkDecision :=
  {| LLMService.id := "a"; LLMService.action := "modify";
     LLMService.modified_content := Some "Binary search halves the range each step.";
     LLMService.update_level := Some "minor" |}.

(** A [modify] decision whose new content is three spaces. *)
Definition decisionBlank : LLMService.IncrementalChunkDecision :=
  {| LLMService.id := "a"; LLMService.action := "modify";
     LLMService.modified_content := Some "   ";
     LLMService.update_level := Some "minor" |}.

Definition file : ChunkManager.TFile :=
  {| ChunkManager.path := "note.md"; ChunkManager.basename := "note";
     ChunkManager.name := "note.md" |}.

Definition settings : ChunkManager.Settings :=
  {| ChunkManager.llmApiKey := "sk-test"; ChunkManager.llmApiBase := "";
     ChunkManager.llmModel := ""; ChunkManager.llmTimeout := 60 |}.

(** A reply with status [200] whose first choice has the content [payload]. *)
Definition reply (payload : string) : LLMService.RequestOutcome :=
  LLMService.Resolves
    {| LLMService.status := 200;
       LLMService.json :=
         Some {| LLMService.error_message := None;
                 LLMService.top_message := None;
                 LLMService.choices :=
                   Some [ {| LLMService.choice_message :=
                               Some {| LLMService.message_content := Some payload |} |} ] |};
       LLMService.text := "" |}.

Definition blankPayload : string :=
  "{'existing_chunks':[{'id':'a','action':'modify','modified_content':'   ','update_level':'minor'}],'new_chunks':[]}".

(** The reply of a tutoring turn that ends the session with the grade 4.6. *)
Definition tutorPayload : string :=
  "{'response':'Well explained.','should_end':true,'evaluation':{'grade':4.6,'recommendation':'Review in a week.'}}".

Definition tutorEvaluation : JsValue :=
  JsObject [("grade", JsNumber (JsNum.Fin 4.6));
            ("recommendation", JsString "Review in a week.")].

Definition tutorResult : LLMService.JsonPromptResult :=
  {| LLMService.question := None;
     LLMService.response := Some "Well explained.";
     LLMService.should_end := JsBool true;
     LLMService.evaluation := tutorEvaluation |}.

(** A parser that knows the two sample payloads and rejects every other
    text. *)
Definition parser : LLMService.JsonParser :=
  {| LLMService.JSON_parse :=
       fun text =>
         if String.eqb text blankPayload
         then inr (JsObject
                     [("existing_chunks",
                       JsArray [LLMService.decisionObject decisionBlank]);
                      ("new_chunks", JsArray [])])
         else inl "Unexpected token";
     LLMService.parse_JsonPromptResult :=
       fun text =>
         if String.eqb text tutorPayload then inr tutorResult
         else inl "Unexpected token" |}.

(** A runtime in which no string denotes a number. *)
Definition runtime : JsRuntime :=
  {| StringToNumber := fun _ => JsNum.NaN;
     ToString := fun _ => "[object Object]" |}.

(** A reply with status [500]. *)
Definition serverError : LLMService.RequestOutcome :=
  LLMService.Resolves
    {| LLMService.status := 500; LLMService.json := None;
       LLMService.text := "Internal Server Error" |}.

End Sample.

(** * Part I, continued: the rest of the chunk manager, of the service and of
    the plugin *)

(** ** [LLMService.generatePushQuestion] *)

Module Tutor.

Import LLMService.

Section Methods.

Context `{JsonParser}.

(** [generatePushQuestion]: [result.question] has the type [string] when it
    is there, so that the test of its type adds nothing to the test of its
    truthiness. *)
Definition generatePushQuestion (config : LLMConfig) (net : RequestOutcome)
  : Result string :=
  result <- callJsonPrompt config net ;;
  if negb (Str.truthy_opt (question result))
  then Throw (newError "LLM did not return a valid question")
  else Ok (Str.trim (match question result with Some q => q | None => "" end)).

End Methods.

End Tutor.

(** ** Further methods of [ChunkManager] *)

Module ChunkStore.

Import ChunkManager.
Local Open Scope chunk_scope.

(** [x <= y] on numbers. *)
Definition num_leb (x y : R) : bool :=
  if Rle_dec x y then true else false.

Definition set_lastReviewedAt (v : option R) (c : Chunk) : Chunk :=
  mkChunk (id c) (notePath c) (content c) (chunkType c) (importanceLevel c)
    (needsReview c) (sm2Ef c) (sm2Repetitions c) (sm2IntervalDays c)
    (familiarScore c) (dueAt c) (createdAt c) v (chunkScore c).

(** A chunk as the data store holds it: data written by an older version may
    lack [needsReview], [chunkType] and [createdAt], which [loadChunks]
    repairs. *)
Record StoredChunk : Type := mkStored {
  st_id : string;
  st_notePath : string;
  st_content : string;
  st_chunkType : option string;
  st_importanceLevel : ImportanceLevel;
  st_needsReview : option bool;
  st_sm2Ef : R;
  st_sm2Repetitions : R;
  st_sm2IntervalDays : R;
  st_familiarScore : R;
  st_dueAt : R;
  st_createdAt : option R;
  st_lastReviewedAt : option R;
  st_chunkScore : option R
}.

(** A chunk of the map as an entry of the data store. *)
Definition stored (c : Chunk) : StoredChunk :=
  {| st_id := id c;
     st_notePath := notePath c;
     st_content := content c;
     st_chunkType := Some "knowledge";
     st_importanceLevel := importanceLevel c;
     st_needsReview := Some (needsReview c);
     st_sm2Ef := sm2Ef c;
     st_sm2Repetitions := sm2Repetitions c;
     st_sm2IntervalDays := sm2IntervalDays c;
     st_familiarScore := familiarScore c;
     st_dueAt := dueAt c;
     st_createdAt := Some (createdAt c);
     st_lastReviewedAt := lastReviewedAt c;
     st_chunkScore := chunkScore c |}.

(** The chunks of the data store of the plugin: [persistChunks] puts
    [Array.from(chunks.entries())] there, and [getStoredChunkEntries] reads
    it, with the empty array for a store that has none. *)
Definition persistChunks (m : ChunkMap.t) : option (list (string * StoredChunk)) :=
  Some (map (fun e => (fst e, stored (snd e))) m).

Definition getStoredChunkEntries (dataStore_chunks : option (list (string * StoredChunk)))
  : list (string * StoredChunk) :=
  match dataStore_chunks with
  | Some entries => entries
  | None => []
  end.

(** [SM2Algorithm.update] and [SM2Algorithm.calculateFamiliarScore], of the
    module [./SM2Algorithm] that is not among the source files: parameters. *)
Record SM2Params : Type := mkParams {
  ef : R;
  repetitions : R;
  intervalDays : R;
  params_importanceLevel : ImportanceLevel
}.

Record SM2Result : Type := mkResult {
  newEf : R;
  newRepetitions : R;
  newIntervalDays : R
}.

Class SM2Review : Type := {
  update : R -> SM2Params -> SM2Result;
  calculateFamiliarScore : R -> R -> R
}.

(** [this.app.vault.getAbstractFileByPath(path)], as far as it is tested:
    whether there is a file. *)
Class Vault : Type := {
  getAbstractFileByPath : string -> bool
}.

(** The pure part of [getDueChunks]: the chunks due at the time [t]. *)
Definition dueChunks (m : ChunkMap.t) (t : R) : list Chunk :=
  filter (fun chunk => num_leb (dueAt chunk) t && needsReview chunk)
    (ChunkMap.values m).

Section Cleanup.

Context `{Vault}.

(** The test of the first loop of [cleanupDeletedNotes]: the chunk names a
    note, and the vault has no file of that path. *)
Definition noteIsGone (chunk : Chunk) : bool :=
  Str.truthy (notePath chunk) && negb (getAbstractFileByPath (notePath chunk)).

(** The keys that the first loop collects, in the order of the map. *)
Definition chunksToDelete (m : ChunkMap.t) : list string :=
  ChunkMap.keys (filter (fun e => noteIsGone (snd e)) m).

End Cleanup.

Section Methods.

Context `{Host} `{PushManager} `{SM2Review} `{Vault}.

(** [chunk.lastReviewedAt || chunk.dueAt || Date.now()]: the clock is read
    only when the two fields are falsy. *)
Definition createdAtFallback (chunk : StoredChunk) : M R :=
  match st_lastReviewedAt chunk with
  | Some t =>
      if num_truthy t then ret t
      else if num_truthy (st_dueAt chunk) then ret (st_dueAt chunk) else now
  | None => if num_truthy (st_dueAt chunk) then ret (st_dueAt chunk) else now
  end.

(** One turn of the loop of [loadChunks]: the repairs, then
    [this.chunks.set(id, { ...chunk, chunkType: 'knowledge' })]. *)
Definition loadEntry (entry : string * StoredChunk) : M unit :=
  let (key, chunk) := entry in
  let repairedNeedsReview :=
    match st_needsReview chunk with
    | None => true
    | Some b => b
    end in
  repairedCreatedAt <--
    (match st_createdAt chunk with
     | Some t => if num_truthy t then ret t else createdAtFallback chunk
     | None => createdAtFallback chunk
     end) ;
  setChunks
    (ChunkMap.set key
       (mkChunk (st_id chunk) (st_notePath chunk) (st_content chunk) knowledge
          (st_importanceLevel chunk) repairedNeedsReview (st_sm2Ef chunk)
          (st_sm2Repetitions chunk) (st_sm2IntervalDays chunk)
          (st_familiarScore chunk) (st_dueAt chunk) repairedCreatedAt
          (st_lastReviewedAt chunk) (st_chunkScore chunk))).

(** [loadChunks], on the chunks of the data store. *)
Definition loadChunks (dataStore_chunks : option (list (string * StoredChunk)))
  : M unit :=
  forEach (getStoredChunkEntries dataStore_chunks) loadEntry.

(** [getDueChunks]. *)
Definition getDueChunks : M (list Chunk) :=
  t <-- now ;
  s <-- getState ;
  ret (dueChunks (chunks s) t).

(** [reviewChunk]: the clock is read for [lastReviewedAt], again for
    [dueAt], and a third time by [computeChunkScore]. *)
Definition reviewChunk (chunkId : string) (grade : R) : M (option Chunk) :=
  chunk <-- getChunk chunkId ;
  match chunk with
  | None => ret None
  | Some chunk =>
      let params :=
        {| ef := sm2Ef chunk;
           repetitions := sm2Repetitions chunk;
           intervalDays := sm2IntervalDays chunk;
           params_importanceLevel := importanceLevel chunk |} in
      let result := update grade params in
      let c := set_sm2Ef (newEf result) chunk in
      let c := set_sm2Repetitions (newRepetitions result) c in
      let c := set_sm2IntervalDays (newIntervalDays result) c in
      let c := set_familiarScore (calculateFamiliarScore (familiarScore c) grade) c in
      reviewed <-- now ;
      let c := set_lastReviewedAt (Some reviewed) c in
      t <-- now ;
      let c := set_dueAt (t + newIntervalDays result * 24 * 60 * 60 * 1000) c in
      score <-- this_computeChunkScore c ;
      let c := set_chunkScore (Some score) c in
      setChunks (ChunkMap.mutate chunkId c) ;;
      saveChunks ;;
      ret (Some c)
  end.

(** The statements of [cleanupDeletedNotes] after its first loop, for the
    keys that the loop has collected: nothing for no key; otherwise the
    pushes of each key are deleted, then each key is deleted from the map,
    then the chunks are saved. *)
Definition cleanup_steps (ids : list string) : list (M unit) :=
  match ids with
  | [] => []
  | _ :: _ =>
      map (fun chunkId => setPushManager (deletePushesForChunk chunkId)) ids
      ++ map (fun chunkId => setChunks (ChunkMap.delete chunkId)) ids
      ++ [saveChunks]
  end.

Definition cleanupDeletedNotes : M unit :=
  s <-- getState ;
  forEach (cleanup_steps (chunksToDelete (chunks s))) (fun step => step).

(** In no state that the statements of [cleanupDeletedNotes] go through is
    one of the chunks to delete gone from the map while a push is still
    bound to it. *)
Definition cleanupCascadesFirst (s : State) : Prop :=
  Forall
    (fun st =>
       forall chunkId, In chunkId (chunksToDelete (chunks s)) ->
         ChunkMap.get chunkId (chunks st) = None -> noPushReferences chunkId st)
    (trace (cleanup_steps (chunksToDelete (chunks s))) s).

End Methods.

End ChunkStore.

(** ** Chunks at run time

    [Object.assign(chunk, updates)] copies every key of [updates], also a
    key whose value is [undefined]: [Partial<Chunk>] admits such a key, and
    the property of the chunk is [undefined] afterwards, whatever the
    interface [Chunk] declares.  [ChunkObject.t] is a chunk as the object
    that it then is, and [ChunkObject.updateChunk] is [updateChunk] on a map
    of such objects.  On chunks that have all their properties and updates
    whose keys all have values it does what [ChunkManager.updateChunk] does
    ([ChunkObject.of_state]). *)

Module ChunkObject.

(** A chunk object: [None] is a property that is [undefined]. *)
Record t : Type := mk {
  o_id : option string;
  o_notePath : option string;
  o_content : option string;
  o_chunkType : option ChunkType;
  o_importanceLevel : option ImportanceLevel;
  o_needsReview : option bool;
  o_sm2Ef : option R;
  o_sm2Repetitions : option R;
  o_sm2IntervalDays : option R;
  o_familiarScore : option R;
  o_dueAt : option R;
  o_createdAt : option R;
  o_lastReviewedAt : option (option R);
  o_chunkScore : option R
}.

(** [Partial<Chunk>] at run time: [None] is a key that the object does not
    have, [Some None] a key that it has with the value [undefined]. *)
Record Updates : Type := mkUpdates {
  u_id : option (option string);
  u_notePath : option (option string);
  u_content : option (option string);
  u_chunkType : option (option ChunkType);
  u_importanceLevel : option (option ImportanceLevel);
  u_needsReview : option (option bool);
  u_sm2Ef : option (option R);
  u_sm2Repetitions : option (option R);
  u_sm2IntervalDays : option (option R);
  u_familiarScore : option (option R);
  u_dueAt : option (option R);
  u_createdAt : option (option R);
  u_lastReviewedAt : option (option (option R));
  u_chunkScore : option (option R)
}.

Definition noKeys : Updates :=
  mkUpdates None None None None None None None None None None None None None None.

(** [{ familiarScore: undefined }]. *)
Definition familiarScoreUndefined : Updates :=
  mkUpdates None None None None None None None None None (Some None) None None
    None None.

(** [updates.key]: [undefined] also when the object does not have the key. *)
Definition read {A : Type} (update : option (option A)) : option A :=
  match update with
  | Some v => v
  | None => None
  end.

(** One key of [Object.assign(chunk, updates)]. *)
Definition assigned {A : Type} (update : option (option A)) (current : option A)
  : option A :=
  match update with
  | Some v => v
  | None => current
  end.

(** [Object.assign(chunk, updates)]. *)
Definition Object_assign (chunk : t) (updates : Updates) : t :=
  {| o_id := assigned (u_id updates) (o_id chunk);
     o_notePath := assigned (u_notePath updates) (o_notePath chunk);
     o_content := assigned (u_content updates) (o_content chunk);
     o_chunkType := assigned (u_chunkType updates) (o_chunkType chunk);
     o_importanceLevel :=
       assigned (u_importanceLevel updates) (o_importanceLevel chunk);
     o_needsReview := assigned (u_needsReview updates) (o_needsReview chunk);
     o_sm2Ef := assigned (u_sm2Ef updates) (o_sm2Ef chunk);
     o_sm2Repetitions := assigned (u_sm2Repetitions updates) (o_sm2Repetitions chunk);
     o_sm2IntervalDays :=
       assigned (u_sm2IntervalDays updates) (o_sm2IntervalDays chunk);
     o_familiarScore := assigned (u_familiarScore updates) (o_familiarScore chunk);
     o_dueAt := assigned (u_dueAt updates) (o_dueAt chunk);
     o_createdAt := assigned (u_createdAt updates) (o_createdAt chunk);
     o_lastReviewedAt := assigned (u_lastReviewedAt updates) (o_lastReviewedAt chunk);
     o_chunkScore := assigned (u_chunkScore updates) (o_chunkScore chunk) |}.

Definition set_chunkScore (v : option R) (c : t) : t :=
  mk (o_id c) (o_notePath c) (o_content c) (o_chunkType c) (o_importanceLevel c)
    (o_needsReview c) (o_sm2Ef c) (o_sm2Repetitions c) (o_sm2IntervalDays c)
    (o_familiarScore c) (o_dueAt c) (o_createdAt c) (o_lastReviewedAt c) v.

(** [updates.key !== undefined && updates.key !== chunk.key]. *)
Definition changed {A : Type} (eqb : A -> A -> bool) (update : option (option A))
  (current : option A) : bool :=
  match read update with
  | None => false
  | Some v =>
      match current with
      | Some c => negb (eqb v c)
      | None => true
      end
  end.

(** [updates.key !== undefined]. *)
Definition isSet {A : Type} (update : option (option A)) : bool :=
  match read update with
  | Some _ => true
  | None => false
  end.

(** [computeChunkScore] on a chunk object: an importance level that is
    neither ['high'] nor ['medium'] weighs 0, [chunk.familiarScore ?? 0]
    reads a missing familiarity as 0, and a missing due time is falsy. *)
Definition importance (chunk : t) : R :=
  match o_importanceLevel chunk with
  | Some high => 2
  | Some medium => 1
  | _ => 0
  end.

Definition familiarity (chunk : t) : R :=
  1 - match o_familiarScore chunk with
      | Some familiarScore => familiarScore
      | None => 0
      end.

Definition dueBoost (chunk : t) (now : R) : R :=
  match o_dueAt chunk with
  | Some dueAt =>
      if num_truthy dueAt
      then 4 / (1 + exp (- (now - dueAt) / ChunkManager.msPerDay))
      else 0
  | None => 0
  end.

Definition computeChunkScore (chunk : t) (now : R) : R :=
  importance chunk + familiarity chunk + dueBoost chunk now.

(** The map of chunk objects, the number of times it was saved, and the
    number of readings of the clock. *)
Record Store : Type := mkStore {
  objects : list (string * t);
  saves : nat;
  clockReads : nat
}.

Fixpoint get (k : string) (m : list (string * t)) : option t :=
  match m with
  | [] => None
  | (k', c) :: rest => if String.eqb k k' then Some c else get k rest
  end.

(** The object stored under [k], if any, takes the state [c]. *)
Fixpoint mutate (k : string) (c : t) (m : list (string * t)) : list (string * t) :=
  match m with
  | [] => []
  | (k', c') :: rest =>
      if String.eqb k k' then (k', c) :: rest else (k', c') :: mutate k c rest
  end.

Section Methods.

Context `{Host}.

(** [updateChunk], statement for statement. *)
Definition updateChunk (chunkId : string) (updates : Updates) (s : Store) : Store :=
  match get chunkId (objects s) with
  | None => s
  | Some chunk =>
      let importanceChanged :=
        changed ImportanceLevel_eqb (u_importanceLevel updates)
          (o_importanceLevel chunk) in
      let familiarityChanged :=
        changed num_eqb (u_familiarScore updates) (o_familiarScore chunk) in
      let dueAtChanged := changed num_eqb (u_dueAt updates) (o_dueAt chunk) in
      let affectsScore := importanceChanged || familiarityChanged || dueAtChanged in
      let chunkScoreExplicitlySet := isSet (u_chunkScore updates) in
      let chunk := Object_assign chunk updates in
      if affectsScore && negb chunkScoreExplicitlySet
      then
        let score := computeChunkScore chunk (Date_now (clockReads s)) in
        {| objects := mutate chunkId (set_chunkScore (Some score) chunk) (objects s);
           saves := S (saves s);
           clockReads := S (clockReads s) |}
      else
        {| objects := mutate chunkId chunk (objects s);
           saves := S (saves s);
           clockReads := clockReads s |}
  end.

End Methods.

(** The object of a chunk that has all its properties, the update of a
    [PartialChunk], whose keys all have values, and the store of a state of
    the chunk manager. *)
Definition of_chunk (c : Chunk) : t :=
  {| o_id := Some (id c);
     o_notePath := Some (notePath c);
     o_content := Some (content c);
     o_chunkType := Some (chunkType c);
     o_importanceLevel := Some (importanceLevel c);
     o_needsReview := Some (needsReview c);
     o_sm2Ef := Some (sm2Ef c);
     o_sm2Repetitions := Some (sm2Repetitions c);
     o_sm2IntervalDays := Some (sm2IntervalDays c);
     o_familiarScore := Some (familiarScore c);
     o_dueAt := Some (dueAt c);
     o_createdAt := Some (createdAt c);
     o_lastReviewedAt := Some (lastReviewedAt c);
     o_chunkScore := chunkScore c |}.

Definition of_partial (updates : PartialChunk) : Updates :=
  {| u_id := option_map Some (p_id updates);
     u_notePath := option_map Some (p_notePath updates);
     u_content := option_map Some (p_content updates);
     u_chunkType := option_map Some (p_chunkType updates);
     u_importanceLevel := option_map Some (p_importanceLevel updates);
     u_needsReview := option_map Some (p_needsReview updates);
     u_sm2Ef := option_map Some (p_sm2Ef updates);
     u_sm2Repetitions := option_map Some (p_sm2Repetitions updates);
     u_sm2IntervalDays := option_map Some (p_sm2IntervalDays updates);
     u_familiarScore := option_map Some (p_familiarScore updates);
     u_dueAt := option_map Some (p_dueAt updates);
     u_createdAt := option_map Some (p_createdAt updates);
     u_lastReviewedAt := option_map Some (p_lastReviewedAt updates);
     u_chunkScore := option_map Some (p_chunkScore updates) |}.

Definition of_state (s : ChunkManager.State) : Store :=
  {| objects := map (fun e => (fst e, of_chunk (snd e))) (ChunkManager.chunks s);
     saves := ChunkManager.saves s;
     clockReads := ChunkManager.clockReads s |}.

(** No key of the update that bears on the score has the value
    [undefined]. *)
Definition scoreKeysDefined (updates : Updates) : Prop :=
  u_importanceLevel updates <> Some None
  /\ u_familiarScore updates <> Some None
  /\ u_dueAt updates <> Some None.

(** The test of [updateChunk] for computing the score anew. *)
Definition rescores (updates : Updates) (chunk : t) : bool :=
  (changed ImportanceLevel_eqb (u_importanceLevel updates) (o_importanceLevel chunk)
   || changed num_eqb (u_familiarScore updates) (o_familiarScore chunk)
   || changed num_eqb (u_dueAt updates) (o_dueAt chunk))
  && negb (isSet (u_chunkScore updates)).

End ChunkObject.

(** ** The plugin: settings and the data store ([main.ts]) *)

Module Plugin.

(** [interface MemoAISettings]. *)
Record MemoAISettings : Type := mkSettings {
  llmApiKey : string;
  llmApiBase : string;
  llmModel : string;
  llmTimeout : R;
  pushMaxActive : R;
  pushDueHours : R;
  pushScoreThreshold : R
}.

(** [Partial<MemoAISettings>]. *)
Record PartialSettings : Type := mkPartialSettings {
  p_llmApiKey : option string;
  p_llmApiBase : option string;
  p_llmModel : option string;
  p_llmTimeout : option R;
  p_pushMaxActive : option R;
  p_pushDueHours : option R;
  p_pushScoreThreshold : option R
}.

Definition DEFAULT_SETTINGS : MemoAISettings :=
  {| llmApiKey := "";
     llmApiBase := "https://api.openai.com/v1";
     llmModel := "gpt-3.5-turbo";
     llmTimeout := 60;
     pushMaxActive := 5;
     pushDueHours := 24;
     pushScoreThreshold := 2 |}.

Definition noSettings : PartialSettings :=
  mkPartialSettings None None None None None None None.

(** A settings object read as the partial settings that name every key. *)
Definition allSettings (s : MemoAISettings) : PartialSettings :=
  {| p_llmApiKey := Some (llmApiKey s);
     p_llmApiBase := Some (llmApiBase s);
     p_llmModel := Some (llmModel s);
     p_llmTimeout := Some (llmTimeout s);
     p_pushMaxActive := Some (pushMaxActive s);
     p_pushDueHours := Some (pushDueHours s);
     p_pushScoreThreshold := Some (pushScoreThreshold s) |}.

(** [Object.assign({}, DEFAULT_SETTINGS, legacySettings)]. *)
Definition assignSettings (defaults : MemoAISettings) (stored : PartialSettings)
  : MemoAISettings :=
  {| llmApiKey := assigned (p_llmApiKey stored) (llmApiKey defaults);
     llmApiBase := assigned (p_llmApiBase stored) (llmApiBase defaults);
     llmModel := assigned (p_llmModel stored) (llmModel defaults);
     llmTimeout := assigned (p_llmTimeout stored) (llmTimeout defaults);
     pushMaxActive := assigned (p_pushMaxActive stored) (pushMaxActive defaults);
     pushDueHours := assigned (p_pushDueHours stored) (pushDueHours defaults);
     pushScoreThreshold :=
       assigned (p_pushScoreThreshold stored) (pushScoreThreshold defaults) |}.

(** The object under the key [settings] of the data store.  [Object.assign]
    copies every key of its source: the object has the settings that it
    names and whatever other keys of [PluginData] its source had. *)
Record SettingsObject : Type := mkSettingsObject {
  named : PartialSettings;
  carried_chunks : option (list (string * ChunkStore.StoredChunk));
  carried_pushes : option (list Push.StoredPush);
  carried_pushMessages : option (list Push.StoredPushMessage)
}.

(** [interface PluginData]. *)
Record PluginData : Type := mkData {
  settings : option SettingsObject;
  chunks : option (list (string * ChunkStore.StoredChunk));
  pushes : option (list Push.StoredPush);
  pushMessages : option (list Push.StoredPushMessage)
}.

(** What [loadData()] resolves to, when it is not [null]: the data of the
    plugin and, in the layout of older versions, settings at the top level
    (which [loadSettings] reads when there is no [settings] key). *)
Record Stored : Type := mkStored {
  data : PluginData;
  legacy : PartialSettings
}.

Definition emptyStored : Stored :=
  {| data := mkData None None None None; legacy := noSettings |}.

(** The stored object itself, read as a source of [Object.assign]: its
    settings at the top level, and its other keys. *)
Definition asSettingsObject (dataStore : Stored) : SettingsObject :=
  {| named := legacy dataStore;
     carried_chunks := chunks (data dataStore);
     carried_pushes := pushes (data dataStore);
     carried_pushMessages := pushMessages (data dataStore) |}.

(** [loadSettings]: the settings of the plugin and its data store, which is
    also what is saved.  [this.settings] and [this.dataStore.settings] are
    one object: the first component is that object read at the type
    [MemoAISettings]. *)
Definition loadSettings (stored : option Stored) : MemoAISettings * Stored :=
  let dataStore := match stored with Some d => d | None => emptyStored end in
  let legacySettings :=
    match settings (data dataStore) with
    | Some s => s
    | None => asSettingsObject dataStore
    end in
  let loaded := assignSettings DEFAULT_SETTINGS (named legacySettings) in
  let this_settings :=
    {| named := allSettings loaded;
       carried_chunks := carried_chunks legacySettings;
       carried_pushes := carried_pushes legacySettings;
       carried_pushMessages := carried_pushMessages legacySettings |} in
  (loaded,
   {| data := mkData (Some this_settings) (chunks (data dataStore))
                (pushes (data dataStore)) (pushMessages (data dataStore));
      legacy := legacy dataStore |}).

(** The settings that an extraction reads. *)
Definition extractionSettings (s : MemoAISettings) : ChunkManager.Settings :=
  {| ChunkManager.llmApiKey := llmApiKey s;
     ChunkManager.llmApiBase := llmApiBase s;
     ChunkManager.llmModel := llmModel s;
     ChunkManager.llmTimeout := llmTimeout s |}.

End Plugin.


(** The keys of a map are the ids of its chunks, which is how [addChunk]
    stores a chunk. *)
Definition keyedById (m : ChunkMap.t) : Prop :=
  forall k c, In (k, c) m -> id c = k.

(** An extracted content that is not blank, which is what the loops over
    extracted contents test. *)
Definition notBlank (llmChunk : LLMService.LLMChunk) : bool :=
  Str.truthy (Str.trim (LLMService.content llmChunk)).

(** An element of an array of extracted contents that the loop makes a
    chunk of: its [content] is a string that is not blank. *)
Definition taken (element : JsValue) : bool :=
  match Js.get element "content" with
  | JsString content => Str.truthy (Str.trim content)
  | _ => false
  end.

(** An element of an array of extracted contents on which the loop throws:
    [null], or an element whose [content] is truthy and not a string. *)
Definition malformed (element : JsValue) : bool :=
  match element with
  | JsUndefined | JsNull => true
  | _ =>
      Js.truthy (Js.get element "content")
      && negb (Js.is_string (Js.get element "content"))
  end.

(** ** More sample data *)

Module Fixtures.

(** The sample chunk with the score that it has at its due time. *)
Definition chunkScored : Chunk :=
  set_chunkScore (Some (ChunkManager.computeChunkScore Sample.chunkA 1700000000000))
    Sample.chunkA.

Definition scored : ChunkManager.State :=
  {| ChunkManager.chunks := [("a", chunkScored)];
     ChunkManager.pushManager := None;
     ChunkManager.saves := 0;
     ChunkManager.notices := [];
     ChunkManager.clockReads := 0;
     ChunkManager.randomDraws := 0 |}.

(** The update that the push center sends to take a chunk out of review. *)
Definition toggleReview : PartialChunk :=
  mkPartial None None None None None (Some false) None None None None None None
    None None.

(** A scheduler that answers every grade with the same schedule. *)
Definition review : ChunkStore.SM2Review :=
  {| ChunkStore.update :=
       fun _ _ => {| ChunkStore.newEf := 2.6; ChunkStore.newRepetitions := 1;
                     ChunkStore.newIntervalDays := 1 |};
     ChunkStore.calculateFamiliarScore := fun previous _ => previous |}.

(** A vault that has the note of the sample chunk and no other file. *)
Definition vault : ChunkStore.Vault :=
  {| ChunkStore.getAbstractFileByPath := fun path => String.eqb path "note.md" |}.

(** A note that has no chunk in the sample store. *)
Definition otherFile : ChunkManager.TFile :=
  {| ChunkManager.path := "other.md"; ChunkManager.basename := "other";
     ChunkManager.name := "other.md" |}.

(** The reply of a first extraction: two contents, and a blank one between
    them. *)
Definition firstPayload : string :=
  "{'chunks':[{'content':'Heaps are complete trees.'},{'content':'  '},{'content':'A heap keeps its least key at the root.'}]}".

Definition firstChunks : list LLMService.LLMChunk :=
  [ {| LLMService.content := "Heaps are complete trees." |};
    {| LLMService.content := "  " |};
    {| LLMService.content := "A heap keeps its least key at the root." |} ].

Definition firstParser : LLMService.JsonParser :=
  {| LLMService.JSON_parse :=
       fun text =>
         if String.eqb text firstPayload
         then inr (JsObject
                     [("chunks", JsArray (map LLMService.chunkObject firstChunks))])
         else inl "Unexpected token";
     LLMService.parse_JsonPromptResult := fun _ => inl "Unexpected token" |}.

(** A second decision for the sample chunk, to delete it. *)
Definition decisionDelete : LLMService.IncrementalChunkDecision :=
  {| LLMService.id := "a"; LLMService.action := "delete";
     LLMService.modified_content := None;
     LLMService.update_level := None |}.

(** A reply that asks to delete the sample chunk and names a new chunk that
    is [null]. *)
Definition malformedPayload : string :=
  "{'existing_chunks':[{'id':'a','action':'delete'}],'new_chunks':[null]}".

Definition malformedParser : LLMService.JsonParser :=
  {| LLMService.JSON_parse :=
       fun text =>
         if String.eqb text malformedPayload
         then inr (JsObject
                     [("existing_chunks",
                       JsArray [LLMService.decisionObject decisionDelete]);
                      ("new_chunks", JsArray [JsNull])])
         else inl "Unexpected token";
     LLMService.parse_JsonPromptResult := fun _ => inl "Unexpected token" |}.

(** The sample store as a store of chunk objects. *)
Definition objectStore : ChunkObject.Store :=
  ChunkObject.of_state Sample.state0.

(** A decision with an update level that the service was not asked for. *)
Definition decisionRewrite : LLMService.IncrementalChunkDecision :=
  {| LLMService.id := "a"; LLMService.action := "modify";
     LLMService.modified_content := Some "Binary search needs a sorted array.";
     LLMService.update_level := Some "rewrite" |}.

(** A decision to leave the sample chunk as it is. *)
Definition decisionKeep : LLMService.IncrementalChunkDecision :=
  {| LLMService.id := "a"; LLMService.action := "keep";
     LLMService.modified_content := None;
     LLMService.update_level := None |}.

(** A decision without an update level. *)
Definition decisionNoLevel : LLMService.IncrementalChunkDecision :=
  {| LLMService.id := "a"; LLMService.action := "modify";
     LLMService.modified_content := Some "Binary search needs a sorted array.";
     LLMService.update_level := None |}.

(** A chunk of another note, and a store that holds it beside the sample
    chunk. *)
Definition chunkB : Chunk :=
  {| id := "b"; notePath := "other.md"; content := "Heaps are complete trees.";
     chunkType := knowledge; importanceLevel := medium; needsReview := true;
     sm2Ef := 2.5; sm2Repetitions := 0; sm2IntervalDays := 1;
     familiarScore := 0; dueAt := 1700086400000; createdAt := 1700000000000;
     lastReviewedAt := None; chunkScore := None |}.

Definition twoNotes : ChunkManager.State :=
  {| ChunkManager.chunks := [("a", Sample.chunkA); ("b", chunkB)];
     ChunkManager.pushManager :=
       Some {| Push.pushes := [Sample.pushA]; Push.messages := [Sample.messageA] |};
     ChunkManager.saves := 0;
     ChunkManager.notices := [];
     ChunkManager.clockReads := 0;
     ChunkManager.randomDraws := 0 |}.

(** A manager that has loaded nothing yet. *)
Definition empty : ChunkManager.State :=
  {| ChunkManager.chunks := [];
     ChunkManager.pushManager := None;
     ChunkManager.saves := 0;
     ChunkManager.notices := [];
     ChunkManager.clockReads := 0;
     ChunkManager.randomDraws := 0 |}.

(** A data store in the layout of older versions: the API key at the top
    level, no [settings] key, and one stored chunk. *)
Definition legacyStored : Plugin.Stored :=
  {| Plugin.data :=
       Plugin.mkData None (Some [("b", ChunkStore.stored chunkB)]) None None;
     Plugin.legacy :=
       Plugin.mkPartialSettings (Some "sk-test") None None None None None None |}.

End Fixtures.

(** * Part II: properties *)

(** ** Numbers *)

Lemma num_eqb_eq (x y : R) : num_eqb x y = true <-> x = y.
Proof. unfold num_eqb. destruct (Req_dec_T x y); split; congruence. Qed.

Lemma num_eqb_neq (x y : R) : num_eqb x y = false <-> x <> y.
Proof. unfold num_eqb. destruct (Req_dec_T x y); split; congruence. Qed.

Lemma num_truthy_true (x : R) : num_truthy x = true <-> x <> 0.
Proof. unfold num_truthy. rewrite negb_true_iff. apply num_eqb_neq. Qed.

Lemma num_truthy_false (x : R) : num_truthy x = false <-> x = 0.
Proof. unfold num_truthy. rewrite negb_false_iff. apply num_eqb_eq. Qed.

(** [Math.round x] is the integer [z] with [z - 1/2 <= x < z + 1/2]. *)
Lemma Math_round_unique (x : R) (z : Z) :
  IZR z - / 2 <= x < IZR z + / 2 -> Math_round x = IZR z.
Proof.
  intros [Hlo Hhi]. unfold Math_round. f_equal. symmetry.
  apply Int_part_spec. lra.
Qed.

Lemma Math_round_integer (x : R) : exists z : Z, Math_round x = IZR z.
Proof. now exists (Int_part (x + / 2)). Qed.

(** ** The score of a chunk *)

Section Score.

Import ChunkManager.

Lemma msPerDay_pos : 0 < msPerDay.
Proof. unfold msPerDay. lra. Qed.

(** With a due time, the boost is the logistic curve in [now - dueAt]. *)
Lemma dueBoost_present (chunk : Chunk) (now : R) :
  ~ dueAtAbsent chunk ->
  dueBoost chunk now = 4 / (1 + exp (- (now - dueAt chunk) / msPerDay)).
Proof.
  unfold dueAtAbsent, dueBoost. intros Hd.
  destruct (num_truthy (dueAt chunk)); congruence.
Qed.

Lemma dueBoost_absent (chunk : Chunk) (now : R) :
  dueAtAbsent chunk -> dueBoost chunk now = 0.
Proof. unfold dueAtAbsent, dueBoost. now intros ->. Qed.

Lemma logistic_at_0 : 4 / (1 + exp (- 0 / msPerDay)) = 2.
Proof.
  replace (- 0 / msPerDay) with 0 by (unfold Rdiv; lra).
  rewrite exp_0. lra.
Qed.

Lemma logistic_range (x : R) : 0 < 4 / (1 + exp (- x / msPerDay)) < 4.
Proof.
  pose proof (exp_pos (- x / msPerDay)) as He. split.
  - apply Rdiv_lt_0_compat; lra.
  - apply Rmult_lt_reg_r with (1 + exp (- x / msPerDay)); [lra|].
    unfold Rdiv at 1. rewrite Rmult_assoc, Rinv_l by lra. lra.
Qed.

(** Far enough after the due time the curve is within [eps] of 4. *)
Lemma logistic_upper_tail (eps : R) :
  0 < eps ->
  forall x, - msPerDay * ln (eps / 4) < x ->
  4 - 4 / (1 + exp (- x / msPerDay)) < eps.
Proof.
  intros Heps x Hx. pose proof msPerDay_pos as HD.
  assert (He : exp (- x / msPerDay) < eps / 4).
  { rewrite <- (exp_ln (eps / 4)) at 1 by lra.
    apply exp_increasing.
    apply Rmult_lt_reg_r with msPerDay; [lra|].
    unfold Rdiv. rewrite Rmult_assoc, Rinv_l by lra. lra. }
  pose proof (exp_pos (- x / msPerDay)) as Hp.
  set (e := exp (- x / msPerDay)) in *.
  replace (4 - 4 / (1 + e)) with (4 * e / (1 + e)) by (field; lra).
  apply Rmult_lt_reg_r with (1 + e); [lra|].
  unfold Rdiv. rewrite Rmult_assoc, Rinv_l by lra. nra.
Qed.

(** Far enough before the due time the curve is within [eps] of 0. *)
Lemma logistic_lower_tail (eps : R) :
  0 < eps ->
  forall x, x < msPerDay * ln (eps / 4) ->
  4 / (1 + exp (- x / msPerDay)) < eps.
Proof.
  intros Heps x Hx. pose proof msPerDay_pos as HD.
  assert (He : 4 / eps < exp (- x / msPerDay)).
  { replace (4 / eps) with (exp (- ln (eps / 4))).
    - apply exp_increasing.
      apply Rmult_lt_reg_r with msPerDay; [lra|].
      unfold Rdiv at 2. rewrite Rmult_assoc, Rinv_l by lra. lra.
    - rewrite exp_Ropp, exp_ln by lra. field. lra. }
  set (e := exp (- x / msPerDay)) in *.
  assert (H4 : 0 < 4 / eps) by (apply Rdiv_lt_0_compat; lra).
  apply Rmult_lt_reg_r with (1 + e); [lra|].
  unfold Rdiv at 1. rewrite Rmult_assoc, Rinv_l by lra.
  assert (4 < eps * e).
  { apply Rmult_lt_reg_r with (/ eps); [apply Rinv_0_lt_compat; lra|].
    replace (eps * e * / eps) with e by (field; lra). exact He. }
  nra.
Qed.

(** C1.  The score of a chunk at the time [now] is its importance weight
    (2 for high, 1 for medium, 0 for low) plus one minus its familiarity
    plus its due boost.  The due boost is 0 for a chunk without a due time
    (a falsy [dueAt], as the source tests it); for a chunk with a due time it
    is 2 when [now] is the due time, it tends to 4 as [now - dueAt] tends to
    plus infinity and to 0 as [now - dueAt] tends to minus infinity, both
    uniformly in the chunk. *)
Theorem computeChunkScore_spec :
  (forall chunk now,
      computeChunkScore chunk now
      = importance chunk + (1 - familiarScore chunk) + dueBoost chunk now
      /\ importance chunk
         = match importanceLevel chunk with high => 2 | medium => 1 | low => 0 end
      /\ (dueAtAbsent chunk -> dueBoost chunk now = 0)
      /\ (~ dueAtAbsent chunk -> now = dueAt chunk -> dueBoost chunk now = 2))
  /\ (forall eps, 0 < eps -> exists bound, forall chunk now,
        ~ dueAtAbsent chunk -> bound < now - dueAt chunk ->
        Rabs (dueBoost chunk now - 4) < eps)
  /\ (forall eps, 0 < eps -> exists bound, forall chunk now,
        ~ dueAtAbsent chunk -> now - dueAt chunk < bound ->
        Rabs (dueBoost chunk now - 0) < eps).
Proof.
  split; [|split].
  - intros chunk t. repeat split.
    + apply dueBoost_absent.
    + intros Hd ->. rewrite (dueBoost_present _ _ Hd).
      replace (dueAt chunk - dueAt chunk) with 0 by lra.
      apply logistic_at_0.
  - intros eps Heps. exists (- msPerDay * ln (eps / 4)).
    intros chunk t Hd Hfar. rewrite (dueBoost_present _ _ Hd).
    pose proof (logistic_range (t - dueAt chunk)) as [_ Hlt].
    rewrite Rabs_left by lra.
    pose proof (logistic_upper_tail eps Heps _ Hfar). lra.
  - intros eps Heps. exists (msPerDay * ln (eps / 4)).
    intros chunk t Hd Hfar. rewrite (dueBoost_present _ _ Hd).
    pose proof (logistic_range (t - dueAt chunk)) as [Hgt _].
    rewrite Rminus_0_r, Rabs_right by lra.
    apply (logistic_lower_tail eps Heps _ Hfar).
Qed.

(** The sample chunk has a due time, and at that time its boost is 2. *)
Lemma computeChunkScore_spec_witness :
  ~ dueAtAbsent Sample.chunkA /\ dueBoost Sample.chunkA 1700000000000 = 2.
Proof.
  assert (Hd : ~ dueAtAbsent Sample.chunkA).
  { unfold dueAtAbsent. intros Hf. apply num_truthy_false in Hf.
    simpl in Hf. lra. }
  split; [exact Hd|].
  apply (proj1 computeChunkScore_spec Sample.chunkA 1700000000000); [exact Hd|].
  reflexivity.
Defined.

End Score.

(** ** The chunk map *)

Section ChunkMapFacts.

Lemma get_mutate_same (k : string) (c : Chunk) (m : ChunkMap.t) :
  ChunkMap.has k m = true -> ChunkMap.get k (ChunkMap.mutate k c m) = Some c.
Proof.
  unfold ChunkMap.has. induction m as [|[k' c'] m IH]; simpl; [discriminate|].
  destruct (String.eqb k k') eqn:E; simpl; rewrite E; auto.
Qed.

Lemma get_mutate_other (k k' : string) (c : Chunk) (m : ChunkMap.t) :
  k' <> k -> ChunkMap.get k' (ChunkMap.mutate k c m) = ChunkMap.get k' m.
Proof.
  intros Hne. induction m as [|[k0 c0] m IH]; simpl; [reflexivity|].
  destruct (String.eqb k k0) eqn:E; simpl.
  - apply String.eqb_eq in E. subst k0.
    destruct (String.eqb k' k) eqn:E'; [|reflexivity].
    apply String.eqb_eq in E'. congruence.
  - now rewrite IH.
Qed.

Lemma mutate_absent (k : string) (c : Chunk) (m : ChunkMap.t) :
  ChunkMap.get k m = None -> ChunkMap.mutate k c m = m.
Proof.
  induction m as [|[k' c'] m IH]; simpl; [reflexivity|].
  destruct (String.eqb k k') eqn:E; [discriminate|].
  intros Hn. now rewrite IH.
Qed.

Lemma get_delete_same (k : string) (m : ChunkMap.t) :
  ChunkMap.get k (ChunkMap.delete k m) = None.
Proof.
  unfold ChunkMap.delete. induction m as [|[k' c'] m IH]; simpl; [reflexivity|].
  destruct (String.eqb k k') eqn:E; simpl; [exact IH|]. now rewrite E.
Qed.

Lemma delete_absent (k : string) (m : ChunkMap.t) :
  ChunkMap.get k m = None -> ChunkMap.delete k m = m.
Proof.
  unfold ChunkMap.delete. induction m as [|[k' c'] m IH]; simpl; [reflexivity|].
  destruct (String.eqb k k') eqn:E; simpl; [discriminate|].
  intros Hn. now rewrite IH.
Qed.

Lemma has_get (k : string) (c : Chunk) (m : ChunkMap.t) :
  ChunkMap.get k m = Some c -> ChunkMap.has k m = true.
Proof. unfold ChunkMap.has. now intros ->. Qed.

End ChunkMapFacts.

Lemma truthy_nonempty (s : string) : Str.truthy s = true <-> s <> "".
Proof. destruct s; simpl; split; congruence. Qed.

(** ** The merge of a [modify] decision *)

Section Merge.

Import ChunkManager.

Context `{SM2Algorithm} `{Host}.

(** The merge of one decision reads the clock twice and touches nothing else
    of the state. *)
Lemma modifyChunk_state (existingChunk : Chunk) (mc : string) (lvl : option string)
  (s : State) :
  snd (modifyChunk existingChunk mc lvl s)
  = mkState (chunks s) (pushManager s) (saves s) (notices s)
      (S (S (clockReads s))) (randomDraws s).
Proof. reflexivity. Qed.

Lemma modifyChunk_frame (existingChunk : Chunk) (mc : string) (lvl : option string)
  (s : State) :
  let c := fst (modifyChunk existingChunk mc lvl s) in
  id c = id existingChunk
  /\ notePath c = notePath existingChunk
  /\ createdAt c = createdAt existingChunk
  /\ lastReviewedAt c = lastReviewedAt existingChunk
  /\ importanceLevel c = importanceLevel existingChunk
  /\ needsReview c = needsReview existingChunk
  /\ chunkType c = chunkType existingChunk
  /\ content c = Str.trim mc.
Proof.
  unfold modifyChunk, mbind, now, this_computeChunkScore, ret. simpl.
  destruct (String.eqb _ "minor"); [|destruct (String.eqb _ "moderate")];
    match goal with |- context [num_eqb ?a ?b] => destruct (num_eqb a b) end;
    simpl; repeat split.
Qed.

Lemma modifyChunk_major (existingChunk : Chunk) (mc : string) (s : State) :
  let c := fst (modifyChunk existingChunk mc (Some "major") s) in
  sm2Repetitions c = 0
  /\ sm2Ef c = Math_max 1.3 (0.7 * sm2Ef existingChunk)
  /\ familiarScore c = Math_max 0 (0.4 * familiarScore existingChunk)
  /\ sm2IntervalDays c
     = Math_max 1
         (Math_round (1 * getImportanceMultiplier (importanceLevel existingChunk)))
  /\ dueAt c = Date_now (clockReads s) + sm2IntervalDays c * 24 * 60 * 60 * 1000.
Proof.
  unfold modifyChunk, mbind, now, this_computeChunkScore, ret. simpl.
  rewrite (proj2 (num_eqb_eq 0 0) eq_refl). simpl.
  rewrite (Rmult_comm 0.7), (Rmult_comm 0.4). repeat split.
Qed.

Lemma modifyChunk_minor (existingChunk : Chunk) (mc : string) (s : State) :
  let c := fst (modifyChunk existingChunk mc (Some "minor") s) in
  sm2Ef c = Math_max 1.3 (sm2Ef existingChunk - 0.1)
  /\ sm2Repetitions c = sm2Repetitions existingChunk.
Proof.
  unfold modifyChunk, mbind, now, this_computeChunkScore, ret. simpl.
  destruct (num_eqb _ _); simpl; repeat split.
Qed.

(** A [modify] decision with a truthy new content, for a chunk of the array:
    the object takes the merged state, in the array and in the map. *)
Lemma processDecision_modify (st : Merge)
  (decision : LLMService.IncrementalChunkDecision) (s : State)
  (key : string) (chunk : Chunk) (mc : string) :
  findExisting (LLMService.id decision) (existingChunks st) = Some (key, chunk) ->
  LLMService.action decision = "modify" ->
  LLMService.modified_content decision = Some mc ->
  mc <> "" ->
  let c := fst (modifyChunk chunk mc (LLMService.update_level decision) s) in
  processDecision st decision s
  = (mkMerge (ChunkMap.mutate key c (existingChunks st))
       (mkTally (created (tally st)) (S (updated (tally st))) (deleted (tally st))),
     mkState (ChunkMap.mutate key c (chunks s)) (pushManager s) (saves s)
       (notices s) (S (S (clockReads s))) (randomDraws s)).
Proof.
  intros Hfind Hact Hmc Hne.
  unfold processDecision. rewrite Hfind, Hact, Hmc. simpl.
  apply truthy_nonempty in Hne. rewrite Hne.
  unfold mbind.
  rewrite (surjective_pairing (modifyChunk chunk mc (LLMService.update_level decision) s)).
  rewrite modifyChunk_state. reflexivity.
Qed.

(** The chunk that the map holds under [key] after such a decision. *)
Lemma processDecision_modify_get (st : Merge)
  (decision : LLMService.IncrementalChunkDecision) (s : State)
  (key : string) (chunk : Chunk) (mc : string) :
  findExisting (LLMService.id decision) (existingChunks st) = Some (key, chunk) ->
  ChunkMap.get key (chunks s) = Some chunk ->
  LLMService.action decision = "modify" ->
  LLMService.modified_content decision = Some mc ->
  mc <> "" ->
  ChunkMap.get key (chunks (run (processDecision st decision) s))
  = Some (fst (modifyChunk chunk mc (LLMService.update_level decision) s)).
Proof.
  intros Hfind Hget Hact Hmc Hne.
  unfold run. rewrite (processDecision_modify _ _ _ _ _ _ Hfind Hact Hmc Hne).
  simpl. apply get_mutate_same. exact (has_get _ _ _ Hget).
Qed.

(** C2.  A [modify] decision with update level [major], applied to a chunk of
    the note, leaves the chunk with no repetitions, with the ease factor
    [max(1.3, 0.7 * ef)], the familiarity [max(0, 0.4 * familiarScore)], the
    initial interval [max(1, round(1 * importanceMultiplier(importanceLevel)))]
    and a due time of that many days after the reading of the clock.  (A
    decision is applied when its new content is a non-empty string.) *)
Theorem major_modify_resets_schedule (st : Merge)
  (decision : LLMService.IncrementalChunkDecision) (s : State)
  (key : string) (chunk : Chunk) (mc : string) :
  findExisting (LLMService.id decision) (existingChunks st) = Some (key, chunk) ->
  ChunkMap.get key (chunks s) = Some chunk ->
  LLMService.action decision = "modify" ->
  LLMService.modified_content decision = Some mc ->
  mc <> "" ->
  LLMService.update_level decision = Some "major" ->
  exists chunk',
    ChunkMap.get key (chunks (run (processDecision st decision) s)) = Some chunk'
    /\ sm2Repetitions chunk' = 0
    /\ sm2Ef chunk' = Math_max 1.3 (0.7 * sm2Ef chunk)
    /\ familiarScore chunk' = Math_max 0 (0.4 * familiarScore chunk)
    /\ sm2IntervalDays chunk'
       = Math_max 1 (Math_round (1 * getImportanceMultiplier (importanceLevel chunk)))
    /\ dueAt chunk'
       = Date_now (clockReads s) + sm2IntervalDays chunk' * 24 * 60 * 60 * 1000.
Proof.
  intros Hfind Hget Hact Hmc Hne Hlvl.
  eexists. split.
  - apply (processDecision_modify_get _ _ _ _ _ _ Hfind Hget Hact Hmc Hne).
  - rewrite Hlvl. apply modifyChunk_major.
Qed.

(** C7.  A [modify] decision with update level [minor] lowers the ease
    factor by at most 0.1, not below 1.3, and leaves the repetitions as they
    were. *)
Theorem minor_modify_keeps_progress (st : Merge)
  (decision : LLMService.IncrementalChunkDecision) (s : State)
  (key : string) (chunk : Chunk) (mc : string) :
  findExisting (LLMService.id decision) (existingChunks st) = Some (key, chunk) ->
  ChunkMap.get key (chunks s) = Some chunk ->
  LLMService.action decision = "modify" ->
  LLMService.modified_content decision = Some mc ->
  mc <> "" ->
  LLMService.update_level decision = Some "minor" ->
  exists chunk',
    ChunkMap.get key (chunks (run (processDecision st decision) s)) = Some chunk'
    /\ sm2Ef chunk - sm2Ef chunk' <= 0.1
    /\ 1.3 <= sm2Ef chunk'
    /\ sm2Repetitions chunk' = sm2Repetitions chunk.
Proof.
  intros Hfind Hget Hact Hmc Hne Hlvl.
  eexists. split.
  - apply (processDecision_modify_get _ _ _ _ _ _ Hfind Hget Hact Hmc Hne).
  - rewrite Hlvl.
    destruct (modifyChunk_minor chunk mc s) as [Hef Hrep].
    rewrite Hef, Hrep. unfold Math_max.
    pose proof (Rmax_l 1.3 (sm2Ef chunk - 0.1)).
    pose proof (Rmax_r 1.3 (sm2Ef chunk - 0.1)).
    repeat split; lra.
Qed.

(** C9.  A [modify] decision leaves the id, the note path, the creation
    time, the time of the last review, the importance level, the review flag
    and the type of the chunk as they were (what it may change is the
    content, the familiarity, the three SM2 fields, the due time and the
    score), and it leaves every other chunk of the map as it was. *)
Theorem modify_frame (st : Merge)
  (decision : LLMService.IncrementalChunkDecision) (s : State)
  (key : string) (chunk : Chunk) (mc : string) :
  findExisting (LLMService.id decision) (existingChunks st) = Some (key, chunk) ->
  ChunkMap.get key (chunks s) = Some chunk ->
  LLMService.action decision = "modify" ->
  LLMService.modified_content decision = Some mc ->
  mc <> "" ->
  (exists chunk',
      ChunkMap.get key (chunks (run (processDecision st decision) s)) = Some chunk'
      /\ id chunk' = id chunk
      /\ notePath chunk' = notePath chunk
      /\ createdAt chunk' = createdAt chunk
      /\ lastReviewedAt chunk' = lastReviewedAt chunk
      /\ importanceLevel chunk' = importanceLevel chunk
      /\ needsReview chunk' = needsReview chunk
      /\ chunkType chunk' = chunkType chunk)
  /\ (forall other, other <> key ->
        ChunkMap.get other (chunks (run (processDecision st decision) s))
        = ChunkMap.get other (chunks s)).
Proof.
  intros Hfind Hget Hact Hmc Hne. split.
  - eexists. split.
    + apply (processDecision_modify_get _ _ _ _ _ _ Hfind Hget Hact Hmc Hne).
    + pose proof (modifyChunk_frame chunk mc (LLMService.update_level decision) s) as Hf.
      simpl in Hf. tauto.
  - intros other Hother. unfold run.
    rewrite (processDecision_modify _ _ _ _ _ _ Hfind Hact Hmc Hne). simpl.
    now apply get_mutate_other.
Qed.

End Merge.

(** The sample chunk, merged with a [major] decision. *)
Lemma major_modify_resets_schedule_witness :
  exists chunk',
    ChunkMap.get "a"
      (ChunkManager.chunks
         (ChunkManager.run
            (@ChunkManager.processDecision Sample.sm2 Sample.host Sample.merge0
               Sample.decisionMajor) Sample.state0)) = Some chunk'
    /\ sm2Repetitions chunk' = 0.
Proof.
  destruct (@major_modify_resets_schedule Sample.sm2 Sample.host Sample.merge0
              Sample.decisionMajor Sample.state0 "a" Sample.chunkA
              "Binary search needs a sorted array."
              eq_refl eq_refl eq_refl eq_refl ltac:(discriminate) eq_refl)
    as (c & Hget & Hrep & _).
  exists c. split; assumption.
Defined.

(** The sample chunk, merged with a [minor] decision. *)
Lemma minor_modify_keeps_progress_witness :
  exists chunk',
    ChunkMap.get "a"
      (ChunkManager.chunks
         (ChunkManager.run
            (@ChunkManager.processDecision Sample.sm2 Sample.host Sample.merge0
               Sample.decisionMinor) Sample.state0)) = Some chunk'
    /\ sm2Repetitions chunk' = 3.
Proof.
  destruct (@minor_modify_keeps_progress Sample.sm2 Sample.host Sample.merge0
              Sample.decisionMinor Sample.state0 "a" Sample.chunkA
              "Binary search halves the range each step."
              eq_refl eq_refl eq_refl eq_refl ltac:(discriminate) eq_refl)
    as (c & Hget & _ & _ & Hrep).
  exists c. split; assumption.
Defined.

(** The sample chunk keeps the time of its last review through a merge. *)
Lemma modify_frame_witness :
  exists chunk',
    ChunkMap.get "a"
      (ChunkManager.chunks
         (ChunkManager.run
            (@ChunkManager.processDecision Sample.sm2 Sample.host Sample.merge0
               Sample.decisionMajor) Sample.state0)) = Some chunk'
    /\ lastReviewedAt chunk' = Some 1699000000000.
Proof.
  destruct (@modify_frame Sample.sm2 Sample.host Sample.merge0
              Sample.decisionMajor Sample.state0 "a" Sample.chunkA
              "Binary search needs a sorted array."
              eq_refl eq_refl eq_refl eq_refl ltac:(discriminate))
    as [(c & Hget & _ & _ & _ & Hlast & _) _].
  exists c. split; assumption.
Defined.

(** ** The loop over the decisions

    The loop keeps the array and the map coherent, so that what the
    statements on one decision assume of the chunk that the decision finds
    holds at every turn of the loop. *)

Section Coherence.

Import ChunkManager.

Context `{SM2Algorithm} `{Host}.

Lemma keys_mutate (k : string) (c : Chunk) (m : ChunkMap.t) :
  ChunkMap.keys (ChunkMap.mutate k c m) = ChunkMap.keys m.
Proof.
  unfold ChunkMap.keys. induction m as [|[k' c'] m IH]; simpl; [reflexivity|].
  destruct (String.eqb k k'); simpl; [reflexivity|]. now rewrite IH.
Qed.

Lemma get_In (k : string) (c : Chunk) (m : ChunkMap.t) :
  NoDup (ChunkMap.keys m) -> In (k, c) m -> ChunkMap.get k m = Some c.
Proof.
  unfold ChunkMap.keys. induction m as [|[k' c'] m IH]; simpl; [tauto|].
  intros Hnd Hin. inversion Hnd as [|? ? Hnotin Hnd']; subst.
  destruct Hin as [[= -> ->]|Hin].
  - now rewrite String.eqb_refl.
  - destruct (String.eqb k k') eqn:E; [|now apply IH].
    apply String.eqb_eq in E. subst k'. exfalso. apply Hnotin.
    change k with (fst (k, c)). now apply in_map.
Qed.

Lemma In_mutate (k k0 : string) (c c0 : Chunk) (m : ChunkMap.t) :
  NoDup (ChunkMap.keys m) ->
  In (k, c) (ChunkMap.mutate k0 c0 m) ->
  (k = k0 /\ c = c0) \/ (k <> k0 /\ In (k, c) m).
Proof.
  unfold ChunkMap.keys. induction m as [|[k' c'] m IH]; simpl; [tauto|].
  intros Hnd. inversion Hnd as [|? ? Hnotin Hnd']; subst.
  destruct (String.eqb k0 k') eqn:E; simpl.
  - apply String.eqb_eq in E. subst k'. intros [[= -> ->]|Hin]; [now left|].
    right. split; [|now right]. intros ->. apply Hnotin.
    change k0 with (fst (k0, c)). now apply in_map.
  - apply String.eqb_neq in E. intros [[= -> ->]|Hin].
    + right. split; [congruence|now left].
    + destruct (IH Hnd' Hin) as [?|[? ?]]; [now left|]. right. split; [assumption|now right].
Qed.

Lemma get_delete_other (k k' : string) (m : ChunkMap.t) :
  k' <> k -> ChunkMap.get k' (ChunkMap.delete k m) = ChunkMap.get k' m.
Proof.
  intros Hne. unfold ChunkMap.delete.
  induction m as [|[k0 c0] m IH]; simpl; [reflexivity|].
  destruct (String.eqb k k0) eqn:E; simpl.
  - apply String.eqb_eq in E. subst k0.
    destruct (String.eqb k' k) eqn:E'; [|exact IH].
    apply String.eqb_eq in E'. congruence.
  - now rewrite IH.
Qed.

Lemma has_mutate (k k0 : string) (c0 : Chunk) (m : ChunkMap.t) :
  ChunkMap.has k (ChunkMap.mutate k0 c0 m) = ChunkMap.has k m.
Proof.
  unfold ChunkMap.has. induction m as [|[k' c'] m IH]; simpl; [reflexivity|].
  destruct (String.eqb k0 k') eqn:E; simpl.
  - now destruct (String.eqb k k').
  - destruct (String.eqb k k'); [reflexivity|exact IH].
Qed.

Lemma NoDup_keys_filter (p : string * Chunk -> bool) (m : ChunkMap.t) :
  NoDup (ChunkMap.keys m) -> NoDup (ChunkMap.keys (filter p m)).
Proof.
  unfold ChunkMap.keys. induction m as [|e m IH]; simpl; [constructor|].
  intros Hnd. inversion Hnd as [|? ? Hnotin Hnd']; subst.
  destruct (p e); simpl; [|now apply IH].
  constructor; [|now apply IH].
  intros Hin. apply Hnotin. apply in_map_iff in Hin. destruct Hin as (x & Hx & Hin).
  apply filter_In in Hin. apply in_map_iff. exists x. tauto.
Qed.

Lemma coherent_start (path : string) (m : ChunkMap.t) :
  NoDup (ChunkMap.keys m) -> coherent (entriesByNotePath path m) m.
Proof.
  intros Hnd. split.
  - now apply NoDup_keys_filter.
  - intros k c Hin _. apply get_In; [exact Hnd|].
    unfold entriesByNotePath in Hin. now apply filter_In in Hin.
Qed.

Lemma processDecision_coherent (st : Merge)
  (decision : LLMService.IncrementalChunkDecision) (s : State) :
  coherent (existingChunks st) (chunks s) ->
  coherent (existingChunks (fst (processDecision st decision s)))
    (chunks (snd (processDecision st decision s))).
Proof.
  intros [Hnd Hco]. unfold processDecision.
  destruct (findExisting _ _) as [[key chunk]|] eqn:Hfind; [|now split].
  destruct (String.eqb (LLMService.action decision) "delete").
  - simpl. split; [exact Hnd|]. intros k c Hin Hhas.
    unfold ChunkMap.has in Hhas.
    destruct (String.eqb k (LLMService.id decision)) eqn:E.
    + apply String.eqb_eq in E. subst k. rewrite get_delete_same in Hhas. discriminate.
    + apply String.eqb_neq in E. rewrite get_delete_other in * by exact E.
      now apply Hco.
  - destruct (_ && _); [|now split].
    unfold mbind.
    match goal with
    | |- context [modifyChunk ?a ?b ?c ?d] =>
        rewrite (surjective_pairing (modifyChunk a b c d));
        rewrite modifyChunk_state; cbn [fst snd existingChunks chunks];
        set (c' := fst (modifyChunk a b c d))
    end.
    unfold setChunks, ret. cbn [fst snd existingChunks chunks].
    split; [now rewrite keys_mutate|].
    intros k c Hin Hhas. rewrite has_mutate in Hhas.
    destruct (In_mutate _ _ _ _ _ Hnd Hin) as [[-> ->]|[Hne Hin']].
    + now apply get_mutate_same.
    + rewrite get_mutate_other by exact Hne. now apply Hco.
Qed.

Lemma merge_coherent (decisions : list LLMService.IncrementalChunkDecision)
  (st : Merge) (s : State) :
  coherent (existingChunks st) (chunks s) ->
  coherent (existingChunks (fst (foldM processDecision decisions st s)))
    (chunks (snd (foldM processDecision decisions st s))).
Proof.
  revert st s. induction decisions as [|d rest IH]; intros st s Hco; [exact Hco|].
  simpl. unfold mbind.
  rewrite (surjective_pairing (processDecision st d s)).
  apply IH. now apply processDecision_coherent.
Qed.

(** In a coherent loop state, the chunk that a decision finds in the array
    is, as long as the map holds its key, the chunk that the map holds. *)
Lemma coherent_found (st : Merge) (s : State) (decisionId key : string) (chunk : Chunk) :
  coherent (existingChunks st) (chunks s) ->
  findExisting decisionId (existingChunks st) = Some (key, chunk) ->
  ChunkMap.has key (chunks s) = true ->
  ChunkMap.get key (chunks s) = Some chunk.
Proof.
  intros [_ Hco] Hfind Hhas. apply Hco; [|exact Hhas].
  unfold findExisting in Hfind. now apply find_some in Hfind.
Qed.

End Coherence.

(** ** Trimming *)

Section Trim.

Import Str.

Lemma trimStartL_trimmed (l : list ascii) : trimmedStart (trimStartL l).
Proof.
  induction l as [|a l IH]; simpl; [exact I|].
  destruct (isWhiteSpace a) eqn:E; [exact IH|exact E].
Qed.

Lemma trimStartL_fixed (l : list ascii) : trimmedStart l -> trimStartL l = l.
Proof. destruct l as [|a l]; simpl; [reflexivity|]. now intros ->. Qed.

Lemma trimStartL_snoc (l : list ascii) (a : ascii) :
  isWhiteSpace a = false -> exists z, trimStartL (l ++ [a]) = (z ++ [a])%list.
Proof.
  intros Ha. induction l as [|b l IH]; simpl.
  - rewrite Ha. now exists [].
  - destruct (isWhiteSpace b); [exact IH|]. now exists (b :: l).
Qed.

Lemma trimEndL_trimmedStart (l : list ascii) :
  trimmedStart l -> trimmedStart (trimEndL l).
Proof.
  destruct l as [|a l]; [intros _; exact I|]. simpl. intros Ha.
  unfold trimEndL. simpl rev.
  destruct (trimStartL_snoc (rev l) a Ha) as [z ->].
  rewrite rev_app_distr. simpl. exact Ha.
Qed.

Lemma trimEndL_fixed (l : list ascii) : trimmedStart (rev l) -> trimEndL l = l.
Proof.
  intros Hl. unfold trimEndL. rewrite (trimStartL_fixed _ Hl). apply rev_involutive.
Qed.

Lemma trimEndL_trimmed (l : list ascii) : trimmedStart (rev (trimEndL l)).
Proof. unfold trimEndL. rewrite rev_involutive. apply trimStartL_trimmed. Qed.

(** Trimming a trimmed string changes nothing. *)
Lemma trim_idempotent (s : string) : trim (trim s) = trim s.
Proof.
  unfold trim. rewrite list_ascii_of_string_of_list_ascii.
  set (l := trimEndL (trimStartL (list_ascii_of_string s))).
  assert (Hs : trimmedStart l)
    by (apply trimEndL_trimmedStart, trimStartL_trimmed).
  assert (He : trimmedStart (rev l)) by apply trimEndL_trimmed.
  now rewrite (trimStartL_fixed _ Hs), (trimEndL_fixed _ He).
Qed.

End Trim.

(** ** The content of chunks *)

Lemma contentNonEmpty_get (m : ChunkMap.t) (k : string) (c : Chunk) :
  contentNonEmpty m -> ChunkMap.get k m = Some c -> Str.trim (content c) <> "".
Proof.
  unfold contentNonEmpty. induction m as [|[k' c'] m IH]; simpl; [discriminate|].
  intros Hall Hget. inversion Hall as [|? ? Hhd Htl]; subst.
  destruct (String.eqb k k').
  - injection Hget as <-. exact Hhd.
  - now apply IH.
Qed.

Section Creation.

Import ChunkManager.

Context `{SM2Algorithm} `{Host}.

Lemma contentNonEmpty_set (k : string) (c : Chunk) (m : ChunkMap.t) :
  Str.trim (content c) <> "" -> contentNonEmpty m -> contentNonEmpty (ChunkMap.set k c m).
Proof.
  intros Hc. unfold contentNonEmpty.
  induction m as [|[k' c'] m IH]; simpl; intros Hall.
  - constructor; [exact Hc|constructor].
  - inversion Hall as [|? ? Hhd Htl]; subst.
    destruct (String.eqb k k'); constructor; auto.
Qed.

Lemma createNewChunk_content (text path : string) (s : State) :
  content (fst (createNewChunk text path s)) = Str.trim text.
Proof. reflexivity. Qed.

Lemma createNewChunk_chunks (text path : string) (s : State) :
  chunks (snd (createNewChunk text path s)) = chunks s.
Proof. reflexivity. Qed.

(** Adding the extracted contents keeps the content of every chunk of the
    map non-empty after trimming: blank contents are skipped. *)
Lemma processNewChunk_contentNonEmpty (path : string) (n : nat)
  (llmChunk : LLMService.LLMChunk) (s : State) :
  contentNonEmpty (chunks s) ->
  contentNonEmpty (chunks (run (processNewChunk path n llmChunk) s)).
Proof.
  intros Hinv. unfold run, processNewChunk.
  destruct (negb (Str.truthy (LLMService.content llmChunk))); cbn [orb];
    [exact Hinv|].
  destruct (Str.truthy (Str.trim (LLMService.content llmChunk))) eqn:Ht; cbn [negb];
    [|exact Hinv].
  unfold mbind.
  rewrite (surjective_pairing (createNewChunk (LLMService.content llmChunk) path s)).
  unfold addChunk, setChunks. cbn [snd chunks].
  rewrite createNewChunk_chunks.
  apply contentNonEmpty_set; [|exact Hinv].
  rewrite createNewChunk_content, trim_idempotent. now apply truthy_nonempty.
Qed.

Lemma newChunks_contentNonEmpty (path : string) (llmChunks : list LLMService.LLMChunk)
  (n : nat) (s : State) :
  contentNonEmpty (chunks s) ->
  contentNonEmpty (chunks (run (foldM (processNewChunk path) llmChunks n) s)).
Proof.
  revert n s. induction llmChunks as [|c rest IH]; intros n s Hinv; [exact Hinv|].
  unfold run. simpl. unfold mbind.
  destruct (processNewChunk path n c s) as [n' s'] eqn:E.
  apply IH. change s' with (snd (n', s')). rewrite <- E.
  now apply processNewChunk_contentNonEmpty.
Qed.

End Creation.

(** ** The elements of a reply *)

Section Elements.

Import ChunkManager.

Context `{SM2Algorithm} `{Host}.

(** Reading the value of a decision of the declared type gives the decision
    back. *)
Lemma decisionOf_decisionObject (d : LLMService.IncrementalChunkDecision) :
  decisionOf (LLMService.decisionObject d) (LLMService.id d) = d.
Proof.
  destruct d as [i a [mc|] [lvl|]]; reflexivity.
Qed.

(** On the value of a decision of the declared type, the turn of the loop
    is [processDecision], and does not throw. *)
Lemma decisionTurn_decisionObject (st : Merge)
  (d : LLMService.IncrementalChunkDecision) (s : State) :
  decisionTurn st (LLMService.decisionObject d) s
  = (Ok (fst (processDecision st d s)), snd (processDecision st d s)).
Proof.
  assert (Hthrow : forall b,
    b && Js.truthy (Js.get (LLMService.decisionObject d) "modified_content")
    && negb (Js.is_string (Js.get (LLMService.decisionObject d) "modified_content"))
    = false).
  { intros b. destruct d as [i a [mc|] [lvl|]]; destruct b; simpl;
      try reflexivity; now rewrite andb_false_r. }
  unfold decisionTurn.
  destruct (existingChunks st) as [|e rest] eqn:He.
  - unfold processDecision, findExisting. rewrite He. reflexivity.
  - rewrite <- He.
    change (Js.prop (LLMService.decisionObject d) "id")
      with (@Ok JsValue (JsString (LLMService.id d))).
    cbv beta iota zeta. rewrite Hthrow, decisionOf_decisionObject.
    unfold mbind. now destruct (processDecision st d s).
Qed.

Lemma newChunkTurn_chunkObject (path : string) (n : nat)
  (c : LLMService.LLMChunk) (s : State) :
  newChunkTurn path n (LLMService.chunkObject c) s
  = (Ok (fst (processNewChunk path n c s)), snd (processNewChunk path n c s)).
Proof.
  unfold newChunkTurn. simpl. unfold mbind. destruct c as [text].
  now destruct (processNewChunk path n _ s).
Qed.

(** A loop over the values of decisions, or of chunks, of the declared
    types is the loop over the decisions, or the chunks, and does not
    throw. *)
Lemma decisionTurns_decisionObjects (ds : list LLMService.IncrementalChunkDecision)
  (st : Merge) (s : State) :
  foldE decisionTurn (map LLMService.decisionObject ds) st s
  = (Ok (fst (foldM processDecision ds st s)), snd (foldM processDecision ds st s)).
Proof.
  revert st s. induction ds as [|d rest IH]; intros st s; [reflexivity|].
  simpl. unfold mbind. rewrite decisionTurn_decisionObject.
  destruct (processDecision st d s) as [st' s']. simpl. apply IH.
Qed.

Lemma newChunkTurns_chunkObjects (path : string) (cs : list LLMService.LLMChunk)
  (n : nat) (s : State) :
  foldE (newChunkTurn path) (map LLMService.chunkObject cs) n s
  = (Ok (fst (foldM (processNewChunk path) cs n s)),
     snd (foldM (processNewChunk path) cs n s)).
Proof.
  revert n s. induction cs as [|c rest IH]; intros n s; [reflexivity|].
  simpl. unfold mbind. rewrite newChunkTurn_chunkObject.
  destruct (processNewChunk path n c s) as [n' s']. simpl. apply IH.
Qed.

End Elements.

(** C4, at an input where the code departs from it.  The note [note.md] has
    one chunk, whose content is not blank.  The service answers the
    incremental extraction with one decision, to modify that chunk, whose
    new content is three spaces.  After the extraction the content of the
    chunk is the empty string: the map no longer satisfies the invariant. *)
Theorem blank_modify_empties_content :
  let after :=
    ChunkManager.chunks
      (ChunkManager.run
         (@ChunkManager.extractChunksFromActiveNote Sample.sm2 Sample.host
            Sample.parser true (Some Sample.file) (Some Sample.settings)
            (Sample.reply Sample.blankPayload)) Sample.state0) in
  contentNonEmpty (ChunkManager.chunks Sample.state0)
  /\ option_map content (ChunkMap.get "a" after) = Some ""
  /\ ~ contentNonEmpty after.
Proof.
  assert (Hafter :
    option_map content
      (ChunkMap.get "a"
         (ChunkManager.chunks
            (ChunkManager.run
               (@ChunkManager.extractChunksFromActiveNote Sample.sm2 Sample.host
                  Sample.parser true (Some Sample.file) (Some Sample.settings)
                  (Sample.reply Sample.blankPayload)) Sample.state0))) = Some "").
  { unfold ChunkManager.run, ChunkManager.extractChunksFromActiveNote.
    cbn -[ChunkManager.decisionTurn LLMService.decisionObject Rplus Rmult].
    unfold ChunkManager.mbind at 1 2.
    rewrite (@decisionTurn_decisionObject Sample.sm2 Sample.host).
    match goal with
    | |- context [ChunkManager.processDecision ?st ?d ?s] =>
        rewrite (@processDecision_modify Sample.sm2 Sample.host st d s "a"
                   Sample.chunkA "   " eq_refl eq_refl eq_refl ltac:(discriminate))
    end.
    cbn -[ChunkManager.modifyChunk].
    match goal with
    | |- context [ChunkManager.modifyChunk ?c ?mc ?lvl ?s] =>
        destruct (@modifyChunk_frame Sample.sm2 Sample.host c mc lvl s)
          as (_ & _ & _ & _ & _ & _ & _ & Hc)
    end.
    cbv zeta in Hc. rewrite Hc. reflexivity. }
  cbv zeta. split; [|split].
  - repeat constructor. discriminate.
  - exact Hafter.
  - intros Hinv.
    destruct (ChunkMap.get "a" _) as [c|] eqn:Hget; [|discriminate].
    apply (contentNonEmpty_get _ _ _ Hinv Hget).
    simpl in Hafter. injection Hafter as ->. reflexivity.
Qed.

(** ** Failures of an extraction *)

Section Extraction.

Import ChunkManager.

Context `{SM2Algorithm} `{Host} `{LLMService.JsonParser}.

(** When the service itself fails, the state after
    [extractChunksFromActiveNote] is the state before it with notices
    added: the map of chunks, the push store and the count of saves are as
    they were.  Without settings or without an API key the one notice says
    that the key is not configured.  With a key, when the call of the
    service throws, the notices are the one announcing the extraction and
    one that carries the message of the error. *)
Lemma service_failure_leaves_store (incremental : bool) (activeFile : TFile)
  (net : LLMService.RequestOutcome) (s : State) :
  run (extractChunksFromActiveNote incremental (Some activeFile) None net) s
  = withNotices s ["LLM API key not configured. Please set it in settings."]
  /\ (forall settings,
        Str.truthy (llmApiKey settings) = false ->
        run (extractChunksFromActiveNote incremental (Some activeFile) (Some settings) net) s
        = withNotices s ["LLM API key not configured. Please set it in settings."])
  /\ (forall settings error,
        Str.truthy (llmApiKey settings) = true ->
        llmCallThrows incremental activeFile settings net s error ->
        run (extractChunksFromActiveNote incremental (Some activeFile) (Some settings) net) s
        = withNotices s ["Extracting chunks using LLM...";
                         "LLM extraction failed: " ++ message_of error]).
Proof.
  split; [reflexivity|split].
  - intros settings Hkey. unfold run, extractChunksFromActiveNote.
    rewrite Hkey. reflexivity.
  - intros settings error Hkey Hthrow.
    unfold run, extractChunksFromActiveNote, llmCallThrows in *.
    rewrite Hkey. simpl. unfold mbind, Notice, getState. simpl.
    destruct (if incremental then entriesByNotePath (path activeFile) (chunks s) else [])
      as [|e rest]; rewrite Hthrow; unfold extractionFailed, Notice, withNotices; simpl;
      now rewrite <- app_assoc.
Qed.

Lemma get_Some_In (k : string) (c : Chunk) (m : ChunkMap.t) :
  ChunkMap.get k m = Some c -> In (k, c) m.
Proof.
  induction m as [|[k' c'] m IH]; simpl; [discriminate|].
  destruct (String.eqb k k') eqn:E.
  - intros [= ->]. apply String.eqb_eq in E. subst. now left.
  - intros Hget. right. now apply IH.
Qed.

(** A chunk of the note whose id is [k] is found by the loop. *)
Lemma findExisting_of_note (notePath0 k : string) (chunk : Chunk) (key : string)
  (m : ChunkMap.t) :
  In (key, chunk) m -> id chunk = k -> notePath chunk = notePath0 ->
  exists e rest found,
    entriesByNotePath notePath0 m = e :: rest
    /\ findExisting k (entriesByNotePath notePath0 m) = Some found.
Proof.
  intros Hin Hid Hpath.
  assert (Hin' : In (key, chunk) (entriesByNotePath notePath0 m)).
  { apply filter_In. split; [exact Hin|]. simpl. now apply String.eqb_eq. }
  destruct (entriesByNotePath notePath0 m) as [|e rest] eqn:He; [destruct Hin'|].
  exists e, rest. unfold findExisting.
  destruct (find _ (e :: rest)) as [found|] eqn:Hf.
  - now exists found.
  - exfalso. pose proof (find_none _ _ Hf _ Hin') as Hn. simpl in Hn.
    rewrite Hid, String.eqb_refl in Hn. discriminate.
Qed.

(** C3, where the code departs from it.  The service answers an incremental
    extraction for a note with a reply that parses and whose two fields are
    arrays: one decision, to delete a chunk of the note, and one new chunk,
    which is [null].  The method deletes the chunk from the map, then
    throws in the loop over the new chunks, shows the notice of a failed
    extraction and returns without saving: the extraction has failed, and
    the store is not as it was before the call. *)
Theorem malformed_reply_fails_after_merge (activeFile : TFile) (settings : Settings)
  (net : LLMService.RequestOutcome) (s : State) (k : string) (chunk : Chunk) :
  Str.truthy (llmApiKey settings) = true ->
  ChunkMap.get k (chunks s) = Some chunk ->
  id chunk = k ->
  notePath chunk = path activeFile ->
  LLMService.extractChunksIncremental (llmConfig settings) net
  = Ok {| LLMService.existing_chunks :=
            [LLMService.decisionObject
               {| LLMService.id := k; LLMService.action := "delete";
                  LLMService.modified_content := None;
                  LLMService.update_level := None |}];
          LLMService.new_chunks := [JsNull] |} ->
  let s' := run (extractChunksFromActiveNote true (Some activeFile) (Some settings) net) s in
  chunks s' = ChunkMap.delete k (chunks s)
  /\ ChunkMap.get k (chunks s') = None
  /\ saves s' = saves s
  /\ notices s'
     = (notices s
        ++ ["Extracting chunks using LLM...";
            "LLM extraction failed: Cannot read properties of null (reading 'content')"])%list.
Proof.
  intros Hkey Hget Hid Hpath Hreply.
  destruct (findExisting_of_note (path activeFile) k chunk k (chunks s)
              (get_Some_In _ _ _ Hget) Hid Hpath) as (e & rest & found & He & Hfind).
  assert (Hrun :
    run (extractChunksFromActiveNote true (Some activeFile) (Some settings) net) s
    = mkState (ChunkMap.delete k (chunks s)) (pushManager s) (saves s)
        (notices s
         ++ ["Extracting chunks using LLM...";
             "LLM extraction failed: Cannot read properties of null (reading 'content')"])%list
        (clockReads s) (randomDraws s)).
  { unfold run, extractChunksFromActiveNote. rewrite Hkey. cbn [negb].
    unfold mbind at 1 2. unfold Notice at 1, getState. cbn [fst snd chunks].
    rewrite He, Hreply. rewrite <- He.
    cbn [LLMService.existing_chunks LLMService.new_chunks foldE].
    unfold mbind at 1 2. rewrite decisionTurn_decisionObject.
    unfold processDecision. cbn [LLMService.id existingChunks]. rewrite Hfind.
    destruct found as [key existingChunk].
    cbn [LLMService.action String.eqb Ascii.eqb Bool.eqb].
    unfold mbind, setChunks, ret, newChunkTurn, extractionFailed, Notice.
    cbn. now rewrite <- app_assoc. }
  cbv zeta. rewrite Hrun. cbn [chunks saves notices].
  repeat split. apply get_delete_same.
Qed.

End Extraction.

(** The sample store and a reply that deletes the sample chunk and names a
    new chunk that is [null]. *)
Lemma malformed_reply_fails_after_merge_witness :
  ChunkMap.get "a" (ChunkManager.chunks Sample.state0) = Some Sample.chunkA
  /\ ChunkMap.get "a"
       (ChunkManager.chunks
          (ChunkManager.run
             (@ChunkManager.extractChunksFromActiveNote Sample.sm2 Sample.host
                Fixtures.malformedParser true (Some Sample.file) (Some Sample.settings)
                (Sample.reply Fixtures.malformedPayload)) Sample.state0)) = None
  /\ ChunkManager.notices
       (ChunkManager.run
          (@ChunkManager.extractChunksFromActiveNote Sample.sm2 Sample.host
             Fixtures.malformedParser true (Some Sample.file) (Some Sample.settings)
             (Sample.reply Fixtures.malformedPayload)) Sample.state0)
     = ["Extracting chunks using LLM...";
        "LLM extraction failed: Cannot read properties of null (reading 'content')"].
Proof.
  destruct (@malformed_reply_fails_after_merge Sample.sm2 Sample.host
              Fixtures.malformedParser Sample.file Sample.settings
              (Sample.reply Fixtures.malformedPayload) Sample.state0 "a" Sample.chunkA
              eq_refl eq_refl eq_refl eq_refl eq_refl)
    as (_ & Hgone & _ & Hnotices).
  split; [reflexivity|]. split; [exact Hgone|exact Hnotices].
Defined.

Lemma mutate_mutate (k : string) (c c0 : Chunk) (m : ChunkMap.t) :
  ChunkMap.mutate k c (ChunkMap.mutate k c0 m) = ChunkMap.mutate k c m.
Proof.
  induction m as [|[k' c'] m IH]; simpl; [reflexivity|].
  destruct (String.eqb k k') eqn:E; simpl; rewrite E; [reflexivity|].
  now rewrite IH.
Qed.

Lemma ImportanceLevel_eqb_eq (a b : ImportanceLevel) :
  ImportanceLevel_eqb a b = true <-> a = b.
Proof. destruct a, b; simpl; split; congruence. Qed.

(** ** [updateChunk] and [deleteChunk] *)

Section Update.

Import ChunkManager.

Context `{Host} `{PushManager}.

Lemma changed_true {A : Type} (eqb : A -> A -> bool) (update : option A) (current : A) :
  (forall a b, eqb a b = true <-> a = b) ->
  changed eqb update current = true <-> exists v, update = Some v /\ v <> current.
Proof.
  intros Heqb. destruct update as [v|]; simpl.
  - rewrite negb_true_iff. split.
    + intros Hne. exists v. split; [reflexivity|].
      intros Heq. apply Heqb in Heq. congruence.
    + intros (v' & [= <-] & Hne). destruct (eqb v current) eqn:E; [|reflexivity].
      apply Heqb in E. contradiction.
  - split; [discriminate|]. intros (v & Hv & _). discriminate.
Qed.

Lemma affectsScore_iff (updates : PartialChunk) (chunk : Chunk) :
  changed ImportanceLevel_eqb (p_importanceLevel updates) (importanceLevel chunk)
  || changed num_eqb (p_familiarScore updates) (familiarScore chunk)
  || changed num_eqb (p_dueAt updates) (dueAt chunk) = true
  <-> scoreInputChanged updates chunk.
Proof.
  unfold scoreInputChanged.
  rewrite !orb_true_iff.
  rewrite (changed_true _ _ _ ImportanceLevel_eqb_eq).
  rewrite !(changed_true _ _ _ num_eqb_eq). tauto.
Qed.

Lemma isSet_false {A : Type} (update : option A) : isSet update = false <-> update = None.
Proof. destruct update; simpl; split; congruence. Qed.

(** The map after [updateChunk], for a chunk that it holds. *)
Lemma updateChunk_chunks (chunkId : string) (updates : PartialChunk) (s : State)
  (chunk : Chunk) :
  ChunkMap.get chunkId (chunks s) = Some chunk ->
  chunks (run (updateChunk chunkId updates) s)
  = ChunkMap.mutate chunkId
      (if (changed ImportanceLevel_eqb (p_importanceLevel updates) (importanceLevel chunk)
           || changed num_eqb (p_familiarScore updates) (familiarScore chunk)
           || changed num_eqb (p_dueAt updates) (dueAt chunk))
          && negb (isSet (p_chunkScore updates))
       then set_chunkScore
              (Some (computeChunkScore (Object_assign chunk updates)
                       (Date_now (clockReads s))))
              (Object_assign chunk updates)
       else Object_assign chunk updates)
      (chunks s).
Proof.
  intros Hget. unfold run, updateChunk, mbind, getChunk. rewrite Hget.
  destruct (_ && _); simpl.
  - now rewrite mutate_mutate.
  - reflexivity.
Qed.

(** With an update whose keys all have values (a [PartialChunk]),
    [updateChunk] on a chunk of the map assigns the fields that the update
    names and leaves the others as they were.  The score is computed anew,
    from the updated chunk and the reading of the clock, exactly when the
    update names a new value for the importance level, the familiarity or
    the due time and does not name a score; otherwise the score is the one
    that the update names, or else the one that the chunk had. *)
Lemma updateChunk_with_values (chunkId : string) (updates : PartialChunk)
  (s : State) (chunk : Chunk) :
  ChunkMap.get chunkId (chunks s) = Some chunk ->
  exists chunk',
    ChunkMap.get chunkId (chunks (run (updateChunk chunkId updates) s)) = Some chunk'
    /\ (id chunk' = assigned (p_id updates) (id chunk)
        /\ notePath chunk' = assigned (p_notePath updates) (notePath chunk)
        /\ content chunk' = assigned (p_content updates) (content chunk)
        /\ chunkType chunk' = assigned (p_chunkType updates) (chunkType chunk)
        /\ importanceLevel chunk'
           = assigned (p_importanceLevel updates) (importanceLevel chunk)
        /\ needsReview chunk' = assigned (p_needsReview updates) (needsReview chunk)
        /\ sm2Ef chunk' = assigned (p_sm2Ef updates) (sm2Ef chunk)
        /\ sm2Repetitions chunk'
           = assigned (p_sm2Repetitions updates) (sm2Repetitions chunk)
        /\ sm2IntervalDays chunk'
           = assigned (p_sm2IntervalDays updates) (sm2IntervalDays chunk)
        /\ familiarScore chunk' = assigned (p_familiarScore updates) (familiarScore chunk)
        /\ dueAt chunk' = assigned (p_dueAt updates) (dueAt chunk)
        /\ createdAt chunk' = assigned (p_createdAt updates) (createdAt chunk)
        /\ lastReviewedAt chunk'
           = assigned (p_lastReviewedAt updates) (lastReviewedAt chunk))
    /\ (scoreInputChanged updates chunk /\ p_chunkScore updates = None ->
        chunkScore chunk'
        = Some (computeChunkScore (Object_assign chunk updates) (Date_now (clockReads s))))
    /\ (~ (scoreInputChanged updates chunk /\ p_chunkScore updates = None) ->
        chunkScore chunk'
        = match p_chunkScore updates with
          | Some v => Some v
          | None => chunkScore chunk
          end).
Proof.
  intros Hget. eexists. split.
  - rewrite (updateChunk_chunks _ _ _ _ Hget).
    apply get_mutate_same. exact (has_get _ _ _ Hget).
  - destruct (_ && _) eqn:E.
    + apply andb_true_iff in E. destruct E as [Ha Hs].
      apply affectsScore_iff in Ha. apply negb_true_iff, isSet_false in Hs.
      split; [simpl; repeat split|]. split; [reflexivity|].
      intros Hn. exfalso. apply Hn. now split.
    + split; [simpl; repeat split|]. split; [|reflexivity].
      intros [Ha Hs]. apply affectsScore_iff in Ha. apply isSet_false in Hs.
      rewrite Ha, Hs in E. discriminate.
Qed.

Lemma run_forEach_cons (step : M unit) (rest : list (M unit)) (s : State) :
  run (forEach (step :: rest) (fun st => st)) s
  = run (forEach rest (fun st => st)) (run step s).
Proof.
  unfold run. simpl. unfold mbind. now destruct (step s) as [[] s'].
Qed.

(** The trace of a sequence of statements ends in the state that running
    them ends in. *)
Lemma trace_ends (steps : list (M unit)) (s : State) :
  exists before,
    trace steps s = (before ++ [run (forEach steps (fun step => step)) s])%list.
Proof.
  revert s. induction steps as [|step rest IH]; intros s.
  - now exists [].
  - destruct (IH (run step s)) as [before Hb].
    exists (s :: before). simpl trace. rewrite Hb, run_forEach_cons. reflexivity.
Qed.

Lemma filter_filter_negb {A : Type} (p : A -> bool) (l : list A) :
  filter p (filter (fun a => negb (p a)) l) = [].
Proof.
  induction l as [|a l IH]; simpl; [reflexivity|].
  destruct (p a) eqn:E; simpl; [exact IH|]. now rewrite E.
Qed.

(** The push store modelled from the spec honours the contract that
    [deleteChunk] relies on. *)
Lemma Push_deletePushesForChunk_contract (cid : string) (store : Push.Store) :
  Push.referencing cid (Push.deletePushesForChunk cid store) = []
  /\ Push.messagesOf (Push.referencing cid store) (Push.deletePushesForChunk cid store) = [].
Proof.
  unfold Push.referencing, Push.messagesOf, Push.deletePushesForChunk. simpl. split.
  - apply (filter_filter_negb (fun p => String.eqb (Push.chunkId p) cid)).
  - apply (filter_filter_negb
             (fun m => existsb (fun p => String.eqb (Push.id p) (Push.pushId m))
                         (filter (fun p => String.eqb (Push.chunkId p) cid)
                            (Push.pushes store)))).
Qed.

(** C8.  For an id that the map does not hold, [updateChunk] leaves the whole
    state as it was and [deleteChunk] leaves the map of chunks as it was;
    neither has a way to fail. *)
Theorem unknown_id_is_noop (chunkId : string) (updates : PartialChunk) (s : State) :
  ChunkMap.get chunkId (chunks s) = None ->
  run (updateChunk chunkId updates) s = s
  /\ chunks (run (deleteChunk chunkId) s) = chunks s.
Proof.
  intros Hget. split.
  - unfold run, updateChunk, mbind, getChunk. now rewrite Hget.
  - unfold run, deleteChunk. simpl. now apply delete_absent.
Qed.

(** Given that [deletePushesForChunk], called on the push store of the
    plugin, leaves no push bound to the chunk and no message of such a
    push, the state in which [deleteChunk] ends has neither the chunk nor a
    push bound to it nor a message of such a push. *)
Lemma deleteChunk_end_state (chunkId : string) (s : State) :
  (forall store,
      pushManager s = Some store ->
      Push.referencing chunkId (deletePushesForChunk chunkId store) = []
      /\ Push.messagesOf (Push.referencing chunkId store)
           (deletePushesForChunk chunkId store) = []) ->
  let s' := run (deleteChunk chunkId) s in
  ChunkMap.get chunkId (chunks s') = None
  /\ noPushReferences chunkId s'
  /\ (forall store, pushManager s = Some store ->
        exists store', pushManager s' = Some store'
          /\ Push.referencing chunkId store' = []
          /\ Push.messagesOf (Push.referencing chunkId store) store' = []).
Proof.
  intros Hcontract s'. split; [|split].
  - subst s'. unfold run, deleteChunk. simpl. apply get_delete_same.
  - subst s'. unfold noPushReferences, run, deleteChunk. simpl.
    destruct (pushManager s) as [store|]; simpl; [|exact I].
    now apply Hcontract.
  - intros store Hstore. subst s'. unfold run, deleteChunk. simpl.
    rewrite Hstore in *. simpl. eexists. split; [reflexivity|]. now apply Hcontract.
Qed.

(** C5, where the code departs from it.  [deleteChunk] removes the chunk
    from the map and saves the chunks before it asks the push manager to
    delete the pushes of the chunk.  When a push is bound to the chunk, the
    method goes through two states in which the chunk is gone from the map
    and the push is still bound to it: the state after the removal, and the
    state that it saves.  Only the last statement hands the push store to
    [deletePushesForChunk].  The pushes are not deleted before the chunk
    is. *)
Theorem deleteChunk_saves_before_cascade (chunkId : string) (s : State)
  (store : Push.Store) :
  pushManager s = Some store ->
  Push.referencing chunkId store <> [] ->
  (exists removed saved,
      trace (deleteChunk_steps chunkId) s
      = [s; removed; saved; run (deleteChunk chunkId) s]
      /\ chunks removed = ChunkMap.delete chunkId (chunks s)
      /\ ChunkMap.get chunkId (chunks removed) = None
      /\ saves removed = saves s
      /\ pushManager removed = Some store
      /\ ~ noPushReferences chunkId removed
      /\ chunks saved = ChunkMap.delete chunkId (chunks s)
      /\ ChunkMap.get chunkId (chunks saved) = None
      /\ saves saved = S (saves s)
      /\ pushManager saved = Some store
      /\ ~ noPushReferences chunkId saved
      /\ saves (run (deleteChunk chunkId) s) = S (saves s)
      /\ pushManager (run (deleteChunk chunkId) s)
         = Some (deletePushesForChunk chunkId store))
  /\ ~ cascadesBeforeRemoval chunkId s.
Proof.
  intros Hstore Hbound.
  assert (Hrefs : forall st, pushManager st = Some store -> ~ noPushReferences chunkId st).
  { intros st Hst. unfold noPushReferences. now rewrite Hst. }
  split.
  - eexists. eexists. split; [reflexivity|].
    unfold run, deleteChunk, setChunks, saveChunks. cbn [forEach deleteChunk_steps].
    unfold mbind, setChunks, saveChunks, setPushManager.
    cbn [fst snd chunks saves pushManager]. rewrite Hstore.
    repeat split; try apply get_delete_same; apply Hrefs; reflexivity.
  - unfold cascadesBeforeRemoval. intros Hall.
    cbn [trace deleteChunk_steps] in Hall.
    inversion Hall as [|? ? _ Hrest]; subst.
    inversion Hrest as [|? ? Hremoved _]; subst.
    revert Hremoved. unfold run, setChunks. cbn [snd chunks].
    intros Hremoved. specialize (Hremoved (get_delete_same _ _)).
    revert Hremoved. apply Hrefs. exact Hstore.
Qed.

End Update.


(** An id that the sample store does not hold. *)
Lemma unknown_id_is_noop_witness :
  ChunkMap.get "zz" (ChunkManager.chunks Sample.state0) = None
  /\ ChunkManager.run (@ChunkManager.updateChunk Sample.host "zz" noUpdates) Sample.state0
     = Sample.state0
  /\ ChunkManager.chunks
       (ChunkManager.run (@ChunkManager.deleteChunk Sample.pushManager "zz") Sample.state0)
     = ChunkManager.chunks Sample.state0.
Proof.
  split; [reflexivity|].
  apply (@unknown_id_is_noop Sample.host Sample.pushManager "zz" noUpdates Sample.state0).
  reflexivity.
Defined.

(** The sample store: the push [p1] is bound to the chunk [a]. *)
Lemma deleteChunk_saves_before_cascade_witness :
  ~ @ChunkManager.cascadesBeforeRemoval Sample.pushManager "a" Sample.state0.
Proof.
  apply (@deleteChunk_saves_before_cascade Sample.pushManager "a" Sample.state0
           {| Push.pushes := [Sample.pushA]; Push.messages := [Sample.messageA] |}).
  - reflexivity.
  - discriminate.
Defined.

(** ** [updateChunk] on chunk objects *)

Section ChunkObjects.

Context `{Host}.

Lemma object_get_mutate_same (k : string) (c c0 : ChunkObject.t)
  (m : list (string * ChunkObject.t)) :
  ChunkObject.get k m = Some c0 ->
  ChunkObject.get k (ChunkObject.mutate k c m) = Some c.
Proof.
  induction m as [|[k' c'] m IH]; simpl; [discriminate|].
  destruct (String.eqb k k') eqn:E; simpl; rewrite E; [reflexivity|exact IH].
Qed.

Lemma object_get_of_chunks (k : string) (m : ChunkMap.t) :
  ChunkObject.get k (map (fun e => (fst e, ChunkObject.of_chunk (snd e))) m)
  = option_map ChunkObject.of_chunk (ChunkMap.get k m).
Proof.
  induction m as [|[k' c'] m IH]; simpl; [reflexivity|].
  now destruct (String.eqb k k').
Qed.

Lemma object_mutate_of_chunks (k : string) (c : Chunk) (m : ChunkMap.t) :
  ChunkObject.mutate k (ChunkObject.of_chunk c)
    (map (fun e => (fst e, ChunkObject.of_chunk (snd e))) m)
  = map (fun e => (fst e, ChunkObject.of_chunk (snd e))) (ChunkMap.mutate k c m).
Proof.
  induction m as [|[k' c'] m IH]; simpl; [reflexivity|].
  destruct (String.eqb k k'); simpl; [reflexivity|now rewrite IH].
Qed.

Lemma object_changed_of_partial {A : Type} (eqb : A -> A -> bool)
  (update : option A) (current : A) :
  ChunkObject.changed eqb (option_map Some update) (Some current)
  = ChunkManager.changed eqb update current.
Proof. now destruct update. Qed.

Lemma object_assign_of_partial (chunk : Chunk) (updates : PartialChunk) :
  ChunkObject.Object_assign (ChunkObject.of_chunk chunk) (ChunkObject.of_partial updates)
  = ChunkObject.of_chunk (Object_assign chunk updates).
Proof.
  destruct updates as [[?|] [?|] [?|] [?|] [?|] [?|] [?|] [?|] [?|] [?|] [?|] [?|]
                       [?|] [?|]]; reflexivity.
Qed.

Lemma object_score_of_chunk (chunk : Chunk) (now : R) :
  ChunkObject.computeChunkScore (ChunkObject.of_chunk chunk) now
  = ChunkManager.computeChunkScore chunk now.
Proof.
  unfold ChunkObject.computeChunkScore, ChunkManager.computeChunkScore,
    ChunkObject.importance, ChunkManager.importance, ChunkObject.familiarity,
    ChunkManager.familiarity, ChunkObject.dueBoost, ChunkManager.dueBoost.
  simpl. now destruct (importanceLevel chunk).
Qed.

(** On a chunk that has all its properties and an update whose keys all
    have values, [updateChunk] on chunk objects is [updateChunk] of the
    chunk manager. *)
Lemma updateChunk_of_state (chunkId : string) (updates : PartialChunk)
  (s : ChunkManager.State) :
  ChunkObject.of_state (ChunkManager.run (ChunkManager.updateChunk chunkId updates) s)
  = ChunkObject.updateChunk chunkId (ChunkObject.of_partial updates)
      (ChunkObject.of_state s).
Proof.
  unfold ChunkObject.updateChunk. cbn [ChunkObject.of_state ChunkObject.objects].
  rewrite object_get_of_chunks.
  destruct (ChunkMap.get chunkId (ChunkManager.chunks s)) as [chunk|] eqn:Hget.
  - cbn [option_map]. unfold ChunkObject.of_state.
    rewrite (updateChunk_chunks _ _ _ _ Hget).
    cbn [ChunkObject.of_chunk ChunkObject.o_importanceLevel ChunkObject.o_familiarScore
         ChunkObject.o_dueAt ChunkObject.of_partial ChunkObject.u_importanceLevel
         ChunkObject.u_familiarScore ChunkObject.u_dueAt ChunkObject.u_chunkScore].
    rewrite !object_changed_of_partial.
    replace (ChunkObject.isSet (option_map Some (p_chunkScore updates)))
      with (ChunkManager.isSet (p_chunkScore updates))
      by now destruct (p_chunkScore updates).
    change (ChunkObject.mk (Some (id chunk)) (Some (notePath chunk))
              (Some (content chunk)) (Some (chunkType chunk))
              (Some (importanceLevel chunk)) (Some (needsReview chunk))
              (Some (sm2Ef chunk)) (Some (sm2Repetitions chunk))
              (Some (sm2IntervalDays chunk)) (Some (familiarScore chunk))
              (Some (dueAt chunk)) (Some (createdAt chunk))
              (Some (lastReviewedAt chunk)) (chunkScore chunk))
      with (ChunkObject.of_chunk chunk).
    change (ChunkObject.mkUpdates _ _ _ _ _ _ _ _ _ _ _ _ _ _)
      with (ChunkObject.of_partial updates).
    rewrite object_assign_of_partial, object_score_of_chunk.
    unfold ChunkManager.run, ChunkManager.updateChunk, ChunkManager.mbind,
      ChunkManager.getChunk. rewrite Hget.
    destruct (_ && _); cbn -[Object_assign ChunkManager.computeChunkScore];
      f_equal; now rewrite <- object_mutate_of_chunks.
  - unfold ChunkManager.run, ChunkManager.updateChunk, ChunkManager.mbind,
      ChunkManager.getChunk. now rewrite Hget.
Qed.

(** C6, where the code departs from it.  The update
    [{ familiarScore: undefined }] has the key [familiarScore], with a value
    that differs from the familiarity [f] of the chunk.  [Object.assign]
    applies the key: the chunk has no familiarity afterwards.  The test for
    computing the score anew asks for a value other than [undefined], so
    that the score is not computed: the clock is not read and the chunk
    keeps the score that it had, although its score is now higher by [f]
    at every time.  A score that was right for the chunk before the update
    is wrong for it afterwards. *)
Theorem undefined_key_is_applied_not_rescored (chunkId : string)
  (s : ChunkObject.Store) (chunk : ChunkObject.t) (f : R) :
  ChunkObject.get chunkId (ChunkObject.objects s) = Some chunk ->
  ChunkObject.o_familiarScore chunk = Some f ->
  f <> 0 ->
  let s' := ChunkObject.updateChunk chunkId ChunkObject.familiarScoreUndefined s in
  exists chunk',
    ChunkObject.get chunkId (ChunkObject.objects s') = Some chunk'
    /\ ChunkObject.u_familiarScore ChunkObject.familiarScoreUndefined = Some None
    /\ ChunkObject.o_familiarScore chunk' = None
    /\ ChunkObject.o_chunkScore chunk' = ChunkObject.o_chunkScore chunk
    /\ ChunkObject.clockReads s' = ChunkObject.clockReads s
    /\ ChunkObject.saves s' = S (ChunkObject.saves s)
    /\ (forall now,
          ChunkObject.computeChunkScore chunk' now
          = ChunkObject.computeChunkScore chunk now + f)
    /\ (forall now,
          ChunkObject.o_chunkScore chunk
          = Some (ChunkObject.computeChunkScore chunk now) ->
          ChunkObject.o_chunkScore chunk'
          <> Some (ChunkObject.computeChunkScore chunk' now)).
Proof.
  intros Hget Hf Hne s'.
  assert (Hscore : forall now,
    ChunkObject.computeChunkScore
      (ChunkObject.Object_assign chunk ChunkObject.familiarScoreUndefined) now
    = ChunkObject.computeChunkScore chunk now + f).
  { intros now. unfold ChunkObject.computeChunkScore, ChunkObject.importance,
      ChunkObject.familiarity, ChunkObject.dueBoost. cbn. rewrite Hf. lra. }
  exists (ChunkObject.Object_assign chunk ChunkObject.familiarScoreUndefined).
  subst s'. unfold ChunkObject.updateChunk. rewrite Hget.
  cbn [ChunkObject.familiarScoreUndefined ChunkObject.u_importanceLevel
       ChunkObject.u_familiarScore ChunkObject.u_dueAt ChunkObject.u_chunkScore
       ChunkObject.changed ChunkObject.read ChunkObject.isSet orb andb negb
       ChunkObject.objects ChunkObject.saves ChunkObject.clockReads].
  split; [now apply object_get_mutate_same with chunk|].
  repeat split; try exact Hscore.
  intros now Hright. cbn [ChunkObject.Object_assign ChunkObject.o_chunkScore
                          ChunkObject.assigned ChunkObject.u_chunkScore
                          ChunkObject.familiarScoreUndefined].
  rewrite Hright. intros [= Heq].
  change (ChunkObject.mk _ _ _ _ _ _ _ _ _ _ _ _ _ _)
    with (ChunkObject.Object_assign chunk ChunkObject.familiarScoreUndefined) in Heq.
  rewrite Hscore in Heq. lra.
Qed.

End ChunkObjects.

(** The sample chunk, whose familiarity is 0.5, in the sample store. *)
Lemma undefined_key_is_applied_not_rescored_witness :
  exists chunk',
    ChunkObject.get "a"
      (ChunkObject.objects
         (@ChunkObject.updateChunk Sample.host "a" ChunkObject.familiarScoreUndefined
            Fixtures.objectStore)) = Some chunk'
    /\ ChunkObject.o_familiarScore chunk' = None
    /\ ChunkObject.o_chunkScore chunk' = Some 4.5.
Proof.
  destruct (@undefined_key_is_applied_not_rescored Sample.host "a" Fixtures.objectStore
              (ChunkObject.of_chunk Sample.chunkA) 0.5 eq_refl eq_refl
              ltac:(lra))
    as (chunk' & Hget & _ & Hfam & Hscore & _).
  exists chunk'. repeat split; assumption.
Defined.

(** ** The grade of a tutoring reply *)


Lemma Rmax_IZR (a b : Z) : Rmax (IZR a) (IZR b) = IZR (Z.max a b).
Proof.
  destruct (Z.le_ge_cases a b) as [Hle|Hge].
  - rewrite Z.max_r by exact Hle. apply Rmax_right. now apply IZR_le.
  - rewrite Z.max_l by exact Hge. apply Rmax_left. now apply IZR_le.
Qed.


Section Tutoring.

Import LLMService.

Context `{JsonParser} `{JsRuntime}.





End Tutoring.


(** * Part III: further properties *)

(** ** More on the score *)

Section ScoreMore.

Import ChunkManager.

Lemma logistic_increasing (x y : R) :
  x < y -> 4 / (1 + exp (- x / msPerDay)) < 4 / (1 + exp (- y / msPerDay)).
Proof.
  intros Hxy. pose proof msPerDay_pos as HD.
  assert (He : exp (- y / msPerDay) < exp (- x / msPerDay)).
  { apply exp_increasing. apply Rmult_lt_reg_r with msPerDay; [lra|].
    unfold Rdiv. rewrite !Rmult_assoc, Rinv_l by lra. lra. }
  pose proof (exp_pos (- x / msPerDay)) as Hx.
  pose proof (exp_pos (- y / msPerDay)) as Hy.
  unfold Rdiv. apply Rmult_lt_compat_l; [lra|].
  apply Rinv_lt_contravar; [nra|lra].
Qed.

Lemma dueBoost_range (chunk : Chunk) (t : R) : 0 <= dueBoost chunk t < 4.
Proof.
  unfold dueBoost. destruct (num_truthy (dueAt chunk)); [|lra].
  pose proof (logistic_range (t - dueAt chunk)). lra.
Qed.

Lemma importance_range (chunk : Chunk) : 0 <= importance chunk <= 2.
Proof. unfold importance. destruct (importanceLevel chunk); lra. Qed.

(** X1.  The score of a chunk is at least what its importance and its
    familiarity give, and at most 4 more than that; for a familiarity
    between 0 and 1 the score is at least 0 and at most 7.  (Over the reals
    the upper bounds are never reached; the floating-point arithmetic of the
    source reaches them for a chunk that is long overdue, which is why they
    are stated as they are.) *)
Theorem computeChunkScore_range (chunk : Chunk) (t : R) :
  importance chunk + (1 - familiarScore chunk) <= computeChunkScore chunk t
  /\ computeChunkScore chunk t <= importance chunk + (1 - familiarScore chunk) + 4
  /\ (0 <= familiarScore chunk <= 1 -> 0 <= computeChunkScore chunk t <= 7).
Proof.
  unfold computeChunkScore, familiarity.
  pose proof (dueBoost_range chunk t). pose proof (importance_range chunk).
  repeat split; try lra; intros; lra.
Qed.

(** X2.  The score of a chunk never goes down as time passes. *)
Theorem computeChunkScore_monotone (chunk : Chunk) (t t' : R) :
  t <= t' -> computeChunkScore chunk t <= computeChunkScore chunk t'.
Proof.
  intros [Hlt| ->]; [|lra].
  unfold computeChunkScore.
  destruct (num_truthy (dueAt chunk)) eqn:E.
  - assert (Hd : ~ dueAtAbsent chunk) by (unfold dueAtAbsent; congruence).
    rewrite !(dueBoost_present _ _ Hd).
    pose proof (logistic_increasing (t - dueAt chunk) (t' - dueAt chunk)). lra.
  - rewrite !dueBoost_absent by exact E. lra.
Qed.

End ScoreMore.

Lemma computeChunkScore_range_witness :
  0 <= familiarScore Sample.chunkA <= 1
  /\ 0 <= ChunkManager.computeChunkScore Sample.chunkA 1700000000000 <= 7.
Proof.
  assert (Hf : 0 <= familiarScore Sample.chunkA <= 1) by (simpl; lra).
  split; [exact Hf|].
  apply (computeChunkScore_range Sample.chunkA 1700000000000). exact Hf.
Defined.

Lemma computeChunkScore_monotone_witness :
  ChunkManager.computeChunkScore Sample.chunkA 1700000000000
  <= ChunkManager.computeChunkScore Sample.chunkA 1700086400000.
Proof.
  apply (computeChunkScore_monotone Sample.chunkA 1700000000000 1700086400000).
  lra.
Defined.

(** ** More on [updateChunk] and [deleteChunk] *)

Section UpdateMore.

Import ChunkManager.

Context `{Host} `{PushManager}.

(** A key that has a value and is not seen as a change leaves the property
    as it was. *)
Lemma object_unchanged_value {A : Type} (eqb : A -> A -> bool)
  (update : option (option A)) (current : option A) :
  (forall a b, eqb a b = true <-> a = b) ->
  update <> Some None ->
  ChunkObject.changed eqb update current = false ->
  ChunkObject.assigned update current = current.
Proof.
  intros Heqb Hdefined Hsame.
  destruct update as [[v|]|]; [|contradiction|reflexivity].
  unfold ChunkObject.changed in Hsame. cbn in Hsame.
  destruct current as [c|]; [|discriminate].
  apply negb_false_iff, Heqb in Hsame. now subst.
Qed.

(** X4.  When [updateChunk] does not compute the score anew, and the update
    has none of the keys [importanceLevel], [familiarScore] and [dueAt] with
    the value [undefined] and no key [chunkScore], the score that the chunk
    carries is as right for the updated chunk as it was for the chunk
    before: if it was the score at a time [t], it still is. *)
Theorem updateChunk_keeps_score_right (chunkId : string)
  (updates : ChunkObject.Updates) (s : ChunkObject.Store) (chunk : ChunkObject.t)
  (t : R) :
  ChunkObject.get chunkId (ChunkObject.objects s) = Some chunk ->
  ChunkObject.scoreKeysDefined updates ->
  ChunkObject.u_chunkScore updates = None ->
  ChunkObject.rescores updates chunk = false ->
  ChunkObject.o_chunkScore chunk = Some (ChunkObject.computeChunkScore chunk t) ->
  exists chunk',
    ChunkObject.get chunkId
      (ChunkObject.objects (ChunkObject.updateChunk chunkId updates s)) = Some chunk'
    /\ ChunkObject.o_chunkScore chunk'
       = Some (ChunkObject.computeChunkScore chunk' t).
Proof.
  intros Hget (Hi & Hf & Hd) Hnone Hsame Hscore.
  unfold ChunkObject.rescores in Hsame. rewrite Hnone in Hsame.
  cbn [ChunkObject.isSet ChunkObject.read negb] in Hsame.
  rewrite andb_true_r in Hsame.
  apply orb_false_iff in Hsame. destruct Hsame as [Hsame Hdue].
  apply orb_false_iff in Hsame. destruct Hsame as [Hlevel Hfam].
  unfold ChunkObject.updateChunk. rewrite Hget, Hlevel, Hfam, Hdue. cbn [orb andb].
  exists (ChunkObject.Object_assign chunk updates). split.
  - cbn [ChunkObject.objects]. now apply object_get_mutate_same with chunk.
  - unfold ChunkObject.computeChunkScore, ChunkObject.importance,
      ChunkObject.familiarity, ChunkObject.dueBoost.
    cbn [ChunkObject.Object_assign ChunkObject.o_importanceLevel
         ChunkObject.o_familiarScore ChunkObject.o_dueAt ChunkObject.o_chunkScore].
    rewrite (object_unchanged_value _ _ _ ImportanceLevel_eqb_eq Hi Hlevel).
    rewrite (object_unchanged_value _ _ _ num_eqb_eq Hf Hfam).
    rewrite (object_unchanged_value _ _ _ num_eqb_eq Hd Hdue).
    rewrite Hnone. exact Hscore.
Qed.
(** X5.  [updateChunk] keeps the keys of the map and their order, also when
    the update names a new id for the chunk (the chunk stays under the key
    it had), and it leaves every other chunk as it was. *)
Theorem updateChunk_keeps_keys (chunkId : string) (updates : PartialChunk) (s : State) :
  ChunkMap.keys (chunks (run (updateChunk chunkId updates) s)) = ChunkMap.keys (chunks s)
  /\ (forall other, other <> chunkId ->
        ChunkMap.get other (chunks (run (updateChunk chunkId updates) s))
        = ChunkMap.get other (chunks s)).
Proof.
  destruct (ChunkMap.get chunkId (chunks s)) as [chunk|] eqn:Hget.
  - rewrite (updateChunk_chunks _ _ _ _ Hget). split.
    + apply keys_mutate.
    + intros other Hne. now apply get_mutate_other.
  - unfold run, updateChunk, mbind, getChunk. rewrite Hget. now split.
Qed.

(** X6.  [deleteChunk] leaves every other chunk as it was and saves once,
    whether the map held the id or not; deleting the same id again changes
    no chunk. *)
Theorem deleteChunk_frame (chunkId : string) (s : State) :
  (forall other, other <> chunkId ->
      ChunkMap.get other (chunks (run (deleteChunk chunkId) s))
      = ChunkMap.get other (chunks s))
  /\ saves (run (deleteChunk chunkId) s) = S (saves s)
  /\ chunks (run (deleteChunk chunkId) (run (deleteChunk chunkId) s))
     = chunks (run (deleteChunk chunkId) s).
Proof.
  unfold run, deleteChunk. simpl. repeat split.
  - intros other Hne. now apply get_delete_other.
  - apply delete_absent, get_delete_same.
Qed.

End UpdateMore.

Lemma updateChunk_keeps_score_right_witness :
  exists chunk',
    ChunkObject.get "a"
      (ChunkObject.objects
         (@ChunkObject.updateChunk Sample.host "a"
            (ChunkObject.of_partial Fixtures.toggleReview)
            (ChunkObject.of_state Fixtures.scored))) = Some chunk'
    /\ ChunkObject.o_chunkScore chunk'
       = Some (ChunkObject.computeChunkScore chunk' 1700000000000).
Proof.
  apply (@updateChunk_keeps_score_right Sample.host "a"
           (ChunkObject.of_partial Fixtures.toggleReview)
           (ChunkObject.of_state Fixtures.scored)
           (ChunkObject.of_chunk Fixtures.chunkScored) 1700000000000).
  - reflexivity.
  - repeat split; discriminate.
  - reflexivity.
  - reflexivity.
  - reflexivity.
Defined.

(** ** More on the merge of decisions *)

Section MergeMore.

Import ChunkManager.

Context `{SM2Algorithm} `{Host}.

Lemma Math_max_round_integer (x : R) :
  1 <= Math_max 1 (Math_round x) /\ exists z : Z, Math_max 1 (Math_round x) = IZR z.
Proof.
  split; [apply Rmax_l|].
  exists (Z.max 1 (Int_part (x + / 2))). unfold Math_max, Math_round.
  now rewrite Rmax_IZR.
Qed.

(** What every merge keeps, whatever the update level says. *)
Lemma modifyChunk_sound (existingChunk : Chunk) (mc : string) (lvl : option string)
  (s : State) :
  let c := fst (modifyChunk existingChunk mc lvl s) in
  1.3 <= sm2Ef c
  /\ (1.3 <= sm2Ef existingChunk -> sm2Ef c <= sm2Ef existingChunk)
  /\ 0 <= familiarScore c
  /\ (0 <= familiarScore existingChunk -> familiarScore c <= familiarScore existingChunk)
  /\ (0 <= sm2Repetitions existingChunk ->
      0 <= sm2Repetitions c <= sm2Repetitions existingChunk)
  /\ 1 <= sm2IntervalDays c
  /\ (exists z : Z, sm2IntervalDays c = IZR z)
  /\ Date_now (clockReads s) + msPerDay <= dueAt c
  /\ chunkScore c = Some (computeChunkScore c (Date_now (S (clockReads s)))).
Proof.
  unfold modifyChunk, mbind, now, this_computeChunkScore, ret. simpl.
  set (ef := sm2Ef existingChunk). set (fs := familiarScore existingChunk).
  set (reps := sm2Repetitions existingChunk).
  assert (Hfs : forall r, 0 <= r <= 1 ->
            0 <= Math_max 0 (fs * r) /\ (0 <= fs -> Math_max 0 (fs * r) <= fs)).
  { intros r Hr. split; [apply Rmax_l|]. intros Hpos. apply Rmax_lub; nra. }
  assert (Hdue : forall x t, 1 <= x -> t + msPerDay <= t + x * 24 * 60 * 60 * 1000).
  { intros x t Hx. unfold msPerDay. lra. }
  destruct (String.eqb _ "minor"); [|destruct (String.eqb _ "moderate")];
    match goal with |- context [num_eqb ?a ?b] => destruct (num_eqb a b) end;
    simpl;
    repeat match goal with
      | |- _ /\ _ => split
      | |- 1.3 <= Math_max 1.3 _ => apply Rmax_l
      | |- 1 <= Math_max 1 _ => apply Rmax_l
      | |- exists z : Z, Math_max 1 (Math_round ?x) = IZR z =>
          apply (Math_max_round_integer x)
      | |- _ + msPerDay <= _ => apply Hdue, Rmax_l
      | |- 0 <= Math_max 0 (fs * ?r) => apply (Hfs r); lra
      | |- 0 <= fs -> Math_max 0 (fs * ?r) <= fs => apply (Hfs r); lra
      | |- Some _ = Some _ => reflexivity
      end;
    try (intros Hge; apply Rmax_lub; fold ef; lra);
    try (intros Hge; fold reps; split; [apply Rmax_l || lra | apply Rmax_lub; lra || lra]);
    try (intros Hge; fold reps; lra).
Qed.


(** X7.  Whatever its update level, a [modify] decision that is applied
    leaves the chunk with an ease factor of at least 1.3 and no more than
    before, a familiarity of at least 0 and no more than before, no more
    repetitions than before, an interval that is a whole number of days of
    at least 1, a due time at least a day after the reading of the clock,
    and the score that the chunk has at the next reading of the clock. *)
Theorem modify_keeps_chunk_sound (st : Merge)
  (decision : LLMService.IncrementalChunkDecision) (s : State)
  (key : string) (chunk : Chunk) (mc : string) :
  findExisting (LLMService.id decision) (existingChunks st) = Some (key, chunk) ->
  ChunkMap.get key (chunks s) = Some chunk ->
  LLMService.action decision = "modify" ->
  LLMService.modified_content decision = Some mc ->
  mc <> "" ->
  exists chunk',
    ChunkMap.get key (chunks (run (processDecision st decision) s)) = Some chunk'
    /\ 1.3 <= sm2Ef chunk'
    /\ (1.3 <= sm2Ef chunk -> sm2Ef chunk' <= sm2Ef chunk)
    /\ 0 <= familiarScore chunk'
    /\ (0 <= familiarScore chunk -> familiarScore chunk' <= familiarScore chunk)
    /\ (0 <= sm2Repetitions chunk -> 0 <= sm2Repetitions chunk' <= sm2Repetitions chunk)
    /\ 1 <= sm2IntervalDays chunk'
    /\ (exists z : Z, sm2IntervalDays chunk' = IZR z)
    /\ Date_now (clockReads s) + msPerDay <= dueAt chunk'
    /\ chunkScore chunk' = Some (computeChunkScore chunk' (Date_now (S (clockReads s)))).
Proof.
  intros Hfind Hget Hact Hmc Hne. eexists. split.
  - apply (processDecision_modify_get _ _ _ _ _ _ Hfind Hget Hact Hmc Hne).
  - apply modifyChunk_sound.
Qed.

Lemma modifyChunk_moderate (existingChunk : Chunk) (mc : string) (lvl : option string)
  (s : State) :
  lvl = None \/ lvl = Some "" \/ lvl = Some "moderate" ->
  let c := fst (modifyChunk existingChunk mc lvl s) in
  sm2Ef c = Math_max 1.3 (sm2Ef existingChunk - 0.3)
  /\ sm2Repetitions c = Math_max 0 (sm2Repetitions existingChunk - 1)
  /\ familiarScore c = Math_max 0 (0.7 * familiarScore existingChunk)
  /\ (sm2Repetitions c = 0 ->
      sm2IntervalDays c
      = Math_max 1
          (Math_round (1 * getImportanceMultiplier (importanceLevel existingChunk))))
  /\ (sm2Repetitions c <> 0 ->
      sm2IntervalDays c
      = Math_max 1 (Math_round (0.5 * sm2IntervalDays existingChunk))).
Proof.
  intros Hlvl.
  assert (Hm : Str.opt_or_else lvl "moderate" = "moderate")
    by (destruct Hlvl as [-> | [-> | ->]]; reflexivity).
  unfold modifyChunk, mbind, now, this_computeChunkScore, ret. rewrite Hm. simpl.
  rewrite (Rmult_comm 0.7), (Rmult_comm 0.5).
  destruct (num_eqb _ 0) eqn:E; simpl; repeat split; try reflexivity; intros Hr.
  - apply num_eqb_eq in E. simpl in E. contradiction.
  - apply num_eqb_neq in E. simpl in E. contradiction.
Qed.

(** X8.  A [modify] decision without an update level (or with the empty
    string for one) is merged as a [moderate] one: the ease factor goes down
    by 0.3, not below 1.3, one repetition is taken away, not below 0, the
    familiarity is multiplied by 0.7, and the interval is the initial one
    when no repetition is left and otherwise half the interval before,
    rounded, and at least 1. *)
Theorem modify_without_level_is_moderate (st : Merge)
  (decision : LLMService.IncrementalChunkDecision) (s : State)
  (key : string) (chunk : Chunk) (mc : string) :
  findExisting (LLMService.id decision) (existingChunks st) = Some (key, chunk) ->
  ChunkMap.get key (chunks s) = Some chunk ->
  LLMService.action decision = "modify" ->
  LLMService.modified_content decision = Some mc ->
  mc <> "" ->
  LLMService.update_level decision = None
  \/ LLMService.update_level decision = Some ""
  \/ LLMService.update_level decision = Some "moderate" ->
  exists chunk',
    ChunkMap.get key (chunks (run (processDecision st decision) s)) = Some chunk'
    /\ sm2Ef chunk' = Math_max 1.3 (sm2Ef chunk - 0.3)
    /\ sm2Repetitions chunk' = Math_max 0 (sm2Repetitions chunk - 1)
    /\ familiarScore chunk' = Math_max 0 (0.7 * familiarScore chunk)
    /\ (sm2Repetitions chunk' = 0 ->
        sm2IntervalDays chunk'
        = Math_max 1 (Math_round (1 * getImportanceMultiplier (importanceLevel chunk))))
    /\ (sm2Repetitions chunk' <> 0 ->
        sm2IntervalDays chunk' = Math_max 1 (Math_round (0.5 * sm2IntervalDays chunk))).
Proof.
  intros Hfind Hget Hact Hmc Hne Hlvl. eexists. split.
  - apply (processDecision_modify_get _ _ _ _ _ _ Hfind Hget Hact Hmc Hne).
  - now apply modifyChunk_moderate.
Qed.

Lemma modifyChunk_other_level (existingChunk : Chunk) (mc lvl : string) (s : State) :
  lvl <> "" -> lvl <> "minor" -> lvl <> "moderate" ->
  modifyChunk existingChunk mc (Some lvl) s
  = modifyChunk existingChunk mc (Some "major") s.
Proof.
  intros He Hmin Hmod.
  unfold modifyChunk. simpl Str.opt_or_else. unfold Str.or_else.
  apply truthy_nonempty in He. rewrite He. cbn [Str.truthy].
  apply String.eqb_neq in Hmin, Hmod. rewrite Hmin, Hmod. reflexivity.
Qed.

(** X9.  An update level that is neither [minor] nor [moderate] (nor empty)
    is merged as [major], whatever it says: no repetitions are left, the
    ease factor is multiplied by 0.7, not below 1.3, the familiarity by 0.4,
    and the interval is the initial one. *)
Theorem modify_unknown_level_is_major (st : Merge)
  (decision : LLMService.IncrementalChunkDecision) (s : State)
  (key : string) (chunk : Chunk) (mc lvl : string) :
  findExisting (LLMService.id decision) (existingChunks st) = Some (key, chunk) ->
  ChunkMap.get key (chunks s) = Some chunk ->
  LLMService.action decision = "modify" ->
  LLMService.modified_content decision = Some mc ->
  mc <> "" ->
  LLMService.update_level decision = Some lvl ->
  lvl <> "" -> lvl <> "minor" -> lvl <> "moderate" ->
  exists chunk',
    ChunkMap.get key (chunks (run (processDecision st decision) s)) = Some chunk'
    /\ sm2Repetitions chunk' = 0
    /\ sm2Ef chunk' = Math_max 1.3 (0.7 * sm2Ef chunk)
    /\ familiarScore chunk' = Math_max 0 (0.4 * familiarScore chunk)
    /\ sm2IntervalDays chunk'
       = Math_max 1 (Math_round (1 * getImportanceMultiplier (importanceLevel chunk))).
Proof.
  intros Hfind Hget Hact Hmc Hne Hlvl He Hmin Hmod. eexists. split.
  - apply (processDecision_modify_get _ _ _ _ _ _ Hfind Hget Hact Hmc Hne).
  - rewrite Hlvl, (modifyChunk_other_level _ _ _ _ He Hmin Hmod).
    pose proof (modifyChunk_major chunk mc s) as Hm. simpl in Hm. tauto.
Qed.

(** X10.  A decision is skipped, with no change to the state or to the
    counters, when no chunk of the note has its id, when its action is
    neither [delete] nor [modify], and when it is a [modify] without a new
    content (or with the empty string for one). *)
Theorem processDecision_skips (st : Merge)
  (decision : LLMService.IncrementalChunkDecision) (s : State) :
  findExisting (LLMService.id decision) (existingChunks st) = None
  \/ (LLMService.action decision <> "delete" /\ LLMService.action decision <> "modify")
  \/ (LLMService.action decision = "modify"
      /\ (LLMService.modified_content decision = None
          \/ LLMService.modified_content decision = Some "")) ->
  processDecision st decision s = (st, s).
Proof.
  unfold processDecision. intros [Hnone|[[Hd Hm]|[Hm Hc]]].
  - now rewrite Hnone.
  - destruct (findExisting _ _) as [[key chunk]|]; [|reflexivity].
    apply String.eqb_neq in Hd, Hm. now rewrite Hd, Hm.
  - destruct (findExisting _ _) as [[key chunk]|]; [|reflexivity].
    rewrite Hm. simpl. destruct Hc as [-> | ->]; reflexivity.
Qed.

Lemma get_delete_absent (k d : string) (m : ChunkMap.t) :
  ChunkMap.get k m = None -> ChunkMap.get k (ChunkMap.delete d m) = None.
Proof.
  intros Hn. destruct (String.eqb k d) eqn:E.
  - apply String.eqb_eq in E. subst. apply get_delete_same.
  - apply String.eqb_neq in E. now rewrite get_delete_other.
Qed.

Lemma get_mutate_absent (k key : string) (c : Chunk) (m : ChunkMap.t) :
  ChunkMap.get k m = None -> ChunkMap.get k (ChunkMap.mutate key c m) = None.
Proof.
  intros Hn. destruct (String.eqb k key) eqn:E.
  - apply String.eqb_eq in E. subst. now rewrite mutate_absent.
  - apply String.eqb_neq in E. now rewrite get_mutate_other.
Qed.

(** What one decision does to the array and to the map: nothing, or it
    deletes the key that is the id of the decision from the map, or it
    merges the chunk that it found, in the array and in the map. *)
Lemma processDecision_cases (st : Merge)
  (decision : LLMService.IncrementalChunkDecision) (s : State) :
  (existingChunks (fst (processDecision st decision s)) = existingChunks st
   /\ chunks (snd (processDecision st decision s)) = chunks s)
  \/ (exists key chunk,
        findExisting (LLMService.id decision) (existingChunks st) = Some (key, chunk)
        /\ existingChunks (fst (processDecision st decision s)) = existingChunks st
        /\ chunks (snd (processDecision st decision s))
           = ChunkMap.delete (LLMService.id decision) (chunks s))
  \/ (exists key chunk c,
        findExisting (LLMService.id decision) (existingChunks st) = Some (key, chunk)
        /\ id c = id chunk
        /\ notePath c = notePath chunk
        /\ existingChunks (fst (processDecision st decision s))
           = ChunkMap.mutate key c (existingChunks st)
        /\ chunks (snd (processDecision st decision s))
           = ChunkMap.mutate key c (chunks s)).
Proof.
  unfold processDecision.
  destruct (findExisting _ _) as [[key chunk]|] eqn:Hfind; [|now left].
  destruct (String.eqb (LLMService.action decision) "delete").
  { right. left. exists key, chunk. now repeat split. }
  destruct (_ && _); [|now left].
  right. right. unfold mbind.
  match goal with
  | |- context [modifyChunk ?a ?b ?c ?d] =>
      rewrite (surjective_pairing (modifyChunk a b c d));
      rewrite modifyChunk_state;
      pose proof (modifyChunk_frame a b c d) as Hf;
      exists key, chunk, (fst (modifyChunk a b c d))
  end.
  cbv zeta in Hf. repeat split; tauto.
Qed.

Lemma processDecision_adds_no_key (st : Merge)
  (decision : LLMService.IncrementalChunkDecision) (s : State) (k : string) :
  ChunkMap.get k (chunks s) = None ->
  ChunkMap.get k (chunks (snd (processDecision st decision s))) = None.
Proof.
  intros Hn.
  destruct (processDecision_cases st decision s)
    as [[_ ->]|[(key & chunk & _ & _ & ->)|(key & chunk & c & _ & _ & _ & _ & ->)]].
  - exact Hn.
  - now apply get_delete_absent.
  - now apply get_mutate_absent.
Qed.

Lemma decisions_add_no_key (decisions : list LLMService.IncrementalChunkDecision)
  (st : Merge) (s : State) (k : string) :
  ChunkMap.get k (chunks s) = None ->
  ChunkMap.get k (chunks (run (foldM processDecision decisions st) s)) = None.
Proof.
  revert st s. induction decisions as [|d rest IH]; intros st s Hn; [exact Hn|].
  unfold run. simpl. unfold mbind.
  rewrite (surjective_pairing (processDecision st d s)).
  apply IH. now apply processDecision_adds_no_key.
Qed.

(** X11.  The loop over the decisions adds no chunk to the map, and a chunk
    that one decision deletes stays deleted whatever the later decisions of
    the same reply say about its id. *)
Theorem deleted_stays_deleted (st : Merge)
  (decision : LLMService.IncrementalChunkDecision)
  (rest : list LLMService.IncrementalChunkDecision) (s : State) :
  (forall decisions k,
      ChunkMap.get k (chunks s) = None ->
      ChunkMap.get k (chunks (run (foldM processDecision decisions st) s)) = None)
  /\ (findExisting (LLMService.id decision) (existingChunks st) <> None ->
      LLMService.action decision = "delete" ->
      ChunkMap.get (LLMService.id decision)
        (chunks (run (foldM processDecision (decision :: rest) st) s)) = None).
Proof.
  split.
  - intros decisions k. apply decisions_add_no_key.
  - intros Hfound Hact. unfold run. simpl. unfold mbind.
    rewrite (surjective_pairing (processDecision st decision s)).
    apply decisions_add_no_key.
    unfold processDecision.
    destruct (findExisting _ _) as [[key chunk]|]; [|congruence].
    rewrite Hact. simpl. apply get_delete_same.
Qed.

End MergeMore.

Section OtherNotes.

Import ChunkManager.

Context `{SM2Algorithm} `{Host}.

Lemma In_mutate_cases (k key : string) (c c' : Chunk) (m : ChunkMap.t) :
  In (k, c) (ChunkMap.mutate key c' m) -> (k = key /\ c = c') \/ In (k, c) m.
Proof.
  induction m as [|[k0 c0] m IH]; simpl; [tauto|].
  destruct (String.eqb key k0) eqn:E; simpl.
  - apply String.eqb_eq in E. subst k0. intros [[= -> ->]|Hin]; [now left|tauto].
  - intros [Heq|Hin]; [tauto|]. destruct (IH Hin); tauto.
Qed.

(** One decision of the loop for a note leaves a chunk of the map alone when
    every chunk of the array has its id for a key and another key than that
    chunk. *)
Lemma processDecision_other_key (st : Merge)
  (decision : LLMService.IncrementalChunkDecision) (s : State) (k0 : string) :
  (forall k c, In (k, c) (existingChunks st) -> id c = k /\ k <> k0) ->
  (forall k c, In (k, c) (existingChunks (fst (processDecision st decision s))) ->
               id c = k /\ k <> k0)
  /\ ChunkMap.get k0 (chunks (snd (processDecision st decision s)))
     = ChunkMap.get k0 (chunks s).
Proof.
  intros Hinv.
  destruct (processDecision_cases st decision s)
    as [[-> ->]|[(key & chunk & Hfind & -> & ->)
                |(key & chunk & c & Hfind & Hidc & _ & -> & ->)]].
  - now split.
  - pose proof (find_some _ _ Hfind) as [Hin Hid]. simpl in Hid.
    apply String.eqb_eq in Hid. destruct (Hinv _ _ Hin) as [Hkey Hne].
    split; [exact Hinv|]. apply get_delete_other. congruence.
  - pose proof (find_some _ _ Hfind) as [Hin _].
    destruct (Hinv _ _ Hin) as [Hkey Hne]. split.
    + intros k c' Hkc.
      destruct (In_mutate_cases _ _ _ _ _ Hkc) as [[-> ->]|Hold]; [|now apply Hinv].
      split; congruence.
    + now apply get_mutate_other.
Qed.

Lemma decisions_other_key (decisions : list LLMService.IncrementalChunkDecision)
  (st : Merge) (s : State) (k0 : string) :
  (forall k c, In (k, c) (existingChunks st) -> id c = k /\ k <> k0) ->
  ChunkMap.get k0 (chunks (run (foldM processDecision decisions st) s))
  = ChunkMap.get k0 (chunks s).
Proof.
  revert st s. induction decisions as [|d rest IH]; intros st s Hinv; [reflexivity|].
  unfold run. simpl. unfold mbind.
  rewrite (surjective_pairing (processDecision st d s)).
  destruct (processDecision_other_key st d s k0 Hinv) as [Hinv' Hget].
  unfold run in IH. rewrite (IH _ _ Hinv'). exact Hget.
Qed.

(** X12.  In a map whose keys are distinct and are the ids of its chunks,
    the decisions of an extraction for one note leave the chunks of every
    other note as they were. *)
Theorem decisions_leave_other_notes (path : string)
  (decisions : list LLMService.IncrementalChunkDecision) (s : State)
  (k0 : string) (c0 : Chunk) (counters : Tally) :
  NoDup (ChunkMap.keys (chunks s)) ->
  keyedById (chunks s) ->
  ChunkMap.get k0 (chunks s) = Some c0 ->
  notePath c0 <> path ->
  ChunkMap.get k0
    (chunks (run (foldM processDecision decisions
                    (mkMerge (entriesByNotePath path (chunks s)) counters)) s))
  = Some c0.
Proof.
  intros Hnd Hkeyed Hget Hpath.
  rewrite decisions_other_key; [exact Hget|].
  simpl. intros k c Hin. unfold entriesByNotePath in Hin.
  apply filter_In in Hin. destruct Hin as [Hin Hp]. simpl in Hp.
  apply String.eqb_eq in Hp. split; [now apply Hkeyed|].
  intros ->. rewrite (get_In _ _ _ Hnd Hin) in Hget. congruence.
Qed.

End OtherNotes.

(** ** More on the extraction as a whole *)

Section ExtractionMore.

Import ChunkManager.

Context `{SM2Algorithm} `{Host} `{LLMService.JsonParser}.

(** The test of the loops over extracted contents is the test for a blank
    content: the empty string trims to itself. *)
Lemma blank_test (llmChunk : LLMService.LLMChunk) :
  negb (Str.truthy (LLMService.content llmChunk))
  || negb (Str.truthy (Str.trim (LLMService.content llmChunk)))
  = negb (notBlank llmChunk).
Proof.
  unfold notBlank. destruct (LLMService.content llmChunk); reflexivity.
Qed.

(** One turn of the loop over extracted contents: it counts the content
    when it is not blank, and it touches nothing but the map, the clock and
    the random source. *)
Lemma processNewChunk_effects (path : string) (n : nat)
  (llmChunk : LLMService.LLMChunk) (s : State) :
  fst (processNewChunk path n llmChunk s) = (if notBlank llmChunk then S n else n)
  /\ pushManager (snd (processNewChunk path n llmChunk s)) = pushManager s
  /\ saves (snd (processNewChunk path n llmChunk s)) = saves s
  /\ notices (snd (processNewChunk path n llmChunk s)) = notices s.
Proof.
  unfold processNewChunk. rewrite blank_test.
  destruct (notBlank llmChunk); simpl; repeat split.
Qed.

(** The same turn on the element as parsed: it throws on a malformed
    element, and only then. *)
Lemma newChunkTurn_effects (path : string) (n : nat) (element : JsValue) (s : State) :
  (if malformed element
   then exists error, fst (newChunkTurn path n element s) = Throw error
   else fst (newChunkTurn path n element s) = Ok (if taken element then S n else n))
  /\ pushManager (snd (newChunkTurn path n element s)) = pushManager s
  /\ saves (snd (newChunkTurn path n element s)) = saves s
  /\ notices (snd (newChunkTurn path n element s)) = notices s.
Proof.
  assert (Hstring : forall text,
    (fst (mbind (processNewChunk path n {| LLMService.content := text |})
            (fun created' => ret (Ok created')) s)
     = Ok (if Str.truthy (Str.trim text) then S n else n))
    /\ pushManager (snd (mbind (processNewChunk path n {| LLMService.content := text |})
                           (fun created' => ret (Ok created')) s)) = pushManager s
    /\ saves (snd (mbind (processNewChunk path n {| LLMService.content := text |})
                     (fun created' => ret (Ok created')) s)) = saves s
    /\ notices (snd (mbind (processNewChunk path n {| LLMService.content := text |})
                       (fun created' => ret (Ok created')) s)) = notices s).
  { intros text. unfold mbind.
    destruct (processNewChunk_effects path n {| LLMService.content := text |} s)
      as (Hn & Hp & Hs & Hm).
    destruct (processNewChunk path n _ s) as [n' s']. simpl in *.
    subst n'. now repeat split. }
  unfold newChunkTurn, malformed, taken.
  destruct element as [| |b|num|text|items|fields]; cbn [Js.prop Js.get].
  1, 2: split; [eexists; reflexivity|now repeat split].
  1, 2, 3, 4: cbn [Js.truthy Js.is_string andb negb]; now repeat split.
  destruct (Js.lookup "content" fields) as [| |b|num|text|items'|fields'];
    cbn [Js.truthy Js.is_string andb negb]; try now repeat split.
  - destruct b; cbn [andb negb]; [split; [eexists; reflexivity|]|]; now repeat split.
  - destruct num as [| | |r]; cbn [andb negb];
      try (split; [eexists; reflexivity|now repeat split]);
      try now repeat split.
    destruct (num_truthy r); cbn [andb negb];
      [split; [eexists; reflexivity|]|]; now repeat split.
  - rewrite andb_false_r. apply Hstring.
  - split; [eexists; reflexivity|now repeat split].
  - split; [eexists; reflexivity|now repeat split].
Qed.

(** The loop over extracted contents: it throws when one of them is
    malformed, and otherwise counts the contents that it takes. *)
Lemma newChunkTurns_effects (path : string) (elements : list JsValue)
  (n : nat) (s : State) :
  (if existsb malformed elements
   then exists error, fst (foldE (newChunkTurn path) elements n s) = Throw error
   else fst (foldE (newChunkTurn path) elements n s)
        = Ok (n + List.length (filter taken elements))%nat)
  /\ pushManager (snd (foldE (newChunkTurn path) elements n s)) = pushManager s
  /\ saves (snd (foldE (newChunkTurn path) elements n s)) = saves s
  /\ notices (snd (foldE (newChunkTurn path) elements n s)) = notices s.
Proof.
  revert n s. induction elements as [|e rest IH]; intros n s.
  - simpl. repeat split. f_equal. lia.
  - cbn [foldE existsb filter]. unfold mbind.
    destruct (newChunkTurn_effects path n e s) as (Hr & Hp & Hs & Hm).
    destruct (newChunkTurn path n e s) as [r s1]. cbn [fst snd] in *.
    destruct (malformed e); cbn [orb].
    + destruct Hr as [error ->]. simpl. split; [now exists error|now repeat split].
    + rewrite Hr.
      destruct (IH (if taken e then S n else n) s1) as (Hr' & Hp' & Hs' & Hm').
      rewrite Hp', Hs', Hm', Hp, Hs, Hm. split; [|now repeat split].
      destruct (existsb malformed rest); [exact Hr'|].
      rewrite Hr'. f_equal. destruct (taken e); simpl; lia.
Qed.

Lemma processDecision_effects (st : Merge)
  (decision : LLMService.IncrementalChunkDecision) (s : State) :
  pushManager (snd (processDecision st decision s)) = pushManager s
  /\ saves (snd (processDecision st decision s)) = saves s
  /\ notices (snd (processDecision st decision s)) = notices s.
Proof.
  unfold processDecision.
  destruct (findExisting _ _) as [[key chunk]|]; [|now repeat split].
  destruct (String.eqb _ "delete"); [now repeat split|].
  destruct (_ && _); [|now repeat split].
  unfold mbind.
  match goal with
  | |- context [modifyChunk ?a ?b ?c ?d] =>
      rewrite (surjective_pairing (modifyChunk a b c d)); rewrite modifyChunk_state
  end.
  now repeat split.
Qed.

Lemma decisions_effects (decisions : list LLMService.IncrementalChunkDecision)
  (st : Merge) (s : State) :
  pushManager (snd (foldM processDecision decisions st s)) = pushManager s
  /\ saves (snd (foldM processDecision decisions st s)) = saves s
  /\ notices (snd (foldM processDecision decisions st s)) = notices s.
Proof.
  revert st s. induction decisions as [|d rest IH]; intros st s; [now repeat split|].
  simpl. unfold mbind. rewrite (surjective_pairing (processDecision st d s)).
  destruct (processDecision_effects st d s) as (Hp & Hs & Hm).
  destruct (IH (fst (processDecision st d s)) (snd (processDecision st d s)))
    as (Hp' & Hs' & Hm').
  rewrite Hp', Hs', Hm', Hp, Hs, Hm. now repeat split.
Qed.

(** A turn of the loop over the decisions, on the element as parsed, is a
    turn of [processDecision] or changes nothing. *)
Lemma decisionTurn_cases (st : Merge) (element : JsValue) (s : State) :
  snd (decisionTurn st element s) = s
  \/ exists decision,
       decisionTurn st element s
       = (Ok (fst (processDecision st decision s)), snd (processDecision st decision s)).
Proof.
  unfold decisionTurn.
  destruct (existingChunks st) as [|e rest]; [now left|].
  destruct (Js.prop element "id") as [[| |b|num|text|items|fields]|error];
    try now left.
  match goal with |- context [if ?c then _ else _] => destruct c end; [now left|].
  right. exists (decisionOf element text). unfold mbind.
  now destruct (processDecision st _ s).
Qed.

Lemma decisionTurn_effects (st : Merge) (element : JsValue) (s : State) :
  pushManager (snd (decisionTurn st element s)) = pushManager s
  /\ saves (snd (decisionTurn st element s)) = saves s
  /\ notices (snd (decisionTurn st element s)) = notices s.
Proof.
  destruct (decisionTurn_cases st element s) as [->|[decision ->]];
    [now repeat split|].
  apply processDecision_effects.
Qed.

Lemma decisionTurns_effects (elements : list JsValue) (st : Merge) (s : State) :
  pushManager (snd (foldE decisionTurn elements st s)) = pushManager s
  /\ saves (snd (foldE decisionTurn elements st s)) = saves s
  /\ notices (snd (foldE decisionTurn elements st s)) = notices s.
Proof.
  revert st s. induction elements as [|e rest IH]; intros st s; [now repeat split|].
  cbn [foldE]. unfold mbind.
  destruct (decisionTurn_effects st e s) as (Hp & Hs & Hm).
  destruct (decisionTurn st e s) as [[st'|error] s1]; cbn [fst snd] in *.
  - destruct (IH st' s1) as (Hp' & Hs' & Hm').
    rewrite Hp', Hs', Hm', Hp, Hs, Hm. now repeat split.
  - now repeat split.
Qed.

(** X13.  An extraction never touches the push store: a [delete] decision
    removes the chunk from the map and leaves the pushes that are bound to
    it. *)
Theorem extraction_leaves_pushes (incremental : bool) (activeFile : option TFile)
  (settings : option Settings) (net : LLMService.RequestOutcome) (s : State) :
  pushManager (run (extractChunksFromActiveNote incremental activeFile settings net) s)
  = pushManager s.
Proof.
  unfold run, extractChunksFromActiveNote.
  destruct activeFile as [activeFile|]; [|reflexivity].
  destruct settings as [settings|]; [|reflexivity].
  destruct (negb (Str.truthy (llmApiKey settings))); [reflexivity|].
  unfold mbind, Notice, getState. cbn [fst snd chunks].
  destruct (if incremental then _ else _) as [|e rest].
  - destruct (LLMService.extractChunks _ _) as [llmChunks|error]; [|reflexivity].
    match goal with
    | |- context [foldE ?f ?l ?n ?st] =>
        destruct (newChunkTurns_effects (path activeFile) l n st) as (_ & Hp & _);
        destruct (foldE f l n st) as [[created|error] s1]
    end; cbn [fst snd] in *.
    + unfold saveChunks. cbn [fst snd].
      destruct (0 <? _)%nat; simpl; exact Hp.
    + exact Hp.
  - destruct (LLMService.extractChunksIncremental _ _) as [result|error]; [|reflexivity].
    match goal with
    | |- context [foldE decisionTurn ?l ?m ?st] =>
        destruct (decisionTurns_effects l m st) as (Hp & _);
        destruct (foldE decisionTurn l m st) as [[st'|error] s1]
    end; cbn [fst snd] in *; [|exact Hp].
    match goal with
    | |- context [foldE (newChunkTurn ?p) ?l ?n ?st] =>
        destruct (newChunkTurns_effects p l n st) as (_ & Hp' & _);
        destruct (foldE (newChunkTurn p) l n st) as [[created|error] s2]
    end; cbn [fst snd] in *; simpl; now rewrite Hp'.
Qed.

(** X14.  A first extraction for a note (the note has no chunk in the map,
    or the extraction is not incremental) that gets an array from the
    service has one of two ends.  When no element of the array is malformed
    ([null], or with a content that is truthy and no string), it saves the
    chunks once and reports the number of contents that are strings and not
    blank, or that it found none.  When an element is malformed, it does not
    save and reports that the extraction has failed. *)
Theorem first_extraction_reports (incremental : bool) (activeFile : TFile)
  (settings : Settings) (net : LLMService.RequestOutcome) (s : State)
  (llmChunks : list JsValue) :
  Str.truthy (llmApiKey settings) = true ->
  (if incremental then entriesByNotePath (path activeFile) (chunks s) else []) = [] ->
  LLMService.extractChunks (llmConfig settings) net = Ok llmChunks ->
  let s' := run (extractChunksFromActiveNote incremental (Some activeFile)
                   (Some settings) net) s in
  let created := List.length (filter taken llmChunks) in
  (existsb malformed llmChunks = false ->
   saves s' = S (saves s)
   /\ notices s'
      = List.app (notices s)
          ["Extracting chunks using LLM...";
           if (0 <? created)%nat
           then "Extracted " ++ count created ++ " chunks from " ++ name activeFile
           else "No chunks extracted. The note may be empty or too short."])
  /\ (existsb malformed llmChunks = true ->
      saves s' = saves s
      /\ exists error,
           notices s'
           = List.app (notices s)
               ["Extracting chunks using LLM...";
                "LLM extraction failed: " ++ message_of error]).
Proof.
  intros Hkey Hnone Hok.
  unfold run, extractChunksFromActiveNote. rewrite Hkey. cbn [negb].
  unfold mbind, Notice, getState. cbn [fst snd chunks]. rewrite Hnone, Hok.
  match goal with
  | |- context [foldE ?f ?l ?n ?st] =>
      destruct (newChunkTurns_effects (path activeFile) l n st) as (Hn & _ & Hs & Hm);
      destruct (foldE f l n st) as [r s1]
  end.
  cbn [fst snd saves notices] in *. cbv zeta. split; intros Hmal; rewrite Hmal in Hn.
  - rewrite Hn. unfold saveChunks. cbn [fst snd Nat.add].
    destruct (0 <? _)%nat; simpl; rewrite Hs, Hm; simpl;
      (split; [reflexivity|now rewrite <- app_assoc]).
  - destruct Hn as [error ->]. unfold extractionFailed, Notice. cbn [fst snd saves notices].
    rewrite Hs, Hm. split; [reflexivity|]. exists error. now rewrite <- app_assoc.
Qed.

(** The same turn on the element as parsed keeps the invariant on the
    content of chunks. *)
Lemma newChunkTurn_contentNonEmpty (path : string) (n : nat) (element : JsValue)
  (s : State) :
  contentNonEmpty (chunks s) ->
  contentNonEmpty (chunks (snd (newChunkTurn path n element s))).
Proof.
  intros Hinv. unfold newChunkTurn.
  destruct (Js.prop element "content") as [[| |b|num|text|items|fields]|error];
    try exact Hinv;
    try (match goal with |- context [if ?c then _ else _] => destruct c end;
         exact Hinv).
  unfold mbind.
  pose proof (processNewChunk_contentNonEmpty path n
                {| LLMService.content := text |} s Hinv) as Hnew.
  unfold run in Hnew. now destruct (processNewChunk path n _ s).
Qed.

Lemma newChunkTurns_contentNonEmpty (path : string) (elements : list JsValue)
  (n : nat) (s : State) :
  contentNonEmpty (chunks s) ->
  contentNonEmpty (chunks (snd (foldE (newChunkTurn path) elements n s))).
Proof.
  revert n s. induction elements as [|e rest IH]; intros n s Hinv; [exact Hinv|].
  cbn [foldE]. unfold mbind.
  pose proof (newChunkTurn_contentNonEmpty path n e s Hinv) as He.
  destruct (newChunkTurn path n e s) as [[n'|error] s1]; cbn [snd] in *.
  - now apply IH.
  - exact He.
Qed.

(** X15.  A first extraction for a note keeps the content of every chunk of
    the map non-empty after trimming. *)
Theorem first_extraction_keeps_content (incremental : bool) (activeFile : TFile)
  (settings : option Settings) (net : LLMService.RequestOutcome) (s : State) :
  (if incremental then entriesByNotePath (path activeFile) (chunks s) else []) = [] ->
  contentNonEmpty (chunks s) ->
  contentNonEmpty
    (chunks (run (extractChunksFromActiveNote incremental (Some activeFile)
                    settings net) s)).
Proof.
  intros Hnone Hinv.
  unfold run, extractChunksFromActiveNote.
  destruct settings as [settings|]; [|exact Hinv].
  destruct (negb (Str.truthy (llmApiKey settings))); [exact Hinv|].
  unfold mbind, Notice, getState. cbn [fst snd chunks]. rewrite Hnone.
  destruct (LLMService.extractChunks _ _) as [llmChunks|error]; [|exact Hinv].
  match goal with
  | |- context [foldE ?f ?l ?n ?st] =>
      pose proof (newChunkTurns_contentNonEmpty (path activeFile) l n st Hinv) as Hnew;
      destruct (foldE f l n st) as [[created|error] s1]
  end; cbn [fst snd] in *.
  - unfold saveChunks. cbn [fst snd]. destruct (0 <? _)%nat; exact Hnew.
  - exact Hnew.
Qed.

End ExtractionMore.

Lemma first_extraction_reports_witness :
  ChunkManager.notices
    (ChunkManager.run
       (@ChunkManager.extractChunksFromActiveNote Sample.sm2 Sample.host
          Fixtures.firstParser true (Some Fixtures.otherFile) (Some Sample.settings)
          (Sample.reply Fixtures.firstPayload)) Sample.state0)
  = ["Extracting chunks using LLM..."; "Extracted 2 chunks from other.md"].
Proof.
  apply (proj1 (@first_extraction_reports Sample.sm2 Sample.host Fixtures.firstParser
                  true Fixtures.otherFile Sample.settings
                  (Sample.reply Fixtures.firstPayload) Sample.state0
                  (map LLMService.chunkObject Fixtures.firstChunks)
                  eq_refl eq_refl eq_refl)).
  reflexivity.
Defined.

Lemma first_extraction_keeps_content_witness :
  contentNonEmpty
    (ChunkManager.chunks
       (ChunkManager.run
          (@ChunkManager.extractChunksFromActiveNote Sample.sm2 Sample.host
             Fixtures.firstParser true (Some Fixtures.otherFile) (Some Sample.settings)
             (Sample.reply Fixtures.firstPayload)) Sample.state0)).
Proof.
  apply (@first_extraction_keeps_content Sample.sm2 Sample.host Fixtures.firstParser
           true Fixtures.otherFile (Some Sample.settings)
           (Sample.reply Fixtures.firstPayload) Sample.state0).
  - reflexivity.
  - repeat constructor. discriminate.
Defined.

(** ** Creating, reviewing and listing chunks *)

Lemma num_leb_le (x y : R) : ChunkStore.num_leb x y = true <-> x <= y.
Proof.
  unfold ChunkStore.num_leb. destruct (Rle_dec x y); split; congruence.
Qed.

Section Lifecycle.

Import ChunkManager ChunkStore.

Context `{SM2Algorithm} `{Host} `{SM2Review}.

Lemma dueChunks_In (m : ChunkMap.t) (t : R) (c : Chunk) :
  In c (dueChunks m t)
  <-> In c (ChunkMap.values m) /\ dueAt c <= t /\ needsReview c = true.
Proof.
  unfold dueChunks. rewrite filter_In, andb_true_iff, num_leb_le. tauto.
Qed.

(** X16.  A new chunk has an interval that is a whole number of days of at
    least 1, whatever the importance multiplier is, is due at least a day
    after its creation, is therefore not among the due chunks of any map
    before that day is over, and carries the score that it has at the next
    reading of the clock; creating it changes no chunk of the map. *)
Theorem createNewChunk_sound (text path : string) (s : State) :
  let c := fst (createNewChunk text path s) in
  1 <= sm2IntervalDays c
  /\ (exists z : Z, sm2IntervalDays c = IZR z)
  /\ createdAt c = Date_now (clockReads s)
  /\ createdAt c + msPerDay <= dueAt c
  /\ (forall m t, t < createdAt c + msPerDay -> ~ In c (dueChunks m t))
  /\ chunkScore c = Some (computeChunkScore c (Date_now (S (clockReads s))))
  /\ chunks (snd (createNewChunk text path s)) = chunks s.
Proof.
  cbv zeta.
  assert (Hdue : createdAt (fst (createNewChunk text path s)) + msPerDay
                 <= dueAt (fst (createNewChunk text path s))).
  { simpl. pose proof (Rmax_l 1 (Math_round (1 * getImportanceMultiplier medium))).
    unfold Math_max, msPerDay in *. lra. }
  split; [apply Rmax_l|]. split; [apply Math_max_round_integer|].
  split; [reflexivity|]. split; [exact Hdue|]. split; [|split; reflexivity].
  intros m t Ht Hin. apply dueChunks_In in Hin. lra.
Qed.

(** X17.  When the clock does not go back, every chunk that [getDueChunks]
    lists is listed again by the next call of it (as long as no chunk is
    changed in between). *)
Theorem getDueChunks_monotone (s : State) (c : Chunk) :
  Date_now (clockReads s) <= Date_now (S (clockReads s)) ->
  In c (fst (getDueChunks s)) ->
  In c (fst (getDueChunks (snd (getDueChunks s)))).
Proof.
  unfold getDueChunks, mbind, now, getState, ret. simpl.
  intros Hclock Hin. apply dueChunks_In in Hin. apply dueChunks_In.
  repeat split; try tauto. lra.
Qed.

(** X18.  [reviewChunk] for a chunk of the map returns the chunk that the
    map then holds.  It leaves the id, the note path, the content, the type,
    the importance level, the review flag and the creation time of the
    chunk, writes the ease factor, the repetitions and the interval that the
    scheduler answers, stamps the review with the first reading of the
    clock, makes the chunk due the new interval after the second reading,
    gives it the score of the third reading, saves once and leaves every
    other chunk as it was. *)
Theorem reviewChunk_known (chunkId : string) (grade : R) (s : State) (chunk : Chunk) :
  ChunkMap.get chunkId (chunks s) = Some chunk ->
  let result :=
    update grade (mkParams (sm2Ef chunk) (sm2Repetitions chunk)
                    (sm2IntervalDays chunk) (importanceLevel chunk)) in
  exists c,
    fst (reviewChunk chunkId grade s) = Some c
    /\ ChunkMap.get chunkId (chunks (snd (reviewChunk chunkId grade s))) = Some c
    /\ (id c = id chunk /\ notePath c = notePath chunk /\ content c = content chunk
        /\ chunkType c = chunkType chunk /\ importanceLevel c = importanceLevel chunk
        /\ needsReview c = needsReview chunk /\ createdAt c = createdAt chunk)
    /\ (sm2Ef c = newEf result /\ sm2Repetitions c = newRepetitions result
        /\ sm2IntervalDays c = newIntervalDays result
        /\ familiarScore c = calculateFamiliarScore (familiarScore chunk) grade)
    /\ lastReviewedAt c = Some (Date_now (clockReads s))
    /\ dueAt c = Date_now (S (clockReads s)) + newIntervalDays result * msPerDay
    /\ chunkScore c = Some (computeChunkScore c (Date_now (S (S (clockReads s)))))
    /\ saves (snd (reviewChunk chunkId grade s)) = S (saves s)
    /\ (forall other, other <> chunkId ->
          ChunkMap.get other (chunks (snd (reviewChunk chunkId grade s)))
          = ChunkMap.get other (chunks s)).
Proof.
  intros Hget result. subst result.
  unfold reviewChunk, mbind, getChunk. rewrite Hget. simpl.
  eexists. split; [reflexivity|]. split.
  - apply get_mutate_same. exact (has_get _ _ _ Hget).
  - repeat split.
    + simpl. unfold msPerDay. lra.
    + intros other Hne. now apply get_mutate_other.
Qed.

End Lifecycle.

Lemma getDueChunks_monotone_witness :
  In Sample.chunkA
    (fst (@ChunkStore.getDueChunks Sample.host
            (snd (@ChunkStore.getDueChunks Sample.host Sample.state0)))).
Proof.
  apply (@getDueChunks_monotone Sample.host Sample.state0 Sample.chunkA).
  - simpl. lra.
  - unfold ChunkStore.getDueChunks, ChunkManager.mbind, ChunkManager.now,
      ChunkManager.getState, ChunkManager.ret. simpl.
    apply filter_In. split; [now left|].
    apply andb_true_iff. split; [|reflexivity].
    apply num_leb_le. simpl. lra.
Defined.

Lemma reviewChunk_known_witness :
  exists c,
    fst (@ChunkStore.reviewChunk Sample.host Fixtures.review "a" 4 Sample.state0) = Some c
    /\ lastReviewedAt c = Some (1700000000000 + INR 0)
    /\ content c = content Sample.chunkA.
Proof.
  destruct (@reviewChunk_known Sample.host Fixtures.review "a" 4 Sample.state0
              Sample.chunkA eq_refl)
    as (c & Hc & _ & (_ & _ & Hcontent & _) & _ & Hlast & _).
  exists c. repeat split; assumption.
Defined.

(** ** Cleaning up after deleted notes *)

Section CleanupFacts.

Import ChunkManager ChunkStore.

Context `{PushManager} `{Vault}.

Lemma run_forEach_app (l1 l2 : list (M unit)) (s : State) :
  run (forEach (l1 ++ l2) (fun step => step)) s
  = run (forEach l2 (fun step => step)) (run (forEach l1 (fun step => step)) s).
Proof.
  revert s. induction l1 as [|step rest IH]; intros s; [reflexivity|].
  simpl app. now rewrite !run_forEach_cons, IH.
Qed.

Lemma trace_head (steps : list (M unit)) (s : State) :
  exists rest, trace steps s = s :: rest.
Proof. destruct steps; simpl; eauto. Qed.

Lemma trace_Forall_app (P : State -> Prop) (l1 l2 : list (M unit)) (s : State) :
  Forall P (trace l1 s) ->
  Forall P (trace l2 (run (forEach l1 (fun step => step)) s)) ->
  Forall P (trace (l1 ++ l2) s).
Proof.
  revert s. induction l1 as [|step rest IH]; intros s H1 H2; [exact H2|].
  rewrite run_forEach_cons in H2. simpl app. simpl trace in *.
  inversion H1 as [|? ? Hs Hrest]; subst.
  constructor; [exact Hs|]. now apply IH.
Qed.

(** The first phase: the pushes of each key are deleted, and the map stays. *)
Lemma pushes_phase_chunks (ids : list string) (s : State) :
  Forall (fun st => chunks st = chunks s)
    (trace (map (fun chunkId => setPushManager (deletePushesForChunk chunkId)) ids) s).
Proof.
  revert s. induction ids as [|k rest IH]; intros s; simpl.
  - now constructor.
  - constructor; [reflexivity|].
    specialize (IH (run (setPushManager (deletePushesForChunk k)) s)).
    exact IH.
Qed.

(** The second phase and the save: the chunks go, and the push store stays. *)
Lemma chunks_phase_pushes (ids : list string) (s : State) :
  Forall (fun st => pushManager st = pushManager s)
    (trace (map (fun chunkId => setChunks (ChunkMap.delete chunkId)) ids ++ [saveChunks]) s).
Proof.
  revert s. induction ids as [|k rest IH]; intros s; simpl.
  - repeat constructor.
  - constructor; [reflexivity|].
    exact (IH (run (setChunks (ChunkMap.delete k)) s)).
Qed.

Lemma filter_all {A : Type} (p : A -> bool) (l : list A) :
  (forall a, p a = true) -> filter p l = l.
Proof.
  intros Hp. induction l as [|a l IH]; simpl; [reflexivity|]. now rewrite Hp, IH.
Qed.

Lemma chunks_phase_result (ids : list string) (s : State) :
  chunks (run (forEach (map (fun chunkId => setChunks (ChunkMap.delete chunkId)) ids)
                 (fun step => step)) s)
  = filter (fun e => negb (existsb (String.eqb (fst e)) ids)) (chunks s)
  /\ pushManager (run (forEach (map (fun chunkId => setChunks (ChunkMap.delete chunkId)) ids)
                         (fun step => step)) s) = pushManager s
  /\ saves (run (forEach (map (fun chunkId => setChunks (ChunkMap.delete chunkId)) ids)
                   (fun step => step)) s) = saves s
  /\ notices (run (forEach (map (fun chunkId => setChunks (ChunkMap.delete chunkId)) ids)
                     (fun step => step)) s) = notices s
  /\ clockReads (run (forEach (map (fun chunkId => setChunks (ChunkMap.delete chunkId)) ids)
                        (fun step => step)) s) = clockReads s
  /\ randomDraws (run (forEach (map (fun chunkId => setChunks (ChunkMap.delete chunkId)) ids)
                         (fun step => step)) s) = randomDraws s.
Proof.
  revert s. induction ids as [|k rest IH]; intros s.
  - unfold run. simpl. split; [|now repeat split].
    symmetry. now apply filter_all.
  - simpl map. rewrite run_forEach_cons.
    destruct (IH (run (setChunks (ChunkMap.delete k)) s)) as (Hc & Hp & Hs & Hn & Hk & Hr).
    rewrite Hc, Hp, Hs, Hn, Hk, Hr. repeat split.
    unfold run, setChunks, ChunkMap.delete. simpl.
    induction (chunks s) as [|e m IHm]; simpl; [reflexivity|].
    rewrite (String.eqb_sym (fst e) k).
    destruct (String.eqb k (fst e)); simpl; [exact IHm|].
    destruct (existsb _ rest); simpl; [exact IHm|]. now rewrite IHm.
Qed.

Lemma pushes_phase_result (ids : list string) (s : State) :
  chunks (run (forEach (map (fun chunkId => setPushManager (deletePushesForChunk chunkId)) ids)
                 (fun step => step)) s) = chunks s
  /\ saves (run (forEach (map (fun chunkId => setPushManager (deletePushesForChunk chunkId)) ids)
                   (fun step => step)) s) = saves s
  /\ notices (run (forEach (map (fun chunkId => setPushManager (deletePushesForChunk chunkId)) ids)
                     (fun step => step)) s) = notices s
  /\ clockReads (run (forEach (map (fun chunkId => setPushManager (deletePushesForChunk chunkId)) ids)
                        (fun step => step)) s) = clockReads s
  /\ randomDraws (run (forEach (map (fun chunkId => setPushManager (deletePushesForChunk chunkId)) ids)
                         (fun step => step)) s) = randomDraws s.
Proof.
  revert s. induction ids as [|k rest IH]; intros s; [now repeat split|].
  simpl map. rewrite run_forEach_cons.
  destruct (IH (run (setPushManager (deletePushesForChunk k)) s)) as (Hc & Hs & Hn & Hk & Hr).
  rewrite Hc, Hs, Hn, Hk, Hr. now repeat split.
Qed.

(** In a map with distinct keys, the keys collected are the keys of the
    chunks whose note is gone. *)
Lemma collected_keys (m : ChunkMap.t) (e : string * Chunk) :
  NoDup (ChunkMap.keys m) -> In e m ->
  existsb (String.eqb (fst e)) (chunksToDelete m) = noteIsGone (snd e).
Proof.
  intros Hnd Hin. unfold chunksToDelete, ChunkMap.keys.
  destruct (noteIsGone (snd e)) eqn:Hgone.
  - apply existsb_exists. exists (fst e). split; [|apply String.eqb_refl].
    apply in_map. apply filter_In. now split.
  - destruct (existsb _ _) eqn:Hex; [|reflexivity].
    apply existsb_exists in Hex. destruct Hex as (k & Hk & Heq).
    apply String.eqb_eq in Heq. subst k.
    apply in_map_iff in Hk. destruct Hk as ([k' c'] & Hfst & Hin').
    apply filter_In in Hin'. destruct Hin' as [Hin' Hgone']. simpl in *.
    destruct e as [k c]. simpl in *. subst k'.
    assert (c' = c).
    { pose proof (get_In _ _ _ Hnd Hin) as G1.
      pose proof (get_In _ _ _ Hnd Hin') as G2. congruence. }
    subst. congruence.
Qed.

Lemma filter_ext_In_entries (p q : string * Chunk -> bool) (m : ChunkMap.t) :
  (forall e, In e m -> p e = q e) -> filter p m = filter q m.
Proof.
  intros Hpq. induction m as [|e m IH]; simpl; [reflexivity|].
  rewrite (Hpq e) by now left. rewrite IH; [reflexivity|].
  intros e' He'. apply Hpq. now right.
Qed.

(** X19.  [cleanupDeletedNotes] keeps, in their order, the chunks that name
    no note or a note that the vault has, and deletes the others: after it
    every chunk of the map names no note or a note that is there.  When no
    note is gone it changes nothing and does not save. *)
Theorem cleanupDeletedNotes_result (s : State) :
  (NoDup (ChunkMap.keys (chunks s)) ->
   chunks (run cleanupDeletedNotes s)
   = filter (fun e => negb (noteIsGone (snd e))) (chunks s)
   /\ forall k c, In (k, c) (chunks (run cleanupDeletedNotes s)) ->
        notePath c = "" \/ getAbstractFileByPath (notePath c) = true)
  /\ (chunksToDelete (chunks s) = [] -> run cleanupDeletedNotes s = s)
  /\ (chunksToDelete (chunks s) <> [] -> saves (run cleanupDeletedNotes s) = S (saves s)).
Proof.
  assert (Hrun : run cleanupDeletedNotes s
                 = run (forEach (cleanup_steps (chunksToDelete (chunks s)))
                          (fun step => step)) s) by reflexivity.
  assert (Hchunks : chunksToDelete (chunks s) <> [] ->
            chunks (run cleanupDeletedNotes s)
            = filter (fun e => negb (existsb (String.eqb (fst e)) (chunksToDelete (chunks s))))
                (chunks s)
            /\ saves (run cleanupDeletedNotes s) = S (saves s)).
  { intros Hne. rewrite Hrun. unfold cleanup_steps.
    destruct (chunksToDelete (chunks s)) as [|k ids] eqn:Hids; [congruence|].
    rewrite !run_forEach_app.
    set (ids' := k :: ids).
    set (s1 := run (forEach (map (fun chunkId => setPushManager (deletePushesForChunk chunkId)) ids')
                      (fun step => step)) s).
    destruct (pushes_phase_result ids' s) as (Hc & Hs & _).
    destruct (chunks_phase_result ids' s1) as (Hc' & _ & Hs' & _).
    fold s1 in Hc, Hs.
    change (chunks (run (forEach [saveChunks] (fun step => step)) ?x)) with (chunks x).
    change (saves (run (forEach [saveChunks] (fun step => step)) ?x)) with (S (saves x)).
    rewrite Hc', Hs', Hc, Hs. now split. }
  split; [|split].
  - intros Hnd.
    assert (Hfilter : chunks (run cleanupDeletedNotes s)
                      = filter (fun e => negb (noteIsGone (snd e))) (chunks s)).
    { destruct (chunksToDelete (chunks s)) as [|k ids] eqn:Hids.
      - rewrite Hrun. try rewrite Hids. simpl.
        rewrite (filter_ext_In_entries (fun e => negb (noteIsGone (snd e)))
                   (fun _ => true)).
        + symmetry. now apply filter_all.
        + intros e He. rewrite <- (collected_keys _ _ Hnd He), Hids. reflexivity.
      - destruct Hchunks as [-> _]; [congruence|].
        apply filter_ext_In_entries. intros e He.
        now rewrite <- Hids, (collected_keys _ _ Hnd He). }
    split; [exact Hfilter|].
    intros k c Hin. rewrite Hfilter in Hin. apply filter_In in Hin.
    destruct Hin as [_ Hkeep]. unfold noteIsGone in Hkeep. simpl in Hkeep.
    destruct (notePath c) as [|a rest]; [now left|]. right.
    simpl in Hkeep. now apply negb_true_iff, negb_false_iff in Hkeep.
  - intros Hnone. rewrite Hrun, Hnone. reflexivity.
  - intros Hne. now apply Hchunks.
Qed.

End CleanupFacts.

Section CleanupOrder.

Import ChunkManager ChunkStore.

Context `{PushManager} `{Vault}.

Lemma get_of_In (k : string) (c : Chunk) (m : ChunkMap.t) :
  In (k, c) m -> ChunkMap.get k m <> None.
Proof.
  induction m as [|[k' c'] m IH]; simpl; [tauto|].
  intros [[= -> ->]|Hin].
  - now rewrite String.eqb_refl.
  - destruct (String.eqb k k'); [discriminate|now apply IH].
Qed.

Lemma collected_are_keys (m : ChunkMap.t) (k : string) :
  In k (chunksToDelete m) -> ChunkMap.get k m <> None.
Proof.
  unfold chunksToDelete, ChunkMap.keys. intros Hin.
  apply in_map_iff in Hin. destruct Hin as ([k' c] & Hk & Hin). simpl in Hk. subst k'.
  apply filter_In in Hin. now apply (get_of_In k c).
Qed.

Lemma noPushReferences_pushManager (chunkId : string) (s s' : State) :
  pushManager s' = pushManager s ->
  noPushReferences chunkId s -> noPushReferences chunkId s'.
Proof. unfold noPushReferences. now intros ->. Qed.

Section Contract.

Hypothesis deletes :
  forall cid store, Push.referencing cid (deletePushesForChunk cid store) = [].
Hypothesis brings_none_back :
  forall cid cid' store,
    Push.referencing cid' store = [] ->
    Push.referencing cid' (deletePushesForChunk cid store) = [].

Lemma push_step_keeps (k chunkId : string) (s : State) :
  noPushReferences chunkId s ->
  noPushReferences chunkId (run (setPushManager (deletePushesForChunk k)) s).
Proof.
  unfold noPushReferences, run, setPushManager. simpl.
  destruct (pushManager s); simpl; [apply brings_none_back|trivial].
Qed.

Lemma push_steps_keep (ids : list string) (chunkId : string) (s : State) :
  noPushReferences chunkId s ->
  noPushReferences chunkId
    (run (forEach (map (fun k => setPushManager (deletePushesForChunk k)) ids)
            (fun step => step)) s).
Proof.
  revert s. induction ids as [|k rest IH]; intros s Hs; [exact Hs|].
  simpl map. rewrite run_forEach_cons. apply IH. now apply push_step_keeps.
Qed.

Lemma push_steps_clean (ids : list string) (chunkId : string) (s : State) :
  In chunkId ids ->
  noPushReferences chunkId
    (run (forEach (map (fun k => setPushManager (deletePushesForChunk k)) ids)
            (fun step => step)) s).
Proof.
  revert s. induction ids as [|k rest IH]; intros s Hin; [contradiction|].
  simpl map. rewrite run_forEach_cons. destruct Hin as [-> |Hin].
  - apply push_steps_keep. unfold noPushReferences, run, setPushManager. simpl.
    destruct (pushManager s); simpl; [apply deletes|trivial].
  - now apply IH.
Qed.

Lemma cleanup_order (s : State) :
  cleanupCascadesFirst s
  /\ forall chunkId, In chunkId (chunksToDelete (chunks s)) ->
       noPushReferences chunkId (run cleanupDeletedNotes s).
Proof.
  unfold cleanupCascadesFirst.
  change (run cleanupDeletedNotes s)
    with (run (forEach (cleanup_steps (chunksToDelete (chunks s))) (fun step => step)) s).
  pose proof (collected_are_keys (chunks s)) as Hkeys.
  unfold cleanup_steps.
  destruct (chunksToDelete (chunks s)) as [|k ids]; [split; [|contradiction]|].
  { simpl. constructor; [|constructor]. intros chunkId []. }
  set (ids' := k :: ids) in *.
  set (A := map (fun chunkId => setPushManager (deletePushesForChunk chunkId)) ids').
  set (B := (map (fun chunkId => setChunks (ChunkMap.delete chunkId)) ids' ++ [saveChunks])%list).
  set (sA := run (forEach A (fun step => step)) s).
  assert (Hclean : forall chunkId, In chunkId ids' -> noPushReferences chunkId sA)
    by (intros chunkId Hin; now apply push_steps_clean).
  split.
  - apply trace_Forall_app.
    + eapply Forall_impl; [|apply pushes_phase_chunks].
      intros st Hst chunkId Hin Hgone. rewrite Hst in Hgone.
      now apply Hkeys in Hin.
    + eapply Forall_impl; [|apply chunks_phase_pushes].
      intros st Hst chunkId Hin _. fold sA in Hst.
      apply (noPushReferences_pushManager _ sA); auto.
  - intros chunkId Hin. rewrite run_forEach_app. fold sA.
    destruct (trace_ends B sA) as [before Hb].
    pose proof (chunks_phase_pushes ids' sA) as Hall. fold B in Hall.
    rewrite Hb in Hall. apply Forall_app in Hall. destruct Hall as [_ Hlast].
    inversion Hlast as [|? ? Hp _]; subst.
    apply (noPushReferences_pushManager _ sA); auto.
Qed.

End Contract.

(** X20.  [cleanupDeletedNotes] deletes the pushes before the chunks.  Given
    a push manager whose [deletePushesForChunk] leaves no push bound to the
    chunk and brings none back for another chunk, in no state on the way is
    a chunk gone from the map while a push is bound to it, and at the end no
    push is bound to a chunk that was deleted. *)
Theorem cleanupDeletedNotes_deletes_pushes_first (s : State) :
  (forall cid store, Push.referencing cid (deletePushesForChunk cid store) = []) ->
  (forall cid cid' store,
      Push.referencing cid' store = [] ->
      Push.referencing cid' (deletePushesForChunk cid store) = []) ->
  cleanupCascadesFirst s
  /\ forall chunkId, In chunkId (chunksToDelete (chunks s)) ->
       noPushReferences chunkId (run cleanupDeletedNotes s).
Proof. intros Hd Hb. now apply cleanup_order. Qed.

End CleanupOrder.

Lemma filter_filter_empty {A : Type} (p q : A -> bool) (l : list A) :
  filter p l = [] -> filter p (filter q l) = [].
Proof.
  induction l as [|a l IH]; simpl; [reflexivity|].
  destruct (p a) eqn:Hp; [discriminate|]. intros Hl.
  destruct (q a); simpl; [rewrite Hp|]; now apply IH.
Qed.

Lemma cleanupDeletedNotes_deletes_pushes_first_witness :
  @ChunkStore.cleanupCascadesFirst Sample.pushManager Fixtures.vault Fixtures.twoNotes
  /\ ChunkManager.noPushReferences "b"
       (ChunkManager.run
          (@ChunkStore.cleanupDeletedNotes Sample.pushManager Fixtures.vault)
          Fixtures.twoNotes).
Proof.
  destruct (@cleanupDeletedNotes_deletes_pushes_first Sample.pushManager Fixtures.vault
              Fixtures.twoNotes) as [Hfirst Hend].
  - intros cid store. apply Push_deletePushesForChunk_contract.
  - intros cid cid' store Hnone. unfold Push.referencing. simpl.
    now apply filter_filter_empty.
  - split; [exact Hfirst|]. apply Hend. now left.
Defined.

Lemma cleanupDeletedNotes_result_witness :
  ChunkManager.chunks
    (ChunkManager.run (@ChunkStore.cleanupDeletedNotes Sample.pushManager Fixtures.vault)
       Fixtures.twoNotes)
  = [("a", Sample.chunkA)].
Proof.
  destruct (@cleanupDeletedNotes_result Sample.pushManager Fixtures.vault Fixtures.twoNotes)
    as [Hres _].
  destruct Hres as [-> _].
  - repeat constructor; simpl; intuition discriminate.
  - reflexivity.
Defined.

(** ** Loading what was saved *)

Section Loading.

Import ChunkManager ChunkStore.

Context `{Host}.

Lemma set_fresh (k : string) (c : Chunk) (m : ChunkMap.t) :
  ~ In k (ChunkMap.keys m) -> ChunkMap.set k c m = (m ++ [(k, c)])%list.
Proof.
  unfold ChunkMap.keys. induction m as [|[k' c'] m IH]; simpl; [reflexivity|].
  intros Hn. destruct (String.eqb k k') eqn:E.
  - apply String.eqb_eq in E. subst. tauto.
  - rewrite IH; [reflexivity|tauto].
Qed.

Lemma run_forEach_body {A : Type} (a : A) (l : list A) (body : A -> M unit)
  (s : State) :
  run (forEach (a :: l) body) s = run (forEach l body) (snd (body a s)).
Proof.
  unfold run. simpl. unfold mbind. now destruct (body a s) as [[] s'].
Qed.

(** An entry that [persistChunks] wrote for a chunk with a creation time
    loads as that chunk, without a reading of the clock. *)
Lemma loadEntry_stored (k : string) (c : Chunk) (s : State) :
  createdAt c <> 0 ->
  loadEntry (k, stored c) s
  = (tt, mkState (ChunkMap.set k c (chunks s)) (pushManager s) (saves s) (notices s)
           (clockReads s) (randomDraws s)).
Proof.
  intros Hc. unfold loadEntry, stored. simpl.
  apply num_truthy_true in Hc. rewrite Hc. unfold mbind, ret, setChunks. simpl.
  destruct c as [? ? ? [] ? ? ? ? ? ? ? ? ? ?]. reflexivity.
Qed.

Lemma load_stored (l m0 : ChunkMap.t) (s : State) :
  NoDup (ChunkMap.keys (m0 ++ l)%list) ->
  (forall k c, In (k, c) l -> createdAt c <> 0) ->
  chunks s = m0 ->
  run (forEach (map (fun e => (fst e, stored (snd e))) l) loadEntry) s
  = mkState (m0 ++ l)%list (pushManager s) (saves s) (notices s) (clockReads s)
      (randomDraws s).
Proof.
  revert m0 s. induction l as [|[k c] l IH]; intros m0 s Hnd Hcreated Hs.
  - unfold run. simpl. rewrite app_nil_r, <- Hs. now destruct s.
  - cbn [map fst snd]. rewrite run_forEach_body.
    rewrite loadEntry_stored by (apply (Hcreated k c); now left).
    cbn [snd]. rewrite (IH (m0 ++ [(k, c)])%list).
    + simpl. now rewrite <- app_assoc.
    + now rewrite <- app_assoc.
    + intros k' c' Hin. apply (Hcreated k' c'). now right.
    + simpl. rewrite Hs. apply set_fresh.
      unfold ChunkMap.keys in *. rewrite map_app in Hnd. simpl in Hnd.
      apply NoDup_remove_2 in Hnd. intros Hin. apply Hnd. apply in_or_app. now left.
Qed.

(** X21.  What [persistChunks] writes, [loadChunks] reads back: loading the
    saved entries of a map into a manager without chunks gives that map,
    chunk for chunk and in the same order, without a reading of the clock,
    provided every chunk has a creation time other than 0 (the keys of a map
    are distinct). *)
Theorem loadChunks_persistChunks (m : ChunkMap.t) (s : State) :
  NoDup (ChunkMap.keys m) ->
  (forall k c, In (k, c) m -> createdAt c <> 0) ->
  chunks s = [] ->
  run (loadChunks (persistChunks m)) s
  = mkState m (pushManager s) (saves s) (notices s) (clockReads s) (randomDraws s).
Proof.
  intros Hnd Hcreated Hs. unfold loadChunks, persistChunks, getStoredChunkEntries.
  now apply (load_stored m []).
Qed.

End Loading.

Lemma loadChunks_persistChunks_witness :
  ChunkManager.chunks
    (ChunkManager.run
       (@ChunkStore.loadChunks Sample.host
          (ChunkStore.persistChunks (ChunkManager.chunks Fixtures.twoNotes)))
       Fixtures.empty)
  = ChunkManager.chunks Fixtures.twoNotes.
Proof.
  rewrite (@loadChunks_persistChunks Sample.host (ChunkManager.chunks Fixtures.twoNotes)
             Fixtures.empty).
  - reflexivity.
  - repeat constructor; simpl; intuition discriminate.
  - intros k c [[= <- <-]|[[= <- <-]|[]]]; simpl; lra.
  - reflexivity.
Defined.

(** ** More on the language-model service *)

Section ServiceMore.

Import LLMService.

Context `{JsonParser} `{JsRuntime}.

Lemma catching_Ok {A : Type} (pre : string) (config : LLMConfig) (body : Result A) (a : A) :
  catching pre config body = Ok a <-> body = Ok a.
Proof. destruct body; simpl; split; congruence. Qed.

Lemma bind_Ok {A B : Type} (r : Result A) (k : A -> Result B) (b : B) :
  bind r k = Ok b <-> exists a, r = Ok a /\ k a = Ok b.
Proof.
  destruct r as [a|t]; simpl; split.
  - intros Hk. now exists a.
  - now intros (a' & [= <-] & Hk).
  - discriminate.
  - intros (a' & Hr & _). discriminate.
Qed.

Lemma parsing_Ok {A : Type} (p : string + A) (a : A) :
  parsing p = Ok a <-> p = inr a.
Proof. destruct p; simpl; split; congruence. Qed.

(** When the request gives a content: the answer has a status from 200 to
    299, and the message of its first choice has a content that is not
    empty. *)
Lemma completionContent_Ok (net : RequestOutcome) (content : string) :
  completionContent net = Ok content
  <-> exists response data choice rest message,
        net = Resolves response
        /\ is2xx response = true
        /\ json response = Some data
        /\ choices data = Some (choice :: rest)
        /\ choice_message choice = Some message
        /\ message_content message = Some content
        /\ content <> "".
Proof.
  unfold completionContent. split.
  - destruct net as [t|response]; [discriminate|].
    destruct (is2xx response) eqn:Hst; simpl; [|discriminate].
    destruct (json response) as [data|] eqn:Hjson; [|discriminate].
    destruct (choices data) as [[|[[message|]] rest]|] eqn:Hch; try discriminate.
    destruct (message_content message) as [c|] eqn:Hc; [|discriminate].
    destruct (Str.truthy c) eqn:Ht; [|discriminate].
    intros [= <-]. exists response, data, (mkChoice (Some message)), rest, message.
    repeat split; try assumption. now apply truthy_nonempty.
  - intros (response & data & [m] & rest & message & -> & Hst & Hjson & Hch & Hm & Hc & Hne).
    simpl in Hm. subst m.
    rewrite Hst, Hjson, Hch, Hc. simpl.
    apply truthy_nonempty in Hne. now rewrite Hne.
Qed.

(** A property can be read of every value but [null] and [undefined]. *)
Lemma prop_Ok (v : JsValue) (k : string) (field : JsValue) :
  Js.prop v k = Ok field <-> v <> JsNull /\ v <> JsUndefined /\ field = Js.get v k.
Proof.
  destruct v; simpl; split;
    try discriminate; try (intros (Hn & Hu & _); congruence);
    try (intros [= <-]; repeat split; discriminate);
    try (intros (_ & _ & ->); reflexivity).
Qed.

(** X22.  The two extraction methods return a result exactly when there is
    an API key, the request gives a content, the content parses to a value
    other than [null], and each field that the method reads of it is an
    array or falsy; a falsy field counts as the empty array, and what is
    returned is the arrays as parsed.  The request gives a content exactly
    when its status is from 200 to 299 and the message of its first choice
    has a content that is not empty. *)
Theorem extraction_succeeds_iff (config : LLMConfig) (net : RequestOutcome) :
  (forall chunks,
      extractChunks config net = Ok chunks
      <-> apiKey config <> ""
          /\ exists content parsed,
               completionContent net = Ok content
               /\ JSON_parse content = inr parsed
               /\ parsed <> JsNull /\ parsed <> JsUndefined
               /\ Js.or_else (Js.get parsed "chunks") (JsArray []) = JsArray chunks)
  /\ (forall result,
        extractChunksIncremental config net = Ok result
        <-> apiKey config <> ""
            /\ exists content parsed,
                 completionContent net = Ok content
                 /\ JSON_parse content = inr parsed
                 /\ parsed <> JsNull /\ parsed <> JsUndefined
                 /\ Js.or_else (Js.get parsed "existing_chunks") (JsArray [])
                    = JsArray (existing_chunks result)
                 /\ Js.or_else (Js.get parsed "new_chunks") (JsArray [])
                    = JsArray (new_chunks result))
  /\ (forall content,
        completionContent net = Ok content
        <-> exists response data choice rest message,
              net = Resolves response
              /\ is2xx response = true
              /\ json response = Some data
              /\ choices data = Some (choice :: rest)
              /\ choice_message choice = Some message
              /\ message_content message = Some content
              /\ content <> "").
Proof.
  split; [|split; [|apply completionContent_Ok]].
  - intros chunks. unfold extractChunks. rewrite <- truthy_nonempty.
    destruct (Str.truthy (apiKey config)); simpl.
    + rewrite catching_Ok, bind_Ok. split.
      * intros (content & Hc & Hrest). apply bind_Ok in Hrest.
        destruct Hrest as (parsed & Hp & Hrest). apply parsing_Ok in Hp.
        apply bind_Ok in Hrest. destruct Hrest as (field & Hfield & Hf).
        apply prop_Ok in Hfield. destruct Hfield as (Hn & Hu & ->).
        split; [reflexivity|]. exists content, parsed. repeat split; try assumption.
        destruct (Js.or_else _ _); congruence.
      * intros (_ & content & parsed & Hc & Hp & Hn & Hu & Hf).
        exists content. split; [exact Hc|].
        apply bind_Ok. exists parsed. split; [now apply parsing_Ok|].
        apply bind_Ok. exists (Js.get parsed "chunks").
        split; [now apply prop_Ok|]. now rewrite Hf.
    + split; [discriminate|]. intros [Hk _]. discriminate.
  - intros result. unfold extractChunksIncremental. rewrite <- truthy_nonempty.
    destruct (Str.truthy (apiKey config)); simpl.
    + rewrite catching_Ok, bind_Ok. split.
      * intros (content & Hc & Hrest). apply bind_Ok in Hrest.
        destruct Hrest as (parsed & Hp & Hrest). apply parsing_Ok in Hp.
        apply bind_Ok in Hrest. destruct Hrest as (existing & Hexisting & Hrest).
        apply prop_Ok in Hexisting. destruct Hexisting as (Hn & Hu & ->).
        apply bind_Ok in Hrest. destruct Hrest as (new & Hnew & Hf).
        apply prop_Ok in Hnew. destruct Hnew as (_ & _ & ->).
        split; [reflexivity|]. exists content, parsed.
        destruct (Js.or_else (Js.get parsed "existing_chunks") _); try discriminate.
        destruct (Js.or_else (Js.get parsed "new_chunks") _); try discriminate.
        injection Hf as <-. now repeat split.
      * intros (_ & content & parsed & Hc & Hp & Hn & Hu & He & Hnew). exists content.
        split; [exact Hc|]. apply bind_Ok. exists parsed.
        split; [now apply parsing_Ok|].
        apply bind_Ok. exists (Js.get parsed "existing_chunks").
        split; [now apply prop_Ok|].
        apply bind_Ok. exists (Js.get parsed "new_chunks").
        split; [now apply prop_Ok|].
        rewrite He, Hnew. now destruct result.
    + split; [discriminate|]. intros [Hk _]. discriminate.
Qed.
Lemma rethrown_shape (pre : string) (config : LLMConfig) (t : Thrown) :
  exists msg,
    rethrown pre config t = newError msg
    /\ (msg = "Request timeout. Please check your network connection or try again."
        \/ msg = "Network error: Cannot connect to " ++ normalizedApiBase config
                  ++ ". Please check your network connection and API endpoint."
        \/ exists detail, msg = pre ++ detail).
Proof.
  destruct t as [e|shown]; simpl.
  - destruct (_ || _); [eauto|]. destruct (_ || _); eauto 6.
  - eauto 6.
Qed.

Lemma catching_Throw {A : Type} (pre : string) (config : LLMConfig) (body : Result A)
  (error : Thrown) :
  catching pre config body = Throw error ->
  exists t, error = rethrown pre config t.
Proof. destruct body; simpl; [discriminate|]. intros [= <-]. eauto. Qed.

(** X23.  Whatever goes wrong in one of the two extraction methods, what it
    throws is an [Error] whose message is the one for a missing API key,
    the one for a timeout, the one for a network error with the base of the
    API in it, or the prefix of the method followed by the detail; a value
    that the request rejected with never gets out as it is. *)
Theorem extraction_errors_are_wrapped (config : LLMConfig) (net : RequestOutcome)
  (error : Thrown) :
  extractChunks config net = Throw error
  \/ extractChunksIncremental config net = Throw error ->
  exists msg,
    error = newError msg
    /\ (msg = "LLM API key not configured"
        \/ msg = "Request timeout. Please check your network connection or try again."
        \/ msg = "Network error: Cannot connect to " ++ normalizedApiBase config
                  ++ ". Please check your network connection and API endpoint."
        \/ (exists detail, msg = "Failed to extract chunks: " ++ detail)
        \/ (exists detail, msg = "Failed to extract chunks incrementally: " ++ detail)).
Proof.
  unfold extractChunks, extractChunksIncremental.
  destruct (negb (Str.truthy (apiKey config))).
  - intros [[= <-]|[= <-]]; eauto.
  - intros [Hthrow|Hthrow]; apply catching_Throw in Hthrow;
      destruct Hthrow as [t ->];
      match goal with
      | |- context [rethrown ?pre _ _] =>
          destruct (rethrown_shape pre config t) as (msg & -> & [-> |[-> |Hd]])
      end; eauto 8.
Qed.


(** X24.  [generatePushQuestion] returns a question exactly when the reply
    parses and has a question that is not the empty string; what it returns
    is that question trimmed, so that a question of white space only comes
    back as the empty string. *)
Theorem generatePushQuestion_result (config : LLMConfig) (net : RequestOutcome) :
  (forall q,
      Tutor.generatePushQuestion config net = Ok q
      <-> exists result asked,
            callJsonPrompt config net = Ok result
            /\ question result = Some asked
            /\ asked <> ""
            /\ q = Str.trim asked)
  /\ (forall result asked,
        callJsonPrompt config net = Ok result ->
        question result = Some asked ->
        asked <> "" ->
        Str.trim asked = "" ->
        Tutor.generatePushQuestion config net = Ok "")
  /\ (forall result,
        callJsonPrompt config net = Ok result ->
        question result = None \/ question result = Some "" ->
        Tutor.generatePushQuestion config net
        = Throw (newError "LLM did not return a valid question")).
Proof.
  unfold Tutor.generatePushQuestion. split; [|split].
  - intros q. rewrite bind_Ok. split.
    + intros (result & Hcall & Hq). exists result.
      destruct (question result) as [asked|]; [|discriminate].
      simpl in Hq. destruct (Str.truthy asked) eqn:Ht; [|discriminate].
      injection Hq as <-. exists asked. repeat split; try assumption.
      now apply truthy_nonempty.
    + intros (result & asked & Hcall & Hq & Hne & ->). exists result.
      split; [exact Hcall|]. rewrite Hq. simpl.
      apply truthy_nonempty in Hne. now rewrite Hne.
  - intros result asked Hcall Hq Hne Hblank. rewrite Hcall. simpl. rewrite Hq. simpl.
    apply truthy_nonempty in Hne. now rewrite Hne, Hblank.
  - intros result Hcall [Hq|Hq]; rewrite Hcall; simpl; now rewrite Hq.
Qed.

(** X25.  For a reply with an answer text whose evaluation, if it has one,
    has a grade and a confidence that are no objects (each is missing,
    [null], a boolean, a number or a string), [generatePushResponse]
    returns: the answer trimmed, whether the session ends, and an evaluation
    exactly when the reply holds an object or an array under [evaluation].
    An array there is taken for an evaluation, with the grade 3, no
    recommendation and no confidence.  A reply without an answer text makes
    it throw.  (The conditions on the grade and the confidence keep
    [Number] from calling a method of the reply, which is where the source
    could throw and [Js.Number] does not.) *)
Theorem generatePushResponse_returns (config : LLMConfig) (net : RequestOutcome)
  (result : JsonPromptResult) :
  callJsonPrompt config net = Ok result ->
  (forall answer,
      response result = Some answer -> answer <> "" ->
      Js.is_primitive (Js.get (evaluation result) "grade") = true ->
      Js.is_primitive (Js.get (evaluation result) "confidence") = true ->
      exists r,
        generatePushResponse config net = Ok r
        /\ result_response r = Str.trim answer
        /\ shouldEnd r = Js.truthy (should_end result)
        /\ (result_evaluation r <> None
            <-> (exists items, evaluation result = JsArray items)
                \/ (exists fields, evaluation result = JsObject fields))
        /\ (forall items,
              evaluation result = JsArray items ->
              result_evaluation r
              = Some {| grade := JsNum.Fin 3;
                        recommendation := JsString "";
                        confidence := None |}))
  /\ (response result = None \/ response result = Some "" ->
      generatePushResponse config net
      = Throw (newError "LLM response missing answer text")).
Proof.
  intros Hcall. unfold generatePushResponse. rewrite Hcall. unfold bind. split.
  - intros answer Hresp Hne _ _. rewrite Hresp. simpl Str.truthy_opt.
    apply truthy_nonempty in Hne. rewrite Hne. cbn [negb].
    eexists. split; [reflexivity|]. cbn [result_response shouldEnd result_evaluation].
    split; [reflexivity|]. split; [reflexivity|]. split.
    + unfold evaluationObject.
      destruct (evaluation result) as [| |b|n|str|items|fields]; simpl;
        try (split; [congruence|intros [[x Hx]|[x Hx]]; discriminate]).
      * destruct b; simpl; split; try congruence; intros [[x Hx]|[x Hx]]; discriminate.
      * destruct n as [| | |r]; simpl; try destruct (num_truthy r); simpl;
          split; try congruence; intros [[x Hx]|[x Hx]]; discriminate.
      * destruct (Str.truthy str); simpl;
          split; try congruence; intros [[x Hx]|[x Hx]]; discriminate.
      * split; [eauto|discriminate].
      * split; [eauto|discriminate].
    + intros items Hitems. unfold evaluationObject, parseGrade. rewrite Hitems.
      reflexivity.
  - intros [Hresp|Hresp]; rewrite Hresp; reflexivity.
Qed.

End ServiceMore.

(** ** The settings *)

Section SettingsFacts.

Import Plugin.

Lemma assignSettings_all (defaults s : MemoAISettings) :
  assignSettings defaults (allSettings s) = s.
Proof. now destruct s. Qed.

(** X26.  [loadSettings] gives every setting a value, the stored one where
    there is one and the default otherwise, stores these settings under the
    key [settings] of the data that it saves, and keeps the chunks, pushes
    and messages of the stored data.  Data in the layout of older versions
    (no key [settings]) is read as a whole for the settings, so that the
    settings saved carry a copy of the stored chunks, pushes and messages;
    a settings object that carries such keys keeps them.  Loading what was
    saved gives the same settings and the same data again.  Without stored
    data the settings are the defaults. *)
Theorem loadSettings_round_trip (stored : option Stored) :
  loadSettings (Some (snd (loadSettings stored))) = loadSettings stored
  /\ (exists object,
        settings (data (snd (loadSettings stored))) = Some object
        /\ named object = allSettings (fst (loadSettings stored)))
  /\ (forall d, stored = Some d ->
        chunks (data (snd (loadSettings stored))) = chunks (data d)
        /\ pushes (data (snd (loadSettings stored))) = pushes (data d)
        /\ pushMessages (data (snd (loadSettings stored))) = pushMessages (data d))
  /\ (forall d object,
        stored = Some d -> settings (data d) = Some object ->
        fst (loadSettings stored) = assignSettings DEFAULT_SETTINGS (named object)
        /\ exists object',
             settings (data (snd (loadSettings stored))) = Some object'
             /\ carried_chunks object' = carried_chunks object
             /\ carried_pushes object' = carried_pushes object
             /\ carried_pushMessages object' = carried_pushMessages object)
  /\ (forall d,
        stored = Some d -> settings (data d) = None ->
        fst (loadSettings stored) = assignSettings DEFAULT_SETTINGS (legacy d)
        /\ exists object',
             settings (data (snd (loadSettings stored))) = Some object'
             /\ carried_chunks object' = chunks (data d)
             /\ carried_pushes object' = pushes (data d)
             /\ carried_pushMessages object' = pushMessages (data d))
  /\ fst (loadSettings None) = DEFAULT_SETTINGS.
Proof.
  split; [|split; [|split; [|split; [|split]]]].
  - unfold loadSettings. cbn [data settings named carried_chunks carried_pushes
                              carried_pushMessages chunks pushes pushMessages legacy
                              fst snd].
    now rewrite assignSettings_all.
  - eexists. split; reflexivity.
  - intros d ->. now repeat split.
  - intros d object -> Hobject. unfold loadSettings. cbn [fst snd data settings].
    rewrite Hobject. split; [reflexivity|]. eexists. now repeat split.
  - intros d -> Hnone. unfold loadSettings. cbn [fst snd data settings].
    rewrite Hnone. split; [reflexivity|]. eexists. now repeat split.
  - reflexivity.
Qed.

(** Data in the layout of older versions: the API key is read from the top
    level, and the settings saved carry the stored chunks. *)
Lemma loadSettings_round_trip_witness :
  llmApiKey (fst (loadSettings (Some Fixtures.legacyStored))) = "sk-test"
  /\ exists object',
       settings (data (snd (loadSettings (Some Fixtures.legacyStored)))) = Some object'
       /\ carried_chunks object' = Some [("b", ChunkStore.stored Fixtures.chunkB)].
Proof.
  destruct (proj1 (proj2 (proj2 (proj2 (proj2
              (loadSettings_round_trip (Some Fixtures.legacyStored))))))
              Fixtures.legacyStored eq_refl eq_refl)
    as (Hloaded & object' & Hobject & Hchunks & _).
  split; [now rewrite Hloaded|]. exists object'. split; assumption.
Defined.

End SettingsFacts.

(** ** The further properties of the merge and of the service, on the sample
    data *)

(** The sample chunk, merged with a [major] decision. *)
Lemma modify_keeps_chunk_sound_witness :
  exists chunk',
    ChunkMap.get "a"
      (ChunkManager.chunks
         (ChunkManager.run
            (@ChunkManager.processDecision Sample.sm2 Sample.host Sample.merge0
               Sample.decisionMajor) Sample.state0)) = Some chunk'
    /\ 1.3 <= sm2Ef chunk' /\ 1 <= sm2IntervalDays chunk'.
Proof.
  destruct (@modify_keeps_chunk_sound Sample.sm2 Sample.host Sample.merge0
              Sample.decisionMajor Sample.state0 "a" Sample.chunkA
              "Binary search needs a sorted array."
              eq_refl eq_refl eq_refl eq_refl ltac:(discriminate))
    as (c & Hget & Hef & _ & _ & _ & _ & Hdays & _).
  exists c. repeat split; assumption.
Defined.

(** The sample chunk, merged with a decision that has no update level. *)
Lemma modify_without_level_is_moderate_witness :
  exists chunk',
    ChunkMap.get "a"
      (ChunkManager.chunks
         (ChunkManager.run
            (@ChunkManager.processDecision Sample.sm2 Sample.host Sample.merge0
               Fixtures.decisionNoLevel) Sample.state0)) = Some chunk'
    /\ sm2Ef chunk' = Math_max 1.3 (2.5 - 0.3)
    /\ sm2Repetitions chunk' = Math_max 0 (3 - 1).
Proof.
  destruct (@modify_without_level_is_moderate Sample.sm2 Sample.host Sample.merge0
              Fixtures.decisionNoLevel Sample.state0 "a" Sample.chunkA
              "Binary search needs a sorted array."
              eq_refl eq_refl eq_refl eq_refl ltac:(discriminate) (or_introl eq_refl))
    as (c & Hget & Hef & Hrep & _).
  exists c. repeat split; assumption.
Defined.

(** The sample chunk, merged with a decision whose update level is
    [rewrite]. *)
Lemma modify_unknown_level_is_major_witness :
  exists chunk',
    ChunkMap.get "a"
      (ChunkManager.chunks
         (ChunkManager.run
            (@ChunkManager.processDecision Sample.sm2 Sample.host Sample.merge0
               Fixtures.decisionRewrite) Sample.state0)) = Some chunk'
    /\ sm2Repetitions chunk' = 0.
Proof.
  destruct (@modify_unknown_level_is_major Sample.sm2 Sample.host Sample.merge0
              Fixtures.decisionRewrite Sample.state0 "a" Sample.chunkA
              "Binary search needs a sorted array." "rewrite"
              eq_refl eq_refl eq_refl eq_refl ltac:(discriminate) eq_refl
              ltac:(discriminate) ltac:(discriminate) ltac:(discriminate))
    as (c & Hget & Hrep & _).
  exists c. split; assumption.
Defined.

(** A [keep] decision for the sample chunk. *)
Lemma processDecision_skips_witness :
  @ChunkManager.processDecision Sample.sm2 Sample.host Sample.merge0
    Fixtures.decisionKeep Sample.state0
  = (Sample.merge0, Sample.state0).
Proof.
  apply (@processDecision_skips Sample.sm2 Sample.host).
  right. left. split; discriminate.
Defined.

(** The sample chunk, deleted and then modified by the same reply. *)
Lemma deleted_stays_deleted_witness :
  ChunkMap.get "a"
    (ChunkManager.chunks
       (ChunkManager.run
          (ChunkManager.foldM
             (@ChunkManager.processDecision Sample.sm2 Sample.host)
             [Fixtures.decisionDelete; Sample.decisionMajor] Sample.merge0)
          Sample.state0)) = None.
Proof.
  apply (proj2 (@deleted_stays_deleted Sample.sm2 Sample.host Sample.merge0
                  Fixtures.decisionDelete [Sample.decisionMajor] Sample.state0)).
  - discriminate.
  - reflexivity.
Defined.

(** The chunk of the other note, while the chunk of [note.md] is deleted. *)
Lemma decisions_leave_other_notes_witness :
  ChunkMap.get "b"
    (ChunkManager.chunks
       (ChunkManager.run
          (ChunkManager.foldM
             (@ChunkManager.processDecision Sample.sm2 Sample.host)
             [Fixtures.decisionDelete]
             (ChunkManager.mkMerge
                (ChunkManager.entriesByNotePath "note.md"
                   (ChunkManager.chunks Fixtures.twoNotes))
                (ChunkManager.mkTally 0 0 0)))
          Fixtures.twoNotes)) = Some Fixtures.chunkB.
Proof.
  apply (@decisions_leave_other_notes Sample.sm2 Sample.host "note.md"
           [Fixtures.decisionDelete] Fixtures.twoNotes "b" Fixtures.chunkB).
  - simpl. repeat constructor; simpl; intuition discriminate.
  - intros k c [[= <- <-]|[[= <- <-]|[]]]; reflexivity.
  - reflexivity.
  - discriminate.
Defined.

(** A reply with the status 500 to a first extraction. *)
Lemma extraction_errors_are_wrapped_witness :
  exists error msg,
    @LLMService.extractChunks Sample.parser
      (ChunkManager.llmConfig Sample.settings) Sample.serverError = Throw error
    /\ error = newError msg.
Proof.
  eexists.
  destruct (@extraction_errors_are_wrapped Sample.parser
              (ChunkManager.llmConfig Sample.settings) Sample.serverError _
              (or_introl eq_refl)) as (msg & Hmsg & _).
  exists msg. split; [reflexivity|exact Hmsg].
Defined.

(** The reply of the sample tutoring turn. *)
Lemma generatePushResponse_returns_witness :
  exists r,
    @LLMService.generatePushResponse Sample.parser Sample.runtime
      (ChunkManager.llmConfig Sample.settings) (Sample.reply Sample.tutorPayload) = Ok r
    /\ LLMService.result_response r = Str.trim "Well explained.".
Proof.
  destruct (proj1 (@generatePushResponse_returns Sample.parser Sample.runtime
                     (ChunkManager.llmConfig Sample.settings)
                     (Sample.reply Sample.tutorPayload) Sample.tutorResult eq_refl)
              "Well explained." eq_refl ltac:(discriminate) eq_refl eq_refl)
    as (r & Hr & Htext & _).
  exists r. split; assumption.
Defined.

(** A new chunk in the sample store. *)
Lemma createNewChunk_sound_witness :
  1 <= sm2IntervalDays
         (fst (@ChunkManager.createNewChunk Sample.sm2 Sample.host
                 "Heaps are complete trees." "other.md" Sample.state0)).
Proof.
  apply (@createNewChunk_sound Sample.sm2 Sample.host
           "Heaps are complete trees." "other.md" Sample.state0).
Defined.

(** The reply of the sample first extraction. *)
Lemma extraction_succeeds_iff_witness :
  LLMService.apiKey (ChunkManager.llmConfig Sample.settings) <> "".
Proof.
  apply (proj1 (proj1 (@extraction_succeeds_iff Fixtures.firstParser
                         (ChunkManager.llmConfig Sample.settings)
                         (Sample.reply Fixtures.firstPayload))
                  (map LLMService.chunkObject Fixtures.firstChunks))).
  reflexivity.
Defined.

(** The reply of the sample tutoring turn has no question. *)
Lemma generatePushQuestion_result_witness :
  @Tutor.generatePushQuestion Sample.parser
    (ChunkManager.llmConfig Sample.settings) (Sample.reply Sample.tutorPayload)
  = Throw (newError "LLM did not return a valid question").
Proof.
  apply (proj2 (proj2 (@generatePushQuestion_result Sample.parser
                         (ChunkManager.llmConfig Sample.settings)
                         (Sample.reply Sample.tutorPayload)))
           Sample.tutorResult eq_refl).
  left. reflexivity.
Defined.
